(** * QuLab driver layer ([qulab/_driver.py]): quantities, drivers,
      resource resolution and the driver manager.

    The Python code is embedded shallowly.  Python values are a small
    universe [pyval]; exceptions are data ([exn]); every method is a
    function in a state-and-exception monad over the object it mutates.
    The transport handle ([ins], a pyvisa resource in production) is an
    external collaborator: it is represented by a scripted handle that
    records every call it receives and answers queries from a finite list of
    canned replies. *)

From Stdlib Require Import ZArith List Ascii String Lia Bool.
From Stdlib Require Import Floats.SpecFloat.
From stdpp Require Import base option list strings gmap.

Open Scope string_scope.
Open Scope list_scope.
Open Scope Z_scope.

(* ===================================================================== *)
(** ** Exceptions and outcomes *)
(* ===================================================================== *)

(** The Python exceptions that the modelled code paths can raise. *)
Inductive exn : Type :=
  | TypeError
  | ValueError
  | IndexError
  | KeyError
  | AttributeError
  | OverflowError
  | NameError
  | ImportError
  | VisaIOError.

Inductive outcome (A : Type) : Type :=
  | Ok (a : A)
  | Raise (e : exn).
Arguments Ok {A} a.
Arguments Raise {A} e.

(** A method acting on a mutable object of type [S]: it returns a value or
    raises, and in both cases leaves the object in some state. *)
Definition M (S A : Type) : Type := S -> outcome A * S.

Definition ret {S A} (a : A) : M S A := fun s => (Ok a, s).
Definition throw {S A} (e : exn) : M S A := fun s => (Raise e, s).
Definition bind {S A B} (m : M S A) (k : A -> M S B) : M S B :=
  fun s =>
    match m s with
    | (Ok a, s') => k a s'
    | (Raise e, s') => (Raise e, s')
    end.
Definition get_state {S} : M S S := fun s => (Ok s, s).
Definition put_state {S} (s : S) : M S unit := fun _ => (Ok tt, s).
Definition modify {S} (f : S -> S) : M S unit := fun s => (Ok tt, f s).
Definition lift {S A} (o : outcome A) : M S A := fun s => (o, s).

Notation "'do' x <- m ; k" := (bind m (fun x => k))
  (at level 20, x pattern, m at level 100, k at level 200, only parsing).

(* ===================================================================== *)
(** ** Python values *)
(* ===================================================================== *)

(** The values that quantities cache and that transports return.  Floats
    are IEEE-754 values in the representation of [SpecFloat]; [PList] stands
    for a Python sequence of values (a [list], or the numeric array built
    from it).  Objects outside this universe are not modelled. *)
#[warnings="-register-all"]
Inductive pyval : Type :=
  | PNone
  | PBool (b : bool)
  | PInt (z : Z)
  | PFloat (f : spec_float)
  | PStr (s : string)
  | PList (l : list pyval).

(** Keyword arguments ([**kw]): an ordered mapping from names to values. *)
Definition kwargs : Type := list (string * pyval).

Fixpoint kw_get (k : string) (kw : kwargs) : option pyval :=
  match kw with
  | [] => None
  | (k', v) :: rest => if String.eqb k k' then Some v else kw_get k rest
  end.

Fixpoint kw_del (k : string) (kw : kwargs) : kwargs :=
  match kw with
  | [] => []
  | (k', v) :: rest =>
      if String.eqb k k' then kw_del k rest else (k', v) :: kw_del k rest
  end.

(** *** Characters *)

Definition code (c : ascii) : Z := Z.of_N (N_of_ascii c).

Definition is_digit (c : ascii) : bool := (48 <=? code c) && (code c <=? 57).

Definition digit_val (c : ascii) : Z := code c - 48.

(** [str.isspace] on the code points below 256 (strings are sequences of
    such code points): TAB..CR, FS..US, space, NEL and NBSP. *)
Definition is_space (c : ascii) : bool :=
  let n := code c in
  ((9 <=? n) && (n <=? 13)) || ((28 <=? n) && (n <=? 32))
  || (n =? 133) || (n =? 160).

(** *** String methods *)

Fixpoint mem_char (c : ascii) (chars : string) : bool :=
  match chars with
  | EmptyString => false
  | String c' rest => Ascii.eqb c c' || mem_char c rest
  end.

Fixpoint lstrip_by (p : ascii -> bool) (s : string) : string :=
  match s with
  | EmptyString => EmptyString
  | String c rest => if p c then lstrip_by p rest else s
  end.

(** Strips from the right: the suffix made of characters satisfying [p] is
    dropped. *)
Fixpoint rstrip_by (p : ascii -> bool) (s : string) : string :=
  match s with
  | EmptyString => EmptyString
  | String c rest =>
      match rstrip_by p rest with
      | EmptyString => if p c then EmptyString else String c EmptyString
      | r => String c r
      end
  end.

Definition strip_by (p : ascii -> bool) (s : string) : string :=
  rstrip_by p (lstrip_by p s).

(** [s.strip()] *)
Definition py_strip (s : string) : string := strip_by is_space s.

(** [s.strip(chars)] *)
Definition py_strip_chars (chars s : string) : string :=
  strip_by (fun c => mem_char c chars) s.

(** [s[:-1]]: all but the last character; the empty string stays empty. *)
Fixpoint drop_last (s : string) : string :=
  match s with
  | EmptyString => EmptyString
  | String c EmptyString => EmptyString
  | String c rest => String c (drop_last rest)
  end.

Fixpoint rev_string_acc (s acc : string) : string :=
  match s with
  | EmptyString => acc
  | String c rest => rev_string_acc rest (String c acc)
  end.

Definition rev_string (s : string) : string := rev_string_acc s EmptyString.

(** [s.split(sep)] for a non-empty separator: the string is scanned from the
    left; at each position where [sep] occurs the current field is closed and
    the scan resumes after the separator.  [skip] counts the characters of a
    separator still to be passed over; [cur] is the current field, reversed. *)
Fixpoint split_go (sep : string) (skip : nat) (cur : string) (s : string)
  : list string :=
  match s with
  | EmptyString => [rev_string cur]
  | String c rest =>
      match skip with
      | S k => split_go sep k cur rest
      | O =>
          if String.prefix sep s
          then rev_string cur :: split_go sep (String.length sep - 1) EmptyString rest
          else split_go sep O (String c cur) rest
      end
  end.

Definition py_split (sep s : string) : list string :=
  split_go sep O EmptyString s.

(** *** [int(...)], [bool(...)], [==], [hash] *)

Fixpoint all_digits (s : string) : bool :=
  match s with
  | EmptyString => true
  | String c rest => is_digit c && all_digits rest
  end.

(** Digits with single underscores allowed between them; [acc] is the value
    read so far and [prev_digit] tells whether the previous character was a
    digit (an underscore must sit between two digits). *)
Fixpoint int_digits (s : string) (acc : Z) (prev_digit : bool) : option Z :=
  match s with
  | EmptyString => if prev_digit then Some acc else None
  | String c rest =>
      if is_digit c then int_digits rest (10 * acc + digit_val c) true
      else if Ascii.eqb c "_" && prev_digit
           then match rest with
                | String c' _ => if is_digit c' then int_digits rest acc false else None
                | EmptyString => None
                end
           else None
  end.

(** The whitespace [int] ignores around a number: TAB..CR, space, NEL and
    NBSP.  The separators FS..US, which [str.strip] removes, are not among
    them. *)
Definition is_int_space (c : ascii) : bool :=
  let n := code c in
  ((9 <=? n) && (n <=? 13)) || (n =? 32) || (n =? 133) || (n =? 160).

(** [int(s)] for a string, base 10: surrounding whitespace is ignored, one
    optional sign, then digits.  Anything else is a [ValueError]. *)
Definition read_digits (body : string) (negative : bool) : outcome Z :=
  match int_digits body 0 false with
  | Some z => Ok (if negative then - z else z)
  | None => Raise ValueError
  end.

Definition int_of_string (s : string) : outcome Z :=
  let text := strip_by is_int_space s in
  match text with
  | String c body =>
      if Ascii.eqb c "-" then read_digits body true
      else if Ascii.eqb c "+" then read_digits body false
      else read_digits text false
  | EmptyString => Raise ValueError
  end.

(** [int(f)] for a float: truncation towards zero. *)
Definition int_of_float (f : spec_float) : outcome Z :=
  match f with
  | S754_zero _ => Ok 0
  | S754_infinity _ => Raise OverflowError
  | S754_nan => Raise ValueError
  | S754_finite neg m e =>
      let mag := if 0 <=? e then Z.pos m * 2 ^ e else Z.pos m / 2 ^ (- e) in
      Ok (if neg then - mag else mag)
  end.

Definition py_int (v : pyval) : outcome Z :=
  match v with
  | PNone => Raise TypeError
  | PBool b => Ok (if b then 1 else 0)
  | PInt z => Ok z
  | PFloat f => int_of_float f
  | PStr s => int_of_string s
  | PList _ => Raise TypeError
  end.

(** [bool(z)] for an integer. *)
Definition bool_of_int (z : Z) : bool := negb (z =? 0).

(** A number denoted by a value, as a pair [(n, e)] standing for [n * 2^e];
    [None] for values that are not finite numbers. *)
Definition numeric (v : pyval) : option (Z * Z) :=
  match v with
  | PBool b => Some (if b then 1 else 0, 0)
  | PInt z => Some (z, 0)
  | PFloat (S754_zero _) => Some (0, 0)
  | PFloat (S754_finite neg m e) => Some (if neg then Z.neg m else Z.pos m, e)
  | _ => None
  end.

Definition num_eqb (a b : Z * Z) : bool :=
  let '(n1, e1) := a in
  let '(n2, e2) := b in
  let e := Z.min e1 e2 in
  n1 * 2 ^ (e1 - e) =? n2 * 2 ^ (e2 - e).

(** [a == b].  Numbers compare by value across [bool], [int] and [float];
    infinities compare by sign; NaN equals nothing. *)
Fixpoint py_eqb (a b : pyval) : bool :=
  match numeric a, numeric b with
  | Some x, Some y => num_eqb x y
  | Some _, None | None, Some _ => false
  | None, None =>
      match a, b with
      | PNone, PNone => true
      | PFloat (S754_infinity s1), PFloat (S754_infinity s2) => Bool.eqb s1 s2
      | PStr s1, PStr s2 => String.eqb s1 s2
      | PList l1, PList l2 =>
          (fix eq_list (xs ys : list pyval) : bool :=
             match xs, ys with
             | [], [] => true
             | x :: xs', y :: ys' => py_eqb x y && eq_list xs' ys'
             | _, _ => false
             end) l1 l2
      | _, _ => false
      end
  end.

(** Values that can be dictionary keys. *)
Definition hashable (v : pyval) : bool :=
  match v with
  | PList _ => false
  | _ => true
  end.

(** [d[k]] on the dictionary [dict(pairs)]: the last pair whose key equals
    [k] wins, as later insertions overwrite earlier ones.  Keys are compared
    by equality of values; the values here have no identity of their own,
    so a key that is found by identity alone (a NaN looked up through the
    very object stored) is not represented. *)
Fixpoint dict_get (pairs : list (pyval * pyval)) (k : pyval) : option pyval :=
  match pairs with
  | [] => None
  | (k', v) :: rest =>
      match dict_get rest k with
      | Some v' => Some v'
      | None => if py_eqb k' k then Some v else None
      end
  end.

(** [dict(pairs)] itself: fails on an unhashable key. *)
Definition py_dict (pairs : list (pyval * pyval)) : outcome (list (pyval * pyval)) :=
  if forallb (fun p => hashable (fst p)) pairs then Ok pairs else Raise TypeError.

(** [len(v)] *)
Definition py_len (v : pyval) : outcome Z :=
  match v with
  | PStr s => Ok (Z.of_nat (String.length s))
  | PList l => Ok (Z.of_nat (List.length l))
  | _ => Raise TypeError
  end.

(** [v[0]] *)
Definition py_first (v : pyval) : outcome pyval :=
  match v with
  | PStr (String c _) => Ok (PStr (String c EmptyString))
  | PList (x :: _) => Ok x
  | PStr EmptyString | PList [] => Raise IndexError
  | _ => Raise TypeError
  end.

(** Truth value of a value, as used by [if v:]. *)
Definition py_truth (v : pyval) : bool :=
  match v with
  | PNone => false
  | PBool b => b
  | PInt z => bool_of_int z
  | PFloat (S754_zero _) => false
  | PFloat _ => true
  | PStr s => negb (String.eqb s EmptyString)
  | PList l => match l with [] => false | _ => true end
  end.

(* ===================================================================== *)
(** ** The transport handle *)
(* ===================================================================== *)

(** The calls a driver makes on its transport handle.  Arguments that are
    only passed through ([container], [delay], [termination], [encoding])
    are left out of the record of a call. *)
Inductive call : Type :=
  | CQuery (message : string)
  | CQueryAscii (message converter separator : string)
  | CQueryBinary (message datatype : string) (is_big_endian : bool) (header_fmt : string)
  | CWrite (message : string)
  | CWriteAscii (message : string) (values : pyval) (converter separator : string)
  | CWriteBinary (message : string) (values : pyval) (datatype : string) (is_big_endian : bool)
  | CClose.

(** What the handle answers to a query: a value, or a failure of the call. *)
Inductive reply : Type :=
  | Reply (v : pyval)
  | Fault (e : exn).

(** A scripted handle: [t_log] holds the calls received so far, oldest
    first; [t_script] the answers to the queries still to come.  A query on
    an exhausted script times out ([VisaIOError]); writes and [close] return
    nothing the driver uses. *)
Record transport : Type := mkTransport {
  t_timeout : Z;
  t_log : list call;
  t_script : list reply
}.

Definition t_record (c : call) (t : transport) : transport :=
  mkTransport (t_timeout t) (t_log t ++ [c]) (t_script t).

Definition t_query (c : call) : M transport pyval := fun t =>
  let t' := t_record c t in
  match t_script t with
  | [] => (Raise VisaIOError, t')
  | Reply v :: rest => (Ok v, mkTransport (t_timeout t') (t_log t') rest)
  | Fault e :: rest => (Raise e, mkTransport (t_timeout t') (t_log t') rest)
  end.

Definition t_send (c : call) : M transport unit := fun t => (Ok tt, t_record c t).

Definition t_set_timeout (ms : Z) (t : transport) : transport :=
  mkTransport ms (t_log t) (t_script t).

(* ===================================================================== *)
(** ** Quantities and drivers: data *)
(* ===================================================================== *)

(** The class of a quantity object; method lookup goes by it. *)
Inductive qclass : Type :=
  | Quantity | QReal | QInteger | QString | QOption | QBool | QVector | QList.

(** The attributes of a quantity.  [q_options] is the ordered list of
    (label, device code) pairs of an option quantity (empty otherwise) and
    [q_opts] the two-way dictionary derived from it by the constructor.  The
    attribute [driver] is not a field: the driver a quantity is attached to
    is the context in which its methods run (see [qctx]). *)
Record quantity : Type := mkQuantity {
  q_class : qclass;
  q_name : string;
  q_value : pyval;
  q_type : pyval;
  q_unit : pyval;
  q_ch : pyval;
  q_set_cmd : string;
  q_get_cmd : string;
  q_options : list (pyval * pyval);
  q_opts : list (pyval * pyval)
}.

Definition set_q_value (v : pyval) (q : quantity) : quantity :=
  mkQuantity (q_class q) (q_name q) v (q_type q) (q_unit q) (q_ch q)
             (q_set_cmd q) (q_get_cmd q) (q_options q) (q_opts q).

(** [BaseDriver]: [error_command] is a class attribute, kept with the
    instance. *)
Record driver : Type := mkDriver {
  addr : pyval;
  ins : option transport;
  timeout : Z;
  model : pyval;
  quantities : gmap string quantity;
  error_command : string
}.

Definition set_ins (i : option transport) (d : driver) : driver :=
  mkDriver (addr d) i (timeout d) (model d) (quantities d) (error_command d).

Definition set_quantities (qs : gmap string quantity) (d : driver) : driver :=
  mkDriver (addr d) (ins d) (timeout d) (model d) qs (error_command d).

(** What a method returns when its last statement is [return self] and its
    guard is [return None]. *)
Inductive self_or_none : Type := ReturnedNone | ReturnedSelf.

(** Parts of the program that live outside this module: the [%] operator on
    a command template and a mapping, the block builder of [qulab.util] and
    the dynamic import of a driver class. *)
Record driver_class : Type := mkDriverClass {
  dc_quants : list quantity;
  dc_error_command : string
}.

Record instrument : Type := mkInstrument {
  i_name : string;
  i_address : string;
  i_driver : string
}.

Record externals : Type := mkExternals {
  py_format : string -> kwargs -> outcome string;
  IEEE_488_2_BinBlock : pyval -> string -> bool -> outcome (list Z * string);
  import_Driver : string -> outcome driver_class
}.

(* ===================================================================== *)
(** ** BaseDriver: the I/O methods *)
(* ===================================================================== *)

Definition quote_char : ascii := "034"%char.

(** The two-character separator of an error-queue reply: a comma followed
    by a double quote. *)
Definition comma_quote : string := String "," (String quote_char EmptyString).

(** One reply of the error queue: [s[:-1]] is split at [comma_quote], then
    [int(_[0])] and [_[1]] are taken. *)
Definition parse_error_reply (s : pyval) : outcome (Z * string) :=
  match s with
  | PStr s =>
      match py_split comma_quote (drop_last s) with
      | [] => Raise IndexError
      | f0 :: fields =>
          match int_of_string f0 with
          | Raise x => Raise x
          | Ok code =>
              match fields with
              | [] => Raise IndexError
              | msg :: _ => Ok (code, msg)
              end
          end
      end
  | PList _ => Raise AttributeError
  | _ => Raise TypeError
  end.

(** The loop of [errors]: every round sends the error query; a zero code
    ends the loop.  The recursion follows the canned replies, each round
    using one up. *)
Fixpoint errors_loop (cmd : string) (e : list (Z * string))
    (script : list reply) (log : list call)
  : outcome (list (Z * string)) * (list call * list reply) :=
  let log' := log ++ [CQuery cmd] in
  match script with
  | [] => (Raise VisaIOError, (log', []))
  | Fault x :: rest => (Raise x, (log', rest))
  | Reply s :: rest =>
      match parse_error_reply s with
      | Raise x => (Raise x, (log', rest))
      | Ok (code, msg) =>
          if code =? 0 then (Ok e, (log', rest))
          else errors_loop cmd (e ++ [(code, msg)]) rest log'
      end
  end.

Definition errors : M driver (list (Z * string)) := fun d =>
  if String.eqb (error_command d) EmptyString then (Ok [], d)
  else
    match ins d with
    | None => (Raise AttributeError, d)
    | Some t =>
        let '(r, (log, script)) :=
          errors_loop (error_command d) [] (t_script t) (t_log t) in
        (r, set_ins (Some (mkTransport (t_timeout t) log script)) d)
    end.

(** [check_errors_and_log]: the entries go to the log sink only. *)
Definition check_errors_and_log : M driver unit :=
  do _ <- errors; ret tt.

Definition when_ (b : bool) {S} (m : M S unit) : M S unit :=
  if b then m else ret tt.

(** Runs a call on the handle of a driver that has one. *)
Definition on_ins {A} (m : M transport A) : M driver A := fun d =>
  match ins d with
  | Some t => let '(r, t') := m t in (r, set_ins (Some t') d)
  | None => (Raise AttributeError, d)
  end.

Definition has_ins (d : driver) : bool :=
  match ins d with Some _ => true | None => false end.

Definition query (message : string) (check_errors : bool) : M driver pyval :=
  do d <- get_state;
  if negb (has_ins d) then ret PNone
  else
    do res <- on_ins (t_query (CQuery message));
    do _ <- when_ check_errors check_errors_and_log;
    ret res.

Definition query_ascii_values (message converter separator : string)
    (check_errors : bool) : M driver pyval :=
  do d <- get_state;
  if negb (has_ins d) then ret PNone
  else
    do res <- on_ins (t_query (CQueryAscii message converter separator));
    do _ <- lift (py_len res);
    do _ <- when_ check_errors check_errors_and_log;
    ret res.

Definition query_binary_values (message datatype : string)
    (is_big_endian : bool) (header_fmt : string) (check_errors : bool)
  : M driver pyval :=
  do d <- get_state;
  if negb (has_ins d) then ret PNone
  else
    do res <- on_ins (t_query (CQueryBinary message datatype is_big_endian header_fmt));
    do _ <- lift (py_len res);
    do _ <- when_ check_errors check_errors_and_log;
    ret res.

Definition write (message : string) (check_errors : bool)
  : M driver self_or_none :=
  do d <- get_state;
  if negb (has_ins d) then ret ReturnedNone
  else
    do _ <- on_ins (t_send (CWrite message));
    do _ <- when_ check_errors check_errors_and_log;
    ret ReturnedSelf.

Definition write_ascii_values (message : string) (values : pyval)
    (converter separator : string) (check_errors : bool)
  : M driver self_or_none :=
  do d <- get_state;
  if negb (has_ins d) then ret ReturnedNone
  else
    do _ <- lift (py_len values);
    do _ <- on_ins (t_send (CWriteAscii message values converter separator));
    do _ <- when_ check_errors check_errors_and_log;
    ret ReturnedSelf.

Definition write_binary_values (E : externals) (message : string)
    (values : pyval) (datatype : string) (is_big_endian : bool)
    (check_errors : bool) : M driver self_or_none :=
  do d <- get_state;
  if negb (has_ins d) then ret ReturnedNone
  else
    do _ <- lift (IEEE_488_2_BinBlock E values datatype is_big_endian);
    do _ <- on_ins (t_send (CWriteBinary message values datatype is_big_endian));
    do _ <- when_ check_errors check_errors_and_log;
    ret ReturnedSelf.

(** [performClose] is an empty hook in the base class. *)
Definition performClose : M driver unit := ret tt.

Definition close : M driver unit :=
  do _ <- performClose;
  do d <- get_state;
  if has_ins d then on_ins (t_send CClose) else ret tt.

(* ===================================================================== *)
(** ** The quantity classes *)
(* ===================================================================== *)

(** The context in which a method of a quantity runs: the quantity and the
    driver it is attached to, that is [self.driver]; [None] for a quantity
    that stands alone.  A quantity owned by a driver runs with that driver
    as its context (see [on_quantity]). *)
Definition qctx : Type := (quantity * option driver)%type.

Definition self_value : M qctx pyval :=
  fun c => (Ok (q_value (fst c)), c).

Definition assign_value (v : pyval) : M qctx unit :=
  fun c => (Ok tt, (set_q_value v (fst c), snd c)).

Definition on_driver {A} (m : M driver A) : M qctx A := fun c =>
  match snd c with
  | Some d => let '(r, d') := m d in (r, (fst c, Some d'))
  | None => (Raise AttributeError, c)
  end.

(** [if x is None: x = dflt] *)
Definition or_default (x dflt : pyval) : pyval :=
  match x with PNone => dflt | _ => x end.

(** The guard [self.driver is not None and self.xxx_cmd is not ''] on a
    command template [cmd]. *)
Definition can_io (cmd : string) (c : qctx) : bool :=
  match snd c with
  | Some _ => negb (String.eqb cmd EmptyString)
  | None => false
  end.

Module Quantity.

Definition new (name : string) (value type unit' ch : pyval)
    (get_cmd set_cmd : string) : quantity :=
  mkQuantity Quantity name value type unit' ch set_cmd get_cmd [] [].

Definition getValue (ch : pyval) (kw : kwargs) : M qctx pyval :=
  self_value.

Definition _formatGetCmd (E : externals) (kw : kwargs) : M qctx string :=
  fun c => (py_format E (q_get_cmd (fst c)) kw, c).

Definition _formatSetCmd (E : externals) (value : pyval) (kw : kwargs)
  : M qctx string :=
  fun c => (py_format E (q_set_cmd (fst c)) (("value", value) :: kw), c).

Definition setValue (E : externals) (value unit' ch : pyval) (kw : kwargs)
  : M qctx unit :=
  do _ <- assign_value value;
  do c <- get_state;
  let ch := or_default ch (q_ch (fst c)) in
  let unit' := or_default unit' (q_unit (fst c)) in
  if can_io (q_set_cmd (fst c)) c then
    do cmd <- _formatSetCmd E value (("unit", unit') :: ("ch", ch) :: kw);
    do _ <- on_driver (write cmd false);
    ret tt
  else ret tt.

End Quantity.

Module QReal.

Definition new (name : string) (value unit' ch : pyval)
    (get_cmd set_cmd : string) : quantity :=
  mkQuantity QReal name value (PStr "Real") unit' ch set_cmd get_cmd [] [].

Definition getValue (E : externals) (ch : pyval) (kw : kwargs)
  : M qctx pyval :=
  do c <- get_state;
  let ch := or_default ch (q_ch (fst c)) in
  if can_io (q_get_cmd (fst c)) c then
    do cmd <- Quantity._formatGetCmd E (("ch", ch) :: kw);
    do res <- on_driver (query_ascii_values cmd "f" "," false);
    do v <- lift (py_first res);
    do _ <- assign_value v;
    self_value
  else self_value.

End QReal.

Module QInteger.

Definition new (name : string) (value unit' ch : pyval)
    (get_cmd set_cmd : string) : quantity :=
  mkQuantity QInteger name value (PStr "Integer") unit' ch set_cmd get_cmd [] [].

Definition getValue (E : externals) (ch : pyval) (kw : kwargs)
  : M qctx pyval :=
  do c <- get_state;
  let ch := or_default ch (q_ch (fst c)) in
  do _ <- QReal.getValue E ch kw;
  do v <- self_value;
  do z <- lift (py_int v);
  ret (PInt z).

End QInteger.

Module QString.

Definition new (name : string) (value ch : pyval)
    (get_cmd set_cmd : string) : quantity :=
  mkQuantity QString name value (PStr "String") PNone ch set_cmd get_cmd [] [].

(** The characters removed around a reply: newline, double quote, single
    quote and space. *)
Definition strip_chars : string :=
  String "010"%char (String quote_char (String "'" (String " " EmptyString))).

(** [res.strip(...)]: only a string has the method. *)
Definition strip_reply (res : pyval) : outcome pyval :=
  match res with
  | PStr s => Ok (PStr (py_strip_chars strip_chars s))
  | _ => Raise AttributeError
  end.

Definition getValue (E : externals) (ch : pyval) (kw : kwargs)
  : M qctx pyval :=
  do c <- get_state;
  let ch := or_default ch (q_ch (fst c)) in
  if can_io (q_get_cmd (fst c)) c then
    do cmd <- Quantity._formatGetCmd E (("ch", ch) :: kw);
    do res <- on_driver (query cmd false);
    do v <- lift (strip_reply res);
    do _ <- assign_value v;
    self_value
  else self_value.

End QString.

Module QOption.

(** The constructor fills [_opts] with both directions of every pair; a
    label or a code that cannot be a dictionary key makes it fail. *)
Definition new (name : string) (value : pyval)
    (options : list (pyval * pyval)) (ch : pyval)
    (get_cmd set_cmd : string) : outcome quantity :=
  if forallb (fun p => hashable (fst p) && hashable (snd p)) options
  then Ok (mkQuantity QOption name value (PStr "Option") PNone ch
             set_cmd get_cmd options
             (flat_map (fun p => [(fst p, snd p); (snd p, fst p)]) options))
  else Raise TypeError.

(** [options[value]] on [options = dict(self.options)], after the test
    [value not in options.keys()] has let [value] through. *)
Definition lookup_code (options : list (pyval * pyval)) (value : pyval)
  : outcome pyval :=
  match dict_get options value with
  | Some code => Ok code
  | None => Raise KeyError
  end.

Definition setValue (E : externals) (value ch : pyval) (kw : kwargs)
  : M qctx unit :=
  do _ <- assign_value value;
  do c <- get_state;
  let ch := or_default ch (q_ch (fst c)) in
  if can_io (q_set_cmd (fst c)) c then
    do options <- lift (py_dict (q_options (fst c)));
    if negb (hashable value) then throw TypeError
    else
      match dict_get options value with
      | None => ret tt
      | Some code =>
          match kw_get "option" kw with
          | Some _ => throw TypeError
          | None =>
              do cmd <- lift (py_format E (q_set_cmd (fst c))
                                (("option", code) :: ("ch", ch) :: kw));
              do _ <- on_driver (write cmd false);
              ret tt
          end
      end
  else ret tt.

(** [enumerate(self.options)] searched for the first pair whose label
    equals [value]. *)
Fixpoint index_of (value : pyval) (options : list (pyval * pyval)) (i : Z)
  : pyval :=
  match options with
  | [] => PNone
  | p :: rest =>
      if py_eqb (fst p) value then PInt i else index_of value rest (i + 1)
  end.

Definition getIndex (E : externals) (ch : pyval) (kw : kwargs)
  : M qctx pyval :=
  do c <- get_state;
  let ch := or_default ch (q_ch (fst c)) in
  do value <- QString.getValue E ch kw;
  match value with
  | PNone => ret PNone
  | _ => do c <- get_state; ret (index_of value (q_options (fst c)) 0)
  end.

Definition getCmdOption (E : externals) (ch : pyval) (kw : kwargs)
  : M qctx pyval :=
  do c <- get_state;
  let ch := or_default ch (q_ch (fst c)) in
  do value <- QString.getValue E ch kw;
  match value with
  | PNone => ret PNone
  | _ =>
      do c <- get_state;
      do options <- lift (py_dict (q_options (fst c)));
      if negb (hashable value) then throw TypeError
      else lift (lookup_code options value)
  end.

End QOption.

Module QBool.

Definition new (name : string) (value ch : pyval)
    (get_cmd set_cmd : string) : quantity :=
  mkQuantity QBool name value (PStr "Bool") PNone ch set_cmd get_cmd [] [].

Definition getValue (E : externals) (ch : pyval) (kw : kwargs)
  : M qctx pyval :=
  do c <- get_state;
  let ch := or_default ch (q_ch (fst c)) in
  do v <- QInteger.getValue E ch kw;
  ret (PBool (py_truth v)).

End QBool.

Module QVector.

Definition new (name : string) (value unit' ch : pyval)
    (get_cmd set_cmd : string) : quantity :=
  mkQuantity QVector name value (PStr "Vector") unit' ch set_cmd get_cmd [] [].

(** [np.asarray(res)]: the array is represented by the sequence it is
    built from. *)
Definition asarray (res : pyval) : pyval := res.

Definition getValue (E : externals) (ch : pyval) (kw : kwargs)
  : M qctx pyval :=
  do c <- get_state;
  let ch := or_default ch (q_ch (fst c)) in
  if can_io (q_get_cmd (fst c)) c then
    do cmd <- Quantity._formatGetCmd E (("ch", ch) :: kw);
    do res <-
      (if py_truth (default PNone (kw_get "binary" kw))
       then on_driver (query_binary_values cmd "f" false "ieee" false)
       else on_driver (query_ascii_values cmd "f" "," false));
    do _ <- assign_value (asarray res);
    self_value
  else self_value.

End QVector.

Module QList.

Definition new (name : string) (value unit' ch : pyval)
    (get_cmd set_cmd : string) : quantity :=
  mkQuantity QList name value (PStr "List") unit' ch set_cmd get_cmd [] [].

End QList.

(** Method lookup: [quant.getValue] and [quant.setValue] resolved through
    the class of the object and its bases (Integer extends Real, Bool
    extends Integer, Option extends String). *)
Definition quant_getValue (E : externals) (ch : pyval) (kw : kwargs)
  : M qctx pyval := fun c =>
  match q_class (fst c) with
  | Quantity | QList => Quantity.getValue ch kw c
  | QReal => QReal.getValue E ch kw c
  | QInteger => QInteger.getValue E ch kw c
  | QString | QOption => QString.getValue E ch kw c
  | QBool => QBool.getValue E ch kw c
  | QVector => QVector.getValue E ch kw c
  end.

(** [quant.setValue(value, **kw)]: the keywords [unit] and [ch] bind to the
    parameters of that name where the method has them. *)
Definition quant_setValue (E : externals) (value : pyval) (kw : kwargs)
  : M qctx unit := fun c =>
  let ch := default PNone (kw_get "ch" kw) in
  match q_class (fst c) with
  | QOption => QOption.setValue E value ch (kw_del "ch" kw) c
  | _ =>
      let unit' := default PNone (kw_get "unit" kw) in
      Quantity.setValue E value unit' ch (kw_del "unit" (kw_del "ch" kw)) c
  end.

(* ===================================================================== *)
(** ** BaseDriver: construction and dispatch by quantity name *)
(* ===================================================================== *)

Module BaseDriver.

(** [_add_quant]: the driver stores its own copy of the template. *)
Definition _add_quant (quant : quantity) (d : driver) : driver :=
  set_quantities (<[q_name quant := quant]> (quantities d)) d.

(** [__init__]: a handle, when given, gets the timeout in milliseconds. *)
Definition new (cls : driver_class) (ins : option transport)
    (addr model : pyval) (timeout : Z) : driver :=
  let ins' := t_set_timeout (timeout * 1000) <$> ins in
  fold_left (fun d q => _add_quant q d) (dc_quants cls)
    (mkDriver addr ins' timeout model ∅ (dc_error_command cls)).

(** Runs a method of the quantity stored under [name], with the driver as
    its context, and stores the quantity back. *)
Definition on_quantity {A} (name : string) (q : quantity) (m : M qctx A)
  : M driver A := fun d =>
  let '(r, (q', od)) := m (q, Some d) in
  let d' := default d od in
  (r, set_quantities (<[name := q']> (quantities d')) d').

(** [performGetValue(self, quant, **kw)], called with the quantity in
    first position: a keyword [quant] among [kw] gives the parameter a
    second value, and the call fails before the quantity is looked at. *)
Definition performGetValue (E : externals) (name : string) (quant : quantity)
    (kw : kwargs) : M driver pyval :=
  match kw_get "quant" kw with
  | Some _ => throw TypeError
  | None =>
      on_quantity name quant
        (quant_getValue E (default PNone (kw_get "ch" kw)) (kw_del "ch" kw))
  end.

(** [performSetValue(self, quant, value, **kw)]: likewise for a keyword
    [quant]. *)
Definition performSetValue (E : externals) (name : string) (quant : quantity)
    (value : pyval) (kw : kwargs) : M driver unit :=
  match kw_get "quant" kw with
  | Some _ => throw TypeError
  | None => on_quantity name quant (quant_setValue E value kw)
  end.

Definition getValue (E : externals) (name : string) (kw : kwargs)
  : M driver pyval := fun d =>
  match quantities d !! name with
  | Some quant => performGetValue E name quant kw d
  | None => (Ok PNone, d)
  end.

Definition getIndex (E : externals) (name : string) (kw : kwargs)
  : M driver pyval := fun d =>
  match quantities d !! name with
  | Some quant =>
      match q_class quant with
      | QOption =>
          on_quantity name quant
            (QOption.getIndex E (default PNone (kw_get "ch" kw)) (kw_del "ch" kw)) d
      | _ => (Raise AttributeError, d)
      end
  | None => (Ok PNone, d)
  end.

Definition getCmdOption (E : externals) (name : string) (kw : kwargs)
  : M driver pyval := fun d =>
  match quantities d !! name with
  | Some quant =>
      match q_class quant with
      | QOption =>
          on_quantity name quant
            (QOption.getCmdOption E (default PNone (kw_get "ch" kw)) (kw_del "ch" kw)) d
      | _ => (Raise AttributeError, d)
      end
  | None => (Ok PNone, d)
  end.

Definition setValue (E : externals) (name : string) (value : pyval)
    (kw : kwargs) : M driver self_or_none := fun d =>
  match quantities d !! name with
  | Some quant =>
      match performSetValue E name quant value kw d with
      | (Ok _, d') => (Ok ReturnedSelf, d')
      | (Raise e, d') => (Raise e, d')
      end
  | None => (Ok ReturnedSelf, d)
  end.

Definition performOpen : M driver unit := ret tt.

End BaseDriver.

(* ===================================================================== *)
(** ** Regular expressions, as far as the address patterns need them *)
(* ===================================================================== *)

Inductive regex : Type :=
  | Eps                                   (* the empty pattern *)
  | Lit (s : string)                      (* literal text *)
  | Plus (p : ascii -> bool)              (* [...]+, greedy *)
  | Alt (r1 r2 : regex)                   (* r1|r2, r1 tried first *)
  | Seq (r1 r2 : regex)
  | Group (n : nat) (r : regex)           (* the n-th capturing group *)
  | Bol                                   (* ^ *)
  | Eol.                                  (* $ *)

(** The text captured by each group. *)
Definition captures : Type := list (nat * string).

Fixpoint group (n : nat) (m : captures) : option string :=
  match m with
  | [] => None
  | (k, s) :: rest => if Nat.eqb n k then Some s else group n rest
  end.

Definition set_group (n : nat) (s : string) (m : captures) : captures :=
  (n, s) :: m.

(** The first [n] characters of [s]. *)
Fixpoint take (n : nat) (s : string) : string :=
  match n, s with
  | S k, String c rest => String c (take k rest)
  | _, _ => EmptyString
  end.

Fixpoint strip_prefix (p s : string) : option string :=
  match p, s with
  | EmptyString, _ => Some s
  | String a p', String b s' => if Ascii.eqb a b then strip_prefix p' s' else None
  | String _ _, EmptyString => None
  end.

(** [plus_go p s k any]: consumes characters satisfying [p], as many as
    possible first, and hands the rest to [k]; gives characters back one at a
    time while [k] refuses.  [any] tells whether a character has been
    consumed already: [+] wants at least one. *)
Fixpoint plus_go {X} (p : ascii -> bool) (s : string) (k : string -> option X)
    (any : bool) : option X :=
  let stop := if any then k s else None in
  match s with
  | String c rest =>
      if p c then
        match plus_go p rest k true with
        | Some x => Some x
        | None => stop
        end
      else stop
  | EmptyString => stop
  end.

(** A backtracking matcher in continuation style.  [at_start] tells whether
    the position is the beginning of the subject; [k] receives what is left
    of the subject, whether that is still the beginning, and the groups. *)
Fixpoint rmatch (r : regex) (s : string) (at_start : bool) (m : captures)
    (k : string -> bool -> captures -> option captures) : option captures :=
  match r with
  | Eps => k s at_start m
  | Lit l =>
      match strip_prefix l s with
      | Some rest => k rest (at_start && (String.length l =? 0)%nat) m
      | None => None
      end
  | Plus p => plus_go p s (fun rest => k rest false m) false
  | Alt r1 r2 =>
      match rmatch r1 s at_start m k with
      | Some m' => Some m'
      | None => rmatch r2 s at_start m k
      end
  | Seq r1 r2 =>
      rmatch r1 s at_start m (fun rest st m' => rmatch r2 rest st m' k)
  | Group n r' =>
      rmatch r' s at_start m
        (fun rest st m' =>
           k rest st
             (set_group n (take (String.length s - String.length rest) s) m'))
  | Bol => if at_start then k s at_start m else None
  | Eol =>
      match s with
      | EmptyString => k s at_start m
      | String "010" EmptyString => k s at_start m
      | _ => None
      end
  end.

(** [pattern.search(s)]: the first position, from the left, at which the
    pattern matches. *)
Fixpoint search_from (r : regex) (s : string) (at_start : bool)
  : option captures :=
  match rmatch r s at_start [] (fun _ _ m => Some m) with
  | Some m => Some m
  | None =>
      match s with
      | EmptyString => None
      | String _ rest => search_from r rest false
      end
  end.

Definition search (r : regex) (s : string) : option captures :=
  search_from r s true.

Fixpoint seq (rs : list regex) : regex :=
  match rs with
  | [] => Eps
  | [r] => r
  | r :: rest => Seq r (seq rest)
  end.

(** [^(ATS9360|ATS9850|ATS9870)::SYSTEM([0-9]+)::([0-9]+)(|::INSTR)$] *)
Definition ats_addr : regex :=
  seq [ Bol;
        Group 1 (Alt (Lit "ATS9360") (Alt (Lit "ATS9850") (Lit "ATS9870")));
        Lit "::SYSTEM";
        Group 2 (Plus is_digit);
        Lit "::";
        Group 3 (Plus is_digit);
        Group 4 (Alt Eps (Lit "::INSTR"));
        Eol ].

(* ===================================================================== *)
(** ** Resource resolution *)
(* ===================================================================== *)

(** The dictionary describing a resource; a key that is not set is [None]
    here.  [r_ins] is the opened handle, when there is one. *)
Record resource : Type := mkResource {
  r_type : option string;
  r_ins : option transport;
  r_company : option string;
  r_model : option string;
  r_version : option string;
  r_systemID : option Z;
  r_boardID : option Z;
  r_addr : string
}.

(** [m.group(n)] of a match object; a group that took no part is [None]. *)
Definition group_str (n : nat) (m : captures) : outcome string :=
  match group n m with
  | Some s => Ok s
  | None => Raise TypeError
  end.

Definition bind_out {A B} (o : outcome A) (k : A -> outcome B) : outcome B :=
  match o with
  | Ok a => k a
  | Raise e => Raise e
  end.

Definition _parse_ats_resource_name (m : captures) (addr : string)
  : outcome resource :=
  bind_out (group_str 1 m) (fun model =>
  bind_out (bind_out (group_str 2 m) int_of_string) (fun systemID =>
  bind_out (bind_out (group_str 3 m) int_of_string) (fun boardID =>
  Ok (mkResource (Some "ATS") None (Some "AlazarTech") (Some model) None
        (Some systemID) (Some boardID) addr)))).

Definition _parse_resource_name (addr : string) : outcome resource :=
  match search ats_addr addr with
  | Some m => _parse_ats_resource_name m addr
  | None => Ok (mkResource (Some "Visa") None None None None None None addr)
  end.

(** The VISA resource manager: the instruments that answer at an address,
    each given by the replies it will make, and the addresses on which
    [open_resource] has been called so far. *)
Record resource_manager : Type := mkRM {
  rm_devices : gmap string (list reply);
  rm_opened : list string
}.

Definition open_resource (addr : string) : M resource_manager transport :=
  fun rm =>
    let rm' := mkRM (rm_devices rm) (rm_opened rm ++ [addr]) in
    match rm_devices rm !! addr with
    | Some script => (Ok (mkTransport 2000 [] script), rm')
    | None => (Raise VisaIOError, rm')
    end.

(** [IDN[i]] *)
Definition field (i : nat) (IDN : list string) : outcome string :=
  match nth_error IDN i with
  | Some f => Ok f
  | None => Raise IndexError
  end.

(** The part of [_open_visa_resource] after the handle is open: the
    identification query and the reading of its fields. *)
Definition identify (addr : string) (ins : transport) : outcome resource :=
  match t_query (CQuery "*IDN?") ins with
  | (Raise e, _) => Raise e
  | (Ok (PStr reply), ins') =>
      let IDN := py_split "," reply in
      bind_out (field 0 IDN) (fun company =>
      bind_out (field 1 IDN) (fun model =>
      bind_out (field 3 IDN) (fun version =>
      Ok (mkResource None (Some ins') (Some (py_strip company))
            (Some (py_strip model)) (Some (py_strip version)) None None addr))))
  | (Ok _, _) => Raise AttributeError
  end.

Definition _open_visa_resource (addr : string) : M resource_manager resource :=
  do ins <- open_resource addr;
  lift (identify addr ins).

(* ===================================================================== *)
(** ** DriverManager *)
(* ===================================================================== *)

(** Driver objects live in [m_objects]; a reference to one is its index
    there.  [m_instr] is the dictionary [__instr], from logical names to
    references.  [m_calls] counts the invocations of [_open_resource]: it is
    bookkeeping of the model, not an attribute of the Python object. *)
Record manager : Type := mkManager {
  m_instr : gmap string nat;
  m_objects : list driver;
  m_rm : resource_manager;
  m_calls : list (string * string)
}.

Module DriverManager.

Definition new (rm : resource_manager) : manager := mkManager ∅ [] rm [].

Definition get (key : string) (m : manager) : option nat := m_instr m !! key.

Definition on_rm {A} (f : M resource_manager A) : M manager A := fun m =>
  let '(r, rm') := f (m_rm m) in
  (r, mkManager (m_instr m) (m_objects m) rm' (m_calls m)).

(** A new driver object; the result is the reference to it. *)
Definition allocate (d : driver) : M manager nat := fun m =>
  (Ok (List.length (m_objects m)),
   mkManager (m_instr m) (m_objects m ++ [d]) (m_rm m) (m_calls m)).

Definition note_call (addr driver_name : string) : M manager unit :=
  modify (fun m => mkManager (m_instr m) (m_objects m) (m_rm m)
                     (m_calls m ++ [(addr, driver_name)])).

Definition opt_str (o : option string) : pyval :=
  match o with Some s => PStr s | None => PNone end.

(** [_open_resource(addr, driver_name, **kw)]; of the extra options only
    [timeout] reaches [BaseDriver.__init__] by name (default 3). *)
Definition _open_resource (E : externals) (addr driver_name : string)
    (kw_timeout : option Z) : M manager nat :=
  do _ <- note_call addr driver_name;
  do info <- lift (_parse_resource_name addr);
  do info <-
    (match r_type info with
     | Some type =>
         if String.eqb type "Visa" then on_rm (_open_visa_resource addr)
         else ret info
     | None => throw KeyError
     end);
  do Driver <- lift (import_Driver E driver_name);
  let d := BaseDriver.new Driver (r_ins info) (PStr (r_addr info))
             (opt_str (r_model info)) (default 3 kw_timeout) in
  do ref <- allocate d;
  ret ref.

Definition set_instr (name : string) (ref : nat) : M manager unit :=
  modify (fun m => mkManager (<[name := ref]> (m_instr m)) (m_objects m)
                     (m_rm m) (m_calls m)).

(** The argument of [open]: a logical name, or the instrument record. *)
Inductive instrument_arg : Type :=
  | ByName (name : string)
  | ByRecord (i : instrument).

(** The first two lines of [open].  For a string the registry is asked
    through the global [db]; the module neither imports nor defines that
    name, so evaluating it raises [NameError] before any lookup is made. *)
Definition resolve (E : externals) (a : instrument_arg) : outcome instrument :=
  match a with
  | ByName name => Raise NameError
  | ByRecord i => Ok i
  end.

Definition open (E : externals) (a : instrument_arg) (kw_timeout : option Z)
  : M manager nat :=
  do i <- lift (resolve E a);
  do m <- get_state;
  do _ <-
    (match m_instr m !! i_name i with
     | None =>
         do ref <- _open_resource E (i_address i) (i_driver i) kw_timeout;
         set_instr (i_name i) ref
     | Some _ => ret tt
     end);
  do m <- get_state;
  match m_instr m !! i_name i with
  | Some ref => ret ref
  | None => throw KeyError
  end.

End DriverManager.

(* ===================================================================== *)
(** ** The binary block codec *)
(* ===================================================================== *)

(** Modelled from the spec: the block builder [IEEE_488_2_BinBlock] of
    [qulab.util] and the matching block reader are not part of the driver
    module ([write_binary_values] imports the builder, the reader sits in the
    transport).  The definitions below follow section 4.2 of the
    specification: the header is [#], the number [d] of decimal digits of the
    payload length, then the length [n] itself, followed by the payload; the
    reader takes [#], one digit [d], [d] digits [n], then exactly [n] bytes.
    A byte is an integer in 0..255.  A scalar is an integer: the value itself
    for the integer datatypes, the IEEE bit pattern for the floating-point
    ones. *)
Module Codec.

Inductive scalar_kind : Type := SignedInt | UnsignedInt | FloatBits.

(** A scalar datatype: its kind and its width in bytes. *)
Record datatype : Type := mkDatatype {
  dt_kind : scalar_kind;
  dt_width : positive
}.

Definition width (dt : datatype) : nat := Pos.to_nat (dt_width dt).

Definition modulus (dt : datatype) : Z := 256 ^ Z.of_nat (width dt).

(** The scalars a datatype holds. *)
Definition in_range (dt : datatype) (v : Z) : Prop :=
  match dt_kind dt with
  | SignedInt => - (modulus dt / 2) <= v < modulus dt / 2
  | UnsignedInt | FloatBits => 0 <= v < modulus dt
  end.

(** [w] bytes of [u], least significant first. *)
Fixpoint le_bytes (w : nat) (u : Z) : list Z :=
  match w with
  | O => []
  | S k => u mod 256 :: le_bytes k (u / 256)
  end.

Fixpoint le_value (bs : list Z) : Z :=
  match bs with
  | [] => 0
  | b :: rest => b + 256 * le_value rest
  end.

(** Modelled from the spec: packing one scalar into its bytes, in the byte
    order asked for. *)
Definition pack_scalar (dt : datatype) (is_big_endian : bool) (v : Z)
  : list Z :=
  let bs := le_bytes (width dt) (v mod modulus dt) in
  if is_big_endian then rev bs else bs.

(** Modelled from the spec: the scalar held by the bytes of one item. *)
Definition unpack_scalar (dt : datatype) (is_big_endian : bool)
    (bs : list Z) : Z :=
  let u := le_value (if is_big_endian then rev bs else bs) in
  match dt_kind dt with
  | SignedInt => if u <? modulus dt / 2 then u else u - modulus dt
  | UnsignedInt | FloatBits => u
  end.

(** Modelled from the spec: the array packed into raw bytes. *)
Definition pack (dt : datatype) (is_big_endian : bool) (A : list Z)
  : list Z :=
  flat_map (pack_scalar dt is_big_endian) A.

(** [count] scalars read off the front of [bs]. *)
Fixpoint unpack_items (dt : datatype) (is_big_endian : bool) (count : nat)
    (bs : list Z) : list Z :=
  match count with
  | O => []
  | S k =>
      unpack_scalar dt is_big_endian (firstn (width dt) bs)
      :: unpack_items dt is_big_endian k (skipn (width dt) bs)
  end.

(** Modelled from the spec: unpacking per declared datatype and byte order;
    the payload must hold a whole number of scalars. *)
Definition unpack (dt : datatype) (is_big_endian : bool) (bs : list Z)
  : option (list Z) :=
  if (List.length bs mod width dt =? 0)%nat
  then Some (unpack_items dt is_big_endian (List.length bs / width dt) bs)
  else None.

(** Decimal digits of [n], as character codes, most significant first. *)
Fixpoint digits_fuel (fuel : nat) (n : Z) : list Z :=
  match fuel with
  | O => []
  | S f =>
      if n <? 10 then [48 + n]
      else digits_fuel f (n / 10) ++ [48 + n mod 10]
  end.

Definition decimal (n : Z) : list Z :=
  digits_fuel (S (Z.to_nat (Z.log2 n))) n.

Definition number (ds : list Z) : Z :=
  fold_left (fun acc c => 10 * acc + (c - 48)) ds 0.

Definition is_digit_code (c : Z) : bool := (48 <=? c) && (c <=? 57).

Definition len (bs : list Z) : Z := Z.of_nat (List.length bs).

(** Modelled from the spec: the header [#<d><n>] for a payload of [n]
    bytes, [d] being the number of decimal digits of [n]. *)
Definition header (n : Z) : list Z :=
  35 :: decimal (len (decimal n)) ++ decimal n.

(** Modelled from the spec: the header followed by the payload. *)
Definition encode_block (payload : list Z) : list Z :=
  header (len payload) ++ payload.

(** Modelled from the spec: reading [#], one digit [d], then [d] digits as
    [n].  The result is the payload length and the bytes after the
    prefix. *)
Definition read_header (block : list Z) : option (Z * list Z) :=
  match block with
  | 35 :: d :: rest =>
      if is_digit_code d then
        let k := Z.to_nat (d - 48) in
        let ds := firstn k rest in
        if (List.length ds =? k)%nat && forallb is_digit_code ds
        then Some (number ds, skipn k rest)
        else None
      else None
  | _ => None
  end.

(** Modelled from the spec: the prefix is read, then exactly [n] bytes are
    consumed. *)
Definition decode_block (block : list Z) : option (list Z) :=
  match read_header block with
  | Some (n, rest) =>
      if n <=? len rest then Some (firstn (Z.to_nat n) rest) else None
  | None => None
  end.

(** Modelled from the spec: encoding of a numeric array. *)
Definition encode (dt : datatype) (is_big_endian : bool) (A : list Z)
  : list Z :=
  encode_block (pack dt is_big_endian A).

(** Modelled from the spec: decoding of a block into a numeric array. *)
Definition decode (dt : datatype) (is_big_endian : bool) (block : list Z)
  : option (list Z) :=
  match decode_block block with
  | Some payload => unpack dt is_big_endian payload
  | None => None
  end.

(** Modelled from the spec: the builder as the driver calls it, returning
    the block and its header. *)
Definition IEEE_488_2_BinBlock (A : list Z) (dt : datatype)
    (is_big_endian : bool) : list Z * list Z :=
  (encode dt is_big_endian A, header (len (pack dt is_big_endian A))).

End Codec.


(* ===================================================================== *)
(** ** BaseDriver: timeout and bulk configuration *)
(* ===================================================================== *)

(** [set_timeout]: the driver keeps the seconds, the handle gets the
    milliseconds. *)
Definition set_timeout (t : Z) : M driver self_or_none := fun d =>
  (Ok ReturnedSelf,
   mkDriver (addr d) (t_set_timeout (t * 1000) <$> ins d) t (model d)
     (quantities d) (error_command d)).

(** A value of the configuration mapping: [isinstance(cfg[key], dict)]
    tells a mapping of keyword arguments from a plain value. *)
Inductive cfg_value : Type :=
  | CfgValue (value : pyval)
  | CfgDict (kw : kwargs).

(** [self.setValue(key, **cfg[key])]: the mapping must bring [value] and
    may bring neither [self] nor [name], which are bound already. *)
Definition setValue_kw (E : externals) (key : string) (kw : kwargs)
  : M driver self_or_none :=
  match kw_get "self" kw, kw_get "name" kw, kw_get "value" kw with
  | Some _, _, _ => throw TypeError
  | None, Some _, _ => throw TypeError
  | None, None, None => throw TypeError
  | None, None, Some value =>
      BaseDriver.setValue E key value (kw_del "value" kw)
  end.

(** The loop of [init] over the items of [cfg], in the order of the
    mapping. *)
Fixpoint init_loop (E : externals) (cfg : list (string * cfg_value))
  : M driver unit :=
  match cfg with
  | [] => ret tt
  | (key, item) :: rest =>
      bind
        (match item with
         | CfgDict kw => setValue_kw E key kw
         | CfgValue value => BaseDriver.setValue E key value []
         end)
        (fun _ => init_loop E rest)
  end.

Definition init (E : externals) (cfg : list (string * cfg_value))
  : M driver self_or_none :=
  do _ <- init_loop E cfg;
  ret ReturnedSelf.

(* ===================================================================== *)
(** ** The protocol of an address *)
(* ===================================================================== *)

Definition is_alpha (c : ascii) : bool :=
  ((65 <=? code c) && (code c <=? 90)) || ((97 <=? code c) && (code c <=? 122)).

(** The dot of a pattern: any character but the newline. *)
Definition not_newline (c : ascii) : bool := negb (code c =? 10).

(** [^([a-zA-Z]+)[0-9]*::.+$]; the starred class is written as the
    alternative of one or more digits, tried first, and nothing. *)
Definition p_addr : regex :=
  seq [ Bol;
        Group 1 (Plus is_alpha);
        Alt (Plus is_digit) Eps;
        Lit "::";
        Plus not_newline;
        Eol ].

Definition upper_char (c : ascii) : ascii :=
  if (97 <=? code c) && (code c <=? 122)
  then ascii_of_N (N_of_ascii c - 32)
  else c.

(** [s.upper()] on a text of ASCII letters, which is what the first group
    of [p_addr] holds; other characters are left as they are. *)
Fixpoint upper (s : string) : string :=
  match s with
  | EmptyString => EmptyString
  | String c rest => String (upper_char c) (upper rest)
  end.

(** [parse_resource_name]: without a match, [m] is [None] and [m.group]
    fails. *)
Definition parse_resource_name (addr : string) : outcome (string * string) :=
  match search p_addr addr with
  | None => Raise AttributeError
  | Some m => bind_out (group_str 1 m) (fun protocol => Ok (upper protocol, addr))
  end.

(* ===================================================================== *)
(** ** DriverManager: teardown *)
(* ===================================================================== *)

(** [ins.close()] on the driver object that [ref] designates. *)
Definition close_object (objects : list driver) (ref : nat) : list driver :=
  match objects !! ref with
  | Some d => <[ref := snd (close d)]> objects
  | None => objects
  end.

(** [__del__]: every driver in the values of [__instr] is closed.  The
    dictionary is not ordered here; closing one driver does not touch
    another, so the order of the loop does not show in the result. *)
Definition manager_del (m : manager) : manager :=
  mkManager (m_instr m)
    (fold_left close_object (snd <$> map_to_list (m_instr m)) (m_objects m))
    (m_rm m) (m_calls m).
(* ===================================================================== *)
(** ** Notions used to state the properties *)
(* ===================================================================== *)

(** A label is registered when some pair of the option list carries it. *)
Definition registered (options : list (pyval * pyval)) (value : pyval) : bool :=
  existsb (fun p => py_eqb (fst p) value) options.

(** What [getValue] makes of the cached value [v] when it does not ask the
    device: the integer and boolean classes coerce it, the others hand it
    out as it is. *)
Definition from_cache (cls : qclass) (v : pyval) : outcome pyval :=
  match cls with
  | QInteger => bind_out (py_int v) (fun z => Ok (PInt z))
  | QBool => bind_out (py_int v) (fun z => Ok (PBool (bool_of_int z)))
  | _ => Ok v
  end.

(** The classes whose [getValue] coerces. *)
Definition coercing (cls : qclass) : bool :=
  match cls with
  | QInteger | QBool => true
  | _ => false
  end.

(** A reply of the error queue that reads as the entry [e]. *)
Definition reads_as (r : reply) (e : Z * string) : Prop :=
  exists s, r = Reply (PStr s) /\ parse_error_reply (PStr s) = Ok e.

(** The driver [d] with handle [t], once [close] has gone to the handle. *)
Definition after_close (t : transport) (d : driver) : driver :=
  set_ins (Some (t_record CClose t)) d.

(** What [query_ascii_values] and [query_binary_values] hand out of the
    answer [r] of the handle: the answer itself, once its length has been
    taken for the log line; an exception of the handle is passed on, and an
    answer that has no length raises there. *)
Definition counted (r : outcome pyval) : outcome pyval :=
  bind_out r (fun res => bind_out (py_len res) (fun _ => Ok res)).

(** The handle that was closed with log [t_log t] is still the handle of
    the driver [d'], and the first thing it received after [close] is the
    call [c]. *)
Definition used_after_close (t : transport) (c : call) (d' : driver) : Prop :=
  exists t' more,
    ins d' = Some t' /\ t_log t' = t_log t ++ CClose :: c :: more.

(** A driver whose handle has the log [log ++ more] for some [more]. *)
Definition log_extends (log : list call) (d : driver) : Prop :=
  exists t' more, ins d = Some t' /\ t_log t' = log ++ more.

(** Unsigned bytes, and an array of a thousand million of them. *)
Definition uint8 : Codec.datatype := Codec.mkDatatype Codec.UnsignedInt 1.

Definition gigabyte_array : list Z := repeat 0 (Z.to_nat 1000000000).

(* ===================================================================== *)
(** ** Sample objects *)
(* ===================================================================== *)

(** Stand-ins for the outside parts: templates are sent as they are, and
    every driver name resolves to a driver class without quantities. *)
Definition sample_externals : externals :=
  mkExternals
    (fun template _ => Ok template)
    (fun _ _ _ => Ok ([35; 49; 48], "#10"))
    (fun _ => Ok (mkDriverClass [] "SYST:ERR?")).

(** The record of a scope on the GPIB bus, as the registry would hold it. *)
Definition sample_instrument (name : string) : instrument :=
  mkInstrument name "GPIB0::12::INSTR" "drivers.scope".

(** The text of an error-queue reply: the code, a comma, and the message in
    double quotes. *)
Definition error_text (code msg : string) : string :=
  code +:+ comma_quote +:+ msg +:+ String quote_char EmptyString.

Definition sample_error_replies : list reply :=
  [ Reply (PStr (error_text "-113" "Undefined header"));
    Reply (PStr (error_text "-222" "Data out of range"));
    Reply (PStr (error_text "310" "System error"));
    Reply (PStr (error_text "0" "No error")) ].

Definition sample_handle (script : list reply) : transport :=
  mkTransport 2000 [] script.

(** An output switch with two registered labels. *)
Definition sample_options : list (pyval * pyval) :=
  [(PStr "ON", PInt 1); (PStr "OFF", PInt 0)].

Definition sample_option (value : pyval) (get_cmd : string) : quantity :=
  mkQuantity QOption "Output" value (PStr "Option") PNone PNone
    "OUTP %(option)s" get_cmd sample_options
    (flat_map (fun p => [(fst p, snd p); (snd p, fst p)]) sample_options).

(** A driver owning [sample_option], with or without a handle. *)
Definition sample_driver (value : pyval) (get_cmd : string)
    (handle : option transport) : driver :=
  BaseDriver.new
    (mkDriverClass [sample_option value get_cmd] "SYST:ERR?")
    handle (PStr "GPIB0::12::INSTR") (PStr "Scope 9000") 3.

Definition sample_rm (answer : string) : resource_manager :=
  mkRM {[ "GPIB0::12::INSTR" := [Reply (PStr answer)] ]} [].

(** The float 2.5. *)
Definition two_and_a_half : spec_float := S754_finite false 5 (-1).

(** Signed 16-bit integers. *)
Definition int16 : Codec.datatype := Codec.mkDatatype Codec.SignedInt 2.

(* ===================================================================== *)
(** ** The text of error-queue entries *)
(* ===================================================================== *)

(** The character of the decimal digit [d]. *)
Definition digit_char (d : Z) : ascii := ascii_of_N (Z.to_N (48 + d)).

Fixpoint digits_text (fuel : nat) (n : Z) : string :=
  match fuel with
  | O => EmptyString
  | S f =>
      if n <? 10 then String (digit_char n) EmptyString
      else digits_text f (n / 10) +:+ String (digit_char (n mod 10)) EmptyString
  end.

(** The decimal text of an integer, with a minus sign when negative: the
    way a device writes an error code. *)
Definition int_text (z : Z) : string :=
  if z <? 0
  then String "-" (digits_text (S (Z.to_nat (Z.log2 (- z)))) (- z))
  else digits_text (S (Z.to_nat (Z.log2 z))) z.

(** [sep] occurs nowhere in [s]. *)
Fixpoint free_of (sep s : string) : bool :=
  match s with
  | EmptyString => true
  | String _ rest => negb (String.prefix sep s) && free_of sep rest
  end.

(** The reply a device sends for the entry [(code, msg)]. *)
Definition entry_reply (e : Z * string) : reply :=
  Reply (PStr (error_text (int_text (fst e)) (snd e))).

(** The value of a string of digits read after [acc]. *)
Fixpoint digits_value (s : string) (acc : Z) : Z :=
  match s with
  | EmptyString => acc
  | String c rest => digits_value rest (10 * acc + digit_val c)
  end.

(** No character of [s] satisfies [p]. *)
Fixpoint none_is (p : ascii -> bool) (s : string) : bool :=
  match s with
  | EmptyString => true
  | String c rest => negb (p c) && none_is p rest
  end.

(* ===================================================================== *)
(** ** What a pattern matches *)
(* ===================================================================== *)

Definition is_empty (s : string) : bool :=
  match s with EmptyString => true | String _ _ => false end.

(** [matches r st w rest]: the pattern [r] can consume the text [w] when
    [rest] is what follows it in the subject; [st] tells whether [w] begins
    at the start of the subject. *)
Fixpoint matches (r : regex) (st : bool) (w rest : string) : Prop :=
  match r with
  | Eps => w = EmptyString
  | Lit l => w = l
  | Plus p => w <> EmptyString /\ none_is (fun c => negb (p c)) w = true
  | Alt r1 r2 => matches r1 st w rest \/ matches r2 st w rest
  | Seq r1 r2 =>
      exists w1 w2,
        w = w1 +:+ w2
        /\ matches r1 st w1 (w2 +:+ rest)
        /\ matches r2 (st && is_empty w1) w2 rest
  | Group _ r' => matches r' st w rest
  | Bol => w = EmptyString /\ st = true
  | Eol =>
      w = EmptyString
      /\ (rest = EmptyString \/ rest = String "010" EmptyString)
  end.

(** The addresses of the digitizer-board scheme: a model name, [::SYSTEM]
    and a system index, [::] and a board index, optionally [::INSTR], and
    at most a final newline. *)
Definition ats_shape (addr : string) : Prop :=
  exists model system board suffix newline,
    (model = "ATS9360" \/ model = "ATS9850" \/ model = "ATS9870")
    /\ system <> EmptyString /\ all_digits system = true
    /\ board <> EmptyString /\ all_digits board = true
    /\ (suffix = EmptyString \/ suffix = "::INSTR")
    /\ (newline = EmptyString \/ newline = String "010" EmptyString)
    /\ addr = model +:+ "::SYSTEM" +:+ system +:+ "::" +:+ board +:+ suffix
              +:+ newline.

(** Fields joined by commas, as an instrument writes its identification. *)
Fixpoint join_comma (fields : list string) : string :=
  match fields with
  | [] => EmptyString
  | [f] => f
  | f :: rest => f +:+ "," +:+ join_comma rest
  end.

Definition comma_free (f : string) : bool := none_is (fun c => Ascii.eqb c ",") f.



(* ===================================================================== *)
(** ** Notions used to state the further properties *)
(* ===================================================================== *)

(** The classes whose [getValue] is, or starts with, [QReal.getValue]. *)
Definition numeric_class (cls : qclass) : bool :=
  match cls with
  | QReal | QInteger | QBool => true
  | _ => false
  end.

(** The classes whose [getValue] is [QString.getValue]. *)
Definition string_class (cls : qclass) : bool :=
  match cls with
  | QString | QOption => true
  | _ => false
  end.

(** The driver [d] after its handle [t] has answered the call [c] and is
    left with the replies [rest]. *)
Definition answered (c : call) (t : transport) (rest : list reply)
    (d : driver) : driver :=
  set_ins (Some (mkTransport (t_timeout t) (t_log t ++ [c]) rest)) d.

(** The value a well-formed item of a configuration brings: a plain value,
    or the [value] of a mapping that rebinds neither [self] nor [name]. *)
Definition item_value (item : cfg_value) : option pyval :=
  match item with
  | CfgValue v => Some v
  | CfgDict kw =>
      match kw_get "self" kw, kw_get "name" kw with
      | None, None => kw_get "value" kw
      | _, _ => None
      end
  end.

(** The keywords an item of a configuration passes on besides the value. *)
Definition item_keywords (item : cfg_value) : kwargs :=
  match item with
  | CfgValue _ => []
  | CfgDict kw => kw_del "value" kw
  end.

(** What a configuration does to the caches of quantities without set
    template. *)
Definition cache_item (qs : gmap string quantity) (entry : string * cfg_value)
  : gmap string quantity :=
  match item_value (snd entry) with
  | Some v => alter (set_q_value v) (fst entry) qs
  | None => qs
  end.

(** The driver [d], whose handle is [t], after [close] has been called on
    it [k] times. *)
Definition closed_times (k : nat) (t : transport) (d : driver) : driver :=
  set_ins (Some (mkTransport (t_timeout t) (t_log t ++ repeat CClose k)
                   (t_script t))) d.

(** The addresses on which [p_addr] matches: letters, digits if any, [::],
    a text without newline that is not empty, and at most a final newline. *)
Definition p_shape (addr letters : string) : Prop :=
  exists digits body newline,
    letters <> EmptyString
    /\ none_is (fun c => negb (is_alpha c)) letters = true
    /\ all_digits digits = true
    /\ body <> EmptyString
    /\ none_is (fun c => negb (not_newline c)) body = true
    /\ (newline = EmptyString \/ newline = String "010" EmptyString)
    /\ addr = letters +:+ digits +:+ "::" +:+ body +:+ newline.

(** The text after a run of characters of a class: empty, or starting with
    a character outside the class. *)
Definition stops (p : ascii -> bool) (rest : string) : Prop :=
  match rest with
  | EmptyString => True
  | String c _ => p c = false
  end.

Definition is_capital (c : ascii) : bool := (65 <=? code c) && (code c <=? 90).

(* ===================================================================== *)
(** ** Further sample objects *)
(* ===================================================================== *)

(** A voltage level with both templates. *)
Definition sample_real : quantity :=
  QReal.new "Level" PNone (PStr "V") PNone "VOLT?" "VOLT %(value)f".

(** A counter, read from the device or kept in the cache only. *)
Definition sample_counter (get_cmd : string) : quantity :=
  QInteger.new "Count" PNone PNone PNone get_cmd EmptyString.

Definition sample_trace : quantity :=
  QVector.new "Trace" PNone PNone PNone "TRAC?" EmptyString.

(** A driver without handle whose only quantity has no template. *)
Definition sample_cache_driver : driver :=
  BaseDriver.new (mkDriverClass [sample_counter EmptyString] "SYST:ERR?")
    None (PStr "GPIB0::12::INSTR") (PStr "Counter 1") 3.

(** The identification an instrument answers with. *)
Definition sample_answer : string := "ACME,Scope 9000,123,1.0".

(** A manager that has cached one driver under the name [scope]. *)
Definition sample_manager (d : driver) : manager :=
  mkManager {[ "scope" := 0%nat ]} [d] (sample_rm sample_answer) [].

(* ===================================================================== *)
(** * Properties *)
(* ===================================================================== *)

Ltac unfold_monad :=
  unfold bind, ret, throw, get_state, put_state, modify, lift, when_ in *.

(** ** Auxiliary facts about the builtins *)

Lemma dict_get_unregistered options value :
  registered options value = false -> dict_get options value = None.
Proof.
  induction options as [| [k v] rest IH]; cbn; [reflexivity |].
  intros H. apply orb_false_iff in H as [Hk Hrest].
  rewrite (IH Hrest), Hk. reflexivity.
Qed.

Lemma dict_get_registered options value :
  registered options value = true -> exists code, dict_get options value = Some code.
Proof.
  induction options as [| [k v] rest IH]; cbn; [discriminate |].
  intros H. destruct (dict_get rest value) as [c |] eqn:Hrest; [eauto |].
  destruct (py_eqb k value) eqn:Hk; [eauto |].
  cbn in H. destruct (IH H) as [c Hc]. discriminate.
Qed.

Lemma index_of_unregistered options value i :
  registered options value = false -> QOption.index_of value options i = PNone.
Proof.
  revert i. induction options as [| [k v] rest IH]; cbn; intros i H; [reflexivity |].
  apply orb_false_iff in H as [Hk Hrest]. rewrite Hk. apply IH, Hrest.
Qed.

Lemma set_quantities_same d :
  set_quantities (quantities d) d = d.
Proof. destruct d; reflexivity. Qed.

Lemma set_ins_same d : set_ins (ins d) d = d.
Proof. destruct d; reflexivity. Qed.

(* ===================================================================== *)
(** ** Unknown quantity names *)
(* ===================================================================== *)

(** C9.  For a name that is not a key of the driver's quantity mapping,
    [getValue], [getIndex] and [getCmdOption] return [None] and [setValue]
    returns the driver itself; none of them raises and the driver, its
    quantities and its transport handle included, is left as it was. *)
Theorem unknown_name_is_absent (E : externals) (d : driver) (name : string)
    (value : pyval) (kw : kwargs) :
  quantities d !! name = None ->
  BaseDriver.getValue E name kw d = (Ok PNone, d)
  /\ BaseDriver.setValue E name value kw d = (Ok ReturnedSelf, d)
  /\ BaseDriver.getIndex E name kw d = (Ok PNone, d)
  /\ BaseDriver.getCmdOption E name kw d = (Ok PNone, d).
Proof.
  intros Hname.
  unfold BaseDriver.getValue, BaseDriver.setValue, BaseDriver.getIndex,
    BaseDriver.getCmdOption.
  rewrite Hname. repeat split.
Qed.

(* ===================================================================== *)
(** ** Option quantities *)
(* ===================================================================== *)

Lemma can_io_attached cmd q d :
  cmd <> EmptyString -> can_io cmd (q, Some d) = true.
Proof.
  intros H. unfold can_io; cbn. apply negb_true_iff, String.eqb_neq, H.
Qed.

Lemma can_io_no_template q od : can_io EmptyString (q, od) = false.
Proof. unfold can_io; cbn. destruct od; reflexivity. Qed.

Lemma can_io_detached cmd q : can_io cmd (q, None) = false.
Proof. reflexivity. Qed.

Lemma q_set_cmd_set_value v q : q_set_cmd (set_q_value v q) = q_set_cmd q.
Proof. reflexivity. Qed.

Lemma q_options_set_value v q : q_options (set_q_value v q) = q_options q.
Proof. reflexivity. Qed.

(** What [QOption.setValue] does with a label that is not registered, on a
    quantity attached to a driver and having a set template. *)
Lemma QOption_setValue_unregistered (E : externals) (q : quantity)
    (d : driver) (value ch : pyval) (kw : kwargs) :
  q_set_cmd q <> EmptyString ->
  registered (q_options q) value = false ->
  QOption.setValue E value ch kw (q, Some d)
  = (if forallb (fun p => hashable (fst p)) (q_options q) && hashable value
     then Ok tt else Raise TypeError,
     (set_q_value value q, Some d)).
Proof.
  intros Hcmd Hreg.
  unfold QOption.setValue, assign_value. unfold_monad. cbn [fst snd].
  rewrite q_set_cmd_set_value, can_io_attached by assumption.
  unfold py_dict. rewrite q_options_set_value.
  destruct (forallb _ (q_options q)); cbn [andb]; [| reflexivity].
  destruct (hashable value); cbn [negb]; [| reflexivity].
  rewrite (dict_get_unregistered _ _ Hreg). reflexivity.
Qed.

(** C5.  An option quantity attached to a driver with a transport handle and
    having a set template: [setValue] with a label that no pair of the
    option list carries sends nothing (the driver and its handle, log
    included, are as before) and still overwrites the cache: afterwards the
    value of the quantity is the unregistered label, its other attributes
    being as they were.  The call returns normally when the label and the
    registered labels are hashable.  The same holds for [BaseDriver.setValue]
    reaching the quantity by name, provided no keyword is called [quant]:
    such a keyword clashes with the parameter of [performSetValue], the call
    raises [TypeError] and neither the cache nor the handle is touched. *)
Theorem unregistered_label_not_sent (E : externals) (q : quantity)
    (d : driver) (t : transport) (name : string) (value ch : pyval)
    (kw : kwargs) :
  q_class q = QOption ->
  ins d = Some t ->
  q_set_cmd q <> EmptyString ->
  registered (q_options q) value = false ->
  let q' :=
    mkQuantity (q_class q) (q_name q) value (q_type q) (q_unit q) (q_ch q)
      (q_set_cmd q) (q_get_cmd q) (q_options q) (q_opts q) in
  q_value q' = value
  /\ (exists r,
        QOption.setValue E value ch kw (q, Some d) = (r, (q', Some d))
        /\ (hashable value = true ->
            forallb (fun p => hashable (fst p)) (q_options q) = true ->
            r = Ok tt))
  /\ (quantities d !! name = Some q ->
      kw_get "quant" kw = None ->
      exists r d',
        BaseDriver.setValue E name value kw d = (r, d')
        /\ ins d' = Some t
        /\ quantities d' !! name = Some q'
        /\ (forall other, other <> name ->
              quantities d' !! other = quantities d !! other))
  /\ (quantities d !! name = Some q ->
      forall v, kw_get "quant" kw = Some v ->
        BaseDriver.setValue E name value kw d = (Raise TypeError, d)).
Proof.
  intros Hcls Hins Hcmd Hreg q'.
  change q' with (set_q_value value q). clear q'.
  split; [reflexivity |]. split; [| split].
  - eexists. split.
    + apply QOption_setValue_unregistered; assumption.
    + intros Hv Hl. rewrite Hv, Hl. reflexivity.
  - intros Hq Hkw. unfold BaseDriver.setValue, BaseDriver.performSetValue,
      BaseDriver.on_quantity, quant_setValue.
    rewrite Hq, Hkw. cbn [fst snd]. rewrite Hcls.
    rewrite QOption_setValue_unregistered by assumption.
    cbn [default].
    destruct (forallb _ _ && hashable value); eexists _, _;
      (split; [reflexivity |]); cbn; rewrite Hins, lookup_insert_eq;
      (split; [reflexivity |]); (split; [reflexivity |]);
      intros other Hne; apply lookup_insert_ne; congruence.
  - intros Hq v Hkw. unfold BaseDriver.setValue, BaseDriver.performSetValue.
    rewrite Hq, Hkw. reflexivity.
Qed.

(** The constructor only lets hashable labels and codes through. *)
Lemma QOption_new_hashable name value options ch get_cmd set_cmd q :
  QOption.new name value options ch get_cmd set_cmd = Ok q ->
  q_class q = QOption
  /\ q_options q = options
  /\ forallb (fun p => hashable (fst p)) (q_options q) = true.
Proof.
  unfold QOption.new. destruct (forallb _ options) eqn:Hall; [| discriminate].
  intros [= <-]. cbn. repeat split.
  rewrite forallb_forall in Hall |- *. intros p Hp.
  specialize (Hall p Hp). apply andb_true_iff in Hall. tauto.
Qed.

Lemma QString_getValue_cached (E : externals) (ch : pyval) (kw : kwargs)
    (q : quantity) (od : option driver) :
  q_get_cmd q = EmptyString \/ od = None ->
  QString.getValue E ch kw (q, od) = (Ok (q_value q), (q, od)).
Proof.
  intros H. unfold QString.getValue. unfold_monad. cbn [fst snd].
  assert (Hio : can_io (q_get_cmd q) (q, od) = false).
  { destruct H as [-> | ->]; [apply can_io_no_template | reflexivity]. }
  rewrite Hio. reflexivity.
Qed.

Lemma on_quantity_unchanged {A} (name : string) (q : quantity) (d : driver)
    (m : M qctx A) (r : outcome A) :
  quantities d !! name = Some q ->
  m (q, Some d) = (r, (q, Some d)) ->
  BaseDriver.on_quantity name q m d = (r, d).
Proof.
  intros Hq Hm. unfold BaseDriver.on_quantity. rewrite Hm. cbn [default].
  rewrite (insert_id _ _ _ Hq), set_quantities_same. reflexivity.
Qed.

(** C10.  An option quantity without get template whose cached value is not
    [None] and is carried by no pair of the option list: [getCmdOption]
    raises while [getIndex], in the same state, returns [None]; the same
    holds for the driver's accessors of these names reaching the quantity by
    name.  The exception of [getCmdOption] is [KeyError] when the cached
    value is hashable; a cached value that is not (a list) cannot be looked
    up in the dictionary at all and the exception is [TypeError].  Neither
    call changes the quantity or its driver. *)
Theorem unregistered_value_asymmetry (E : externals) (q : quantity)
    (od : option driver) (ch : pyval) (kw : kwargs) :
  q_class q = QOption ->
  q_get_cmd q = EmptyString ->
  q_value q <> PNone ->
  forallb (fun p => hashable (fst p)) (q_options q) = true ->
  registered (q_options q) (q_value q) = false ->
  let failure := if hashable (q_value q) then KeyError else TypeError in
  (QOption.getCmdOption E ch kw (q, od) = (Raise failure, (q, od))
   /\ QOption.getIndex E ch kw (q, od) = (Ok PNone, (q, od)))
  /\ (forall (d : driver) (name : string),
        quantities d !! name = Some q ->
        BaseDriver.getCmdOption E name kw d = (Raise failure, d)
        /\ BaseDriver.getIndex E name kw d = (Ok PNone, d)).
Proof.
  intros Hcls Hget Hv Hl Hreg failure.
  assert (Hq : forall od' ch' kw',
             QOption.getCmdOption E ch' kw' (q, od') = (Raise failure, (q, od'))
             /\ QOption.getIndex E ch' kw' (q, od') = (Ok PNone, (q, od'))).
  { intros od' ch' kw'. clear od ch kw. subst failure. split.
    - unfold QOption.getCmdOption. unfold_monad. cbn [fst snd].
      rewrite QString_getValue_cached by (left; exact Hget).
      destruct (q_value q) eqn:Hval; try congruence;
        cbn [fst snd]; unfold py_dict; rewrite Hl; cbn [fst snd hashable negb];
        try reflexivity;
        unfold QOption.lookup_code;
        rewrite (dict_get_unregistered _ _ Hreg); reflexivity.
    - unfold QOption.getIndex. unfold_monad. cbn [fst snd].
      rewrite QString_getValue_cached by (left; exact Hget).
      destruct (q_value q) eqn:Hval; try congruence;
        cbn [fst snd]; rewrite (index_of_unregistered _ _ _ Hreg); reflexivity. }
  split; [apply Hq |].
  intros d name Hname. unfold BaseDriver.getCmdOption, BaseDriver.getIndex.
  rewrite Hname, Hcls. split.
  - apply on_quantity_unchanged; [exact Hname | apply Hq].
  - apply on_quantity_unchanged; [exact Hname | apply Hq].
Qed.

(* ===================================================================== *)
(** ** Reading the cache *)
(* ===================================================================== *)

Section Cache.

Variable E : externals.

Lemma QReal_getValue_cached ch kw q od :
  q_get_cmd q = EmptyString \/ od = None ->
  QReal.getValue E ch kw (q, od) = (Ok (q_value q), (q, od)).
Proof.
  intros H. unfold QReal.getValue. unfold_monad. cbn [fst snd].
  assert (Hio : can_io (q_get_cmd q) (q, od) = false).
  { destruct H as [-> | ->]; [apply can_io_no_template | reflexivity]. }
  rewrite Hio. reflexivity.
Qed.

Lemma QVector_getValue_cached ch kw q od :
  q_get_cmd q = EmptyString \/ od = None ->
  QVector.getValue E ch kw (q, od) = (Ok (q_value q), (q, od)).
Proof.
  intros H. unfold QVector.getValue. unfold_monad. cbn [fst snd].
  assert (Hio : can_io (q_get_cmd q) (q, od) = false).
  { destruct H as [-> | ->]; [apply can_io_no_template | reflexivity]. }
  rewrite Hio. reflexivity.
Qed.

Lemma QInteger_getValue_cached ch kw q od :
  q_get_cmd q = EmptyString \/ od = None ->
  QInteger.getValue E ch kw (q, od)
  = (bind_out (py_int (q_value q)) (fun z => Ok (PInt z)), (q, od)).
Proof.
  intros H. unfold QInteger.getValue. unfold_monad. cbn [fst snd].
  rewrite QReal_getValue_cached by exact H.
  unfold self_value. cbn [fst snd].
  destruct (py_int (q_value q)); reflexivity.
Qed.

Lemma QBool_getValue_cached ch kw q od :
  q_get_cmd q = EmptyString \/ od = None ->
  QBool.getValue E ch kw (q, od)
  = (bind_out (py_int (q_value q)) (fun z => Ok (PBool (bool_of_int z))), (q, od)).
Proof.
  intros H. unfold QBool.getValue. unfold_monad. cbn [fst snd].
  rewrite QInteger_getValue_cached by exact H.
  destruct (py_int (q_value q)); reflexivity.
Qed.

Lemma quant_getValue_cached ch kw q od :
  q_get_cmd q = EmptyString \/ od = None ->
  quant_getValue E ch kw (q, od)
  = (from_cache (q_class q) (q_value q), (q, od)).
Proof.
  intros H. unfold quant_getValue, from_cache. cbn [fst snd].
  destruct (q_class q).
  - reflexivity.
  - apply QReal_getValue_cached, H.
  - apply QInteger_getValue_cached, H.
  - apply QString_getValue_cached, H.
  - apply QString_getValue_cached, H.
  - apply QBool_getValue_cached, H.
  - apply QVector_getValue_cached, H.
  - reflexivity.
Qed.

Lemma quant_setValue_cache_only value kw q od :
  od = None \/ q_set_cmd q = EmptyString ->
  quant_setValue E value kw (q, od) = (Ok tt, (set_q_value value q, od)).
Proof.
  intros H. unfold quant_setValue. cbn [fst snd].
  assert (Hio : can_io (q_set_cmd q) (set_q_value value q, od) = false).
  { destruct H as [-> | ->]; [reflexivity | apply can_io_no_template]. }
  destruct (q_class q);
    unfold Quantity.setValue, QOption.setValue, assign_value; unfold_monad;
    cbn [fst snd]; rewrite q_set_cmd_set_value, Hio; reflexivity.
Qed.

End Cache.

Lemma from_cache_plain cls v : coercing cls = false -> from_cache cls v = Ok v.
Proof. destruct cls; cbn; intros H; try discriminate; reflexivity. Qed.

(** C2, as the code has it.  When the get template is empty or the quantity
    is attached to no driver, [getValue] asks nothing and leaves quantity and
    driver as they are.  It returns the cached value itself for the classes
    Quantity, Real, String, Option, Vector and List; an Integer quantity
    returns [int] of the cached value and a Bool quantity [bool(int(...))] of
    it, raising where [int] raises.  Accordingly, on a quantity without
    driver, or without templates, [setValue(x)] then [getValue()] gives [x]
    for the first six classes, and the coerced [x] for the other two. *)
Theorem getValue_reads_cache (E : externals) (q : quantity)
    (od : option driver) (ch : pyval) (kw : kwargs) :
  q_get_cmd q = EmptyString \/ od = None ->
  quant_getValue E ch kw (q, od) = (from_cache (q_class q) (q_value q), (q, od))
  /\ (coercing (q_class q) = false ->
      quant_getValue E ch kw (q, od) = (Ok (q_value q), (q, od)))
  /\ (forall (x : pyval) (kw_set : kwargs),
        od = None \/ q_set_cmd q = EmptyString ->
        exists c,
          quant_setValue E x kw_set (q, od) = (Ok tt, c)
          /\ fst (quant_getValue E ch kw c) = from_cache (q_class q) x
          /\ (coercing (q_class q) = false ->
              fst (quant_getValue E ch kw c) = Ok x)).
Proof.
  intros H. split; [| split].
  - apply quant_getValue_cached, H.
  - intros Hc. rewrite quant_getValue_cached by exact H.
    rewrite from_cache_plain by exact Hc. reflexivity.
  - intros x kw_set Hset. exists (set_q_value x q, od).
    split; [apply quant_setValue_cache_only, Hset |].
    rewrite quant_getValue_cached by exact H. cbn [fst].
    split; [reflexivity |]. intros Hc. apply from_cache_plain, Hc.
Qed.

(* ===================================================================== *)
(** ** Reading one entry of the error queue *)
(* ===================================================================== *)

Lemma digit_cases d :
  0 <= d < 10 ->
  d = 0 \/ d = 1 \/ d = 2 \/ d = 3 \/ d = 4 \/ d = 5 \/ d = 6 \/ d = 7
  \/ d = 8 \/ d = 9.
Proof. lia. Qed.

Ltac each_digit H :=
  destruct (digit_cases _ H) as [-> | [-> | [-> | [-> | [-> | [-> | [-> | [-> | [-> | ->]]]]]]]]].

Lemma digit_char_facts d :
  0 <= d < 10 ->
  is_digit (digit_char d) = true
  /\ digit_val (digit_char d) = d
  /\ is_space (digit_char d) = false
  /\ Ascii.eqb (digit_char d) "," = false.
Proof. intros H. each_digit H; vm_compute; auto. Qed.

Lemma digits_value_app s1 s2 acc :
  digits_value (s1 +:+ s2) acc = digits_value s2 (digits_value s1 acc).
Proof.
  revert acc. induction s1 as [| c s1 IH]; intros acc; [reflexivity |].
  simpl. apply IH.
Qed.

Lemma all_digits_app s1 s2 :
  all_digits (s1 +:+ s2) = all_digits s1 && all_digits s2.
Proof.
  induction s1 as [| c s1 IH]; [reflexivity |].
  simpl. rewrite IH, andb_assoc. reflexivity.
Qed.

Lemma int_digits_all_digits s : forall acc prev,
  all_digits s = true ->
  (s <> EmptyString \/ prev = true) ->
  int_digits s acc prev = Some (digits_value s acc).
Proof.
  induction s as [| c s IH]; intros acc prev Hall Hne.
  - cbn. destruct Hne as [Hne | ->]; [contradiction | reflexivity].
  - cbn in Hall |- *. apply andb_true_iff in Hall as [Hc Hs].
    rewrite Hc. apply IH; [exact Hs | right; reflexivity].
Qed.

Lemma digits_text_facts fuel : forall n,
  0 <= n < 10 ^ Z.of_nat (S fuel) ->
  all_digits (digits_text (S fuel) n) = true
  /\ digits_value (digits_text (S fuel) n) 0 = n
  /\ exists d rest, 0 <= d < 10 /\ digits_text (S fuel) n = String (digit_char d) rest.
Proof.
  induction fuel as [| f IH]; intros n Hn.
  - assert (Hd : 0 <= n < 10) by (cbn in Hn; lia).
    cbn [digits_text]. destruct (Z.ltb_spec n 10); [| lia].
    destruct (digit_char_facts n Hd) as (H1 & H2 & _).
    cbn. rewrite H1, H2. repeat split; eauto.
  - remember (S f) as f1 eqn:Hf1. cbn [digits_text].
    destruct (Z.ltb_spec n 10) as [Hlt | Hge].
    + assert (Hd : 0 <= n < 10) by lia.
      destruct (digit_char_facts n Hd) as (H1 & H2 & _).
      cbn. rewrite H1, H2. repeat split; eauto.
    + assert (Hq : 0 <= n / 10 < 10 ^ Z.of_nat f1).
      { rewrite Nat2Z.inj_succ, Z.pow_succ_r in Hn by lia.
        split; [apply Z.div_pos; lia | apply Z.div_lt_upper_bound; lia]. }
      assert (Hr : 0 <= n mod 10 < 10) by (apply Z.mod_pos_bound; lia).
      destruct (digit_char_facts _ Hr) as (H1 & H2 & _).
      subst f1. destruct (IH _ Hq) as (Ha & Hv & d & rest & Hd & Heq).
      rewrite all_digits_app, digits_value_app, Ha, Hv.
      split; [| split].
      * simpl. rewrite H1. reflexivity.
      * simpl digits_value. rewrite H2. pose proof (Z.div_mod n 10). lia.
      * exists d, (rest +:+ String (digit_char (n mod 10)) EmptyString).
        split; [exact Hd |]. rewrite Heq. reflexivity.
Qed.

Lemma log2_fuel n : 0 <= n -> n < 10 ^ Z.of_nat (S (Z.to_nat (Z.log2 n))).
Proof.
  intros Hn. rewrite Nat2Z.inj_succ, Z2Nat.id by apply Z.log2_nonneg.
  destruct (Z.eq_dec n 0) as [-> | Hne]; [cbn; lia |].
  pose proof (Z.log2_spec n ltac:(lia)) as [_ Hup].
  eapply Z.lt_le_trans; [exact Hup |].
  apply Z.pow_le_mono_l. lia.
Qed.

Lemma all_digits_none_is s (p : ascii -> bool) :
  (forall c, is_digit c = true -> p c = false) ->
  all_digits s = true -> none_is p s = true.
Proof.
  intros Hp. induction s as [| c s IH]; cbn; [reflexivity |].
  intros H. apply andb_true_iff in H as [Hc Hs].
  rewrite (Hp c Hc), IH by exact Hs. reflexivity.
Qed.

Lemma is_digit_not_space c : is_digit c = true -> is_space c = false.
Proof.
  unfold is_digit, is_space. intros H.
  apply andb_true_iff in H as [H1 H2]. apply Z.leb_le in H1, H2.
  repeat (apply orb_false_iff; split);
    first [apply andb_false_iff; right; apply Z.leb_gt; lia
          | apply andb_false_iff; left; apply Z.leb_gt; lia
          | apply Z.eqb_neq; lia].
Qed.

Lemma is_digit_not_int_space c : is_digit c = true -> is_int_space c = false.
Proof.
  unfold is_digit, is_int_space. intros H.
  apply andb_true_iff in H as [H1 H2]. apply Z.leb_le in H1, H2.
  repeat (apply orb_false_iff; split);
    first [apply andb_false_iff; right; apply Z.leb_gt; lia
          | apply Z.eqb_neq; lia].
Qed.

Lemma is_digit_not_comma c : is_digit c = true -> Ascii.eqb c "," = false.
Proof.
  intros H. destruct (Ascii.eqb_spec c ","%char) as [-> |]; [| reflexivity].
  vm_compute in H. discriminate.
Qed.

Lemma rstrip_none p s : none_is p s = true -> rstrip_by p s = s.
Proof.
  induction s as [| c s IH]; cbn; [reflexivity |].
  intros H. apply andb_true_iff in H as [Hc Hs]. rewrite (IH Hs).
  destruct s; [apply negb_true_iff in Hc; rewrite Hc |]; reflexivity.
Qed.

Lemma strip_none p s : none_is p s = true -> strip_by p s = s.
Proof.
  intros H. unfold strip_by.
  assert (Hl : lstrip_by p s = s).
  { destruct s as [| c s]; [reflexivity |]. cbn in H |- *.
    apply andb_true_iff in H as [Hc _]. apply negb_true_iff in Hc.
    rewrite Hc. reflexivity. }
  rewrite Hl. apply rstrip_none, H.
Qed.

(** The text of an integer consists of an optional minus sign and digits,
    and [int] reads the integer back from it. *)
Lemma is_digit_not_sign c :
  is_digit c = true -> Ascii.eqb c "-" = false /\ Ascii.eqb c "+" = false.
Proof.
  intros H. split.
  - destruct (Ascii.eqb_spec c "-"%char) as [-> |]; [| reflexivity].
    vm_compute in H. discriminate.
  - destruct (Ascii.eqb_spec c "+"%char) as [-> |]; [| reflexivity].
    vm_compute in H. discriminate.
Qed.

Lemma int_text_facts z :
  int_of_string (int_text z) = Ok z
  /\ none_is (fun c => Ascii.eqb c ",") (int_text z) = true.
Proof.
  unfold int_text. destruct (Z.ltb_spec z 0) as [Hneg | Hpos].
  - assert (Hn : 0 <= - z < 10 ^ Z.of_nat (S (Z.to_nat (Z.log2 (- z)))))
      by (split; [lia | apply log2_fuel; lia]).
    destruct (digits_text_facts _ _ Hn) as (Ha & Hv & d & rest & Hd & Heq).
    split.
    + unfold int_of_string. rewrite strip_none.
      * cbv zeta. cbn [Ascii.eqb Bool.eqb]. unfold read_digits.
        rewrite int_digits_all_digits, Hv; [f_equal; lia | exact Ha |].
        left. rewrite Heq. discriminate.
      * cbn [none_is]. rewrite (all_digits_none_is _ _ is_digit_not_int_space Ha).
        reflexivity.
    + cbn [none_is]. rewrite (all_digits_none_is _ _ is_digit_not_comma Ha).
      reflexivity.
  - assert (Hn : 0 <= z < 10 ^ Z.of_nat (S (Z.to_nat (Z.log2 z))))
      by (split; [lia | apply log2_fuel; lia]).
    destruct (digits_text_facts _ _ Hn) as (Ha & Hv & d & rest & Hd & Heq).
    split.
    + unfold int_of_string.
      rewrite strip_none by (apply (all_digits_none_is _ _ is_digit_not_int_space Ha)).
      assert (Hread : read_digits (digits_text (S (Z.to_nat (Z.log2 z))) z) false
                      = Ok z).
      { unfold read_digits.
        rewrite int_digits_all_digits, Hv; [reflexivity | exact Ha |].
        left. rewrite Heq. discriminate. }
      cbv zeta. rewrite Heq in Hread |- *.
      destruct (digit_char_facts d Hd) as (Hdig & _).
      destruct (is_digit_not_sign _ Hdig) as [-> ->]. exact Hread.
    + apply (all_digits_none_is _ _ is_digit_not_comma Ha).
Qed.

(** *** Splitting at the separator *)

Lemma append_cons x (a b : string) : String x a +:+ b = String x (a +:+ b).
Proof. reflexivity. Qed.

Lemma append_assoc_string (a b c : string) : (a +:+ b) +:+ c = a +:+ (b +:+ c).
Proof.
  induction a as [| x a IH]; [reflexivity |].
  rewrite !append_cons, IH. reflexivity.
Qed.

Lemma drop_last_snoc s c : drop_last (s +:+ String c EmptyString) = s.
Proof.
  induction s as [| a s IH]; [reflexivity |].
  rewrite append_cons. destruct s as [| b s]; [reflexivity |].
  rewrite append_cons in *. cbn [drop_last] in *. rewrite IH. reflexivity.
Qed.

Lemma split_go_free sep s : forall cur,
  free_of sep s = true ->
  split_go sep 0 cur s = [rev_string_acc cur s].
Proof.
  induction s as [| c s IH]; intros cur Hfree; [reflexivity |].
  cbn [free_of] in Hfree. apply andb_true_iff in Hfree as [Hp Hs].
  apply negb_true_iff in Hp. cbn [split_go]. rewrite Hp.
  rewrite IH by exact Hs. reflexivity.
Qed.

Lemma prefix_comma_quote m :
  String.prefix comma_quote (comma_quote +:+ m) = true.
Proof.
  unfold comma_quote. rewrite !append_cons. cbn [String.prefix].
  repeat (destruct (ascii_dec _ _); [| congruence]).
  destruct m; reflexivity.
Qed.

Lemma prefix_comma_quote_other c rest :
  Ascii.eqb c "," = false -> String.prefix comma_quote (String c rest) = false.
Proof.
  intros Hc. unfold comma_quote. cbn [String.prefix].
  destruct (ascii_dec "," c) as [<- |]; [| reflexivity].
  vm_compute in Hc. discriminate.
Qed.

(** Text without comma, then the separator: the first field is that text. *)
Lemma split_go_first_field a m : forall cur,
  none_is (fun c => Ascii.eqb c ",") a = true ->
  split_go comma_quote 0 cur (a +:+ comma_quote +:+ m)
  = rev_string_acc cur a :: split_go comma_quote 0 EmptyString m.
Proof.
  induction a as [| c a IH]; intros cur Ha.
  - change (EmptyString +:+ comma_quote +:+ m) with (comma_quote +:+ m).
    pose proof (prefix_comma_quote m) as Hp.
    unfold comma_quote at 2. unfold comma_quote at 2 in Hp.
    rewrite !append_cons in *. cbn [split_go]. rewrite Hp. reflexivity.
  - cbn [none_is] in Ha. apply andb_true_iff in Ha as [Hc Ha].
    apply negb_true_iff in Hc.
    rewrite append_cons. cbn [split_go].
    rewrite (prefix_comma_quote_other _ _ Hc), IH by exact Ha. reflexivity.
Qed.

(** A reply made of the text of a code, the separator, a message free of
    the separator and a closing quote reads as that code and message. *)
Lemma parse_entry_reply (code : Z) (msg : string) :
  free_of comma_quote msg = true ->
  parse_error_reply (PStr (error_text (int_text code) msg)) = Ok (code, msg).
Proof.
  intros Hmsg. destruct (int_text_facts code) as [Hint Hcomma].
  unfold parse_error_reply, error_text, py_split.
  rewrite <- !append_assoc_string, drop_last_snoc, append_assoc_string.
  rewrite split_go_first_field by exact Hcomma.
  rewrite split_go_free by exact Hmsg.
  change (rev_string_acc EmptyString (int_text code)) with (int_text code).
  rewrite Hint. reflexivity.
Qed.

(* ===================================================================== *)
(** ** Draining the error queue *)
(* ===================================================================== *)

Lemma errors_loop_drains cmd rs es z msg0 rest :
  Forall2 (fun r e => reads_as r e /\ fst e <> 0) rs es ->
  reads_as z (0, msg0) ->
  forall e log,
    errors_loop cmd e (rs ++ z :: rest) log
    = (Ok (e ++ es),
       (log ++ repeat (CQuery cmd) (S (List.length rs)), rest)).
Proof.
  intros Hrs [sz [-> Hz]].
  induction Hrs as [| r [code msg] rs es [[s [-> Hs]] Hne] _ IH]; intros e log.
  - cbn [app errors_loop]. rewrite Hz. cbn. rewrite app_nil_r. reflexivity.
  - cbn [app errors_loop]. rewrite Hs.
    cbn in Hne. apply Z.eqb_neq in Hne. rewrite Hne.
    rewrite IH. rewrite <- !app_assoc. reflexivity.
Qed.

Lemma entry_replies_read es :
  Forall (fun e => fst e <> 0 /\ free_of comma_quote (snd e) = true) es ->
  Forall2 (fun r e => reads_as r e /\ fst e <> 0) (map entry_reply es) es.
Proof.
  induction 1 as [| [code msg] es [Hne Hfree] _ IH]; cbn [map].
  - apply List.Forall2_nil.
  - apply List.Forall2_cons; [| exact IH].
    split; [| exact Hne]. eexists. split; [reflexivity |].
    apply parse_entry_reply, Hfree.
Qed.

(** C6, as the code has it.  [errors] sends the error query again and
    again, reading each reply as a code and a message: the last character
    is dropped, the rest split at the separator made of a comma and a double
    quote, the first field read as an integer and the second taken as the
    message.  When the replies of the handle are entries with non-zero code
    followed by an entry with code zero, it returns exactly the former, in
    the order received and without the zero entry, having sent one query per
    reply read and used up these replies only.  This is stated twice: for
    replies that read as the entries, and for the replies a device writes
    for given entries (the code in decimal, a comma, the message in double
    quotes) when no message holds the separator; a message that holds it is
    cut there.  When the error query is disabled (empty) [errors] returns
    the empty list and touches nothing, whether the driver has a handle or
    not. *)
Theorem errors_drains_queue (d : driver) :
  (error_command d = EmptyString -> errors d = (Ok [], d))
  /\ (forall (t : transport) (rs : list reply) (es : list (Z * string))
             (z : reply) (msg0 : string) (rest : list reply),
        error_command d <> EmptyString ->
        ins d = Some t ->
        t_script t = rs ++ z :: rest ->
        Forall2 (fun r e => reads_as r e /\ fst e <> 0) rs es ->
        reads_as z (0, msg0) ->
        errors d
        = (Ok es,
           set_ins
             (Some (mkTransport (t_timeout t)
                      (t_log t ++ repeat (CQuery (error_command d))
                                    (S (List.length rs)))
                      rest)) d))
  /\ (forall (t : transport) (es : list (Z * string)) (msg0 : string)
             (rest : list reply),
        error_command d <> EmptyString ->
        ins d = Some t ->
        Forall (fun e => fst e <> 0 /\ free_of comma_quote (snd e) = true) es ->
        free_of comma_quote msg0 = true ->
        t_script t = map entry_reply es ++ entry_reply (0, msg0) :: rest ->
        errors d
        = (Ok es,
           set_ins
             (Some (mkTransport (t_timeout t)
                      (t_log t ++ repeat (CQuery (error_command d))
                                    (S (List.length es)))
                      rest)) d)).
Proof.
  assert (Hgen : forall t rs es z msg0 rest,
             error_command d <> EmptyString ->
             ins d = Some t ->
             t_script t = rs ++ z :: rest ->
             Forall2 (fun r e => reads_as r e /\ fst e <> 0) rs es ->
             reads_as z (0, msg0) ->
             errors d
             = (Ok es,
                set_ins
                  (Some (mkTransport (t_timeout t)
                           (t_log t ++ repeat (CQuery (error_command d))
                                         (S (List.length rs)))
                           rest)) d)).
  { intros t rs es z msg0 rest Hcmd Hins Hscript Hrs Hz.
    unfold errors. apply String.eqb_neq in Hcmd. rewrite Hcmd, Hins, Hscript.
    rewrite (errors_loop_drains _ _ _ _ _ _ Hrs Hz). reflexivity. }
  split; [| split].
  - intros H. unfold errors. rewrite H. reflexivity.
  - exact Hgen.
  - intros t es msg0 rest Hcmd Hins Hes Hmsg0 Hscript.
    rewrite <- (length_map entry_reply es).
    apply (Hgen t (map entry_reply es) es (entry_reply (0, msg0)) msg0 rest);
      try assumption.
    + apply entry_replies_read, Hes.
    + eexists. split; [reflexivity |]. apply parse_entry_reply, Hmsg0.
Qed.

(* ===================================================================== *)
(** ** Resource resolution *)
(* ===================================================================== *)

(** *** Splitting at commas *)

Lemma prefix_comma c rest :
  String.prefix "," (String c rest) = Ascii.eqb c ",".
Proof.
  cbn [String.prefix]. destruct (ascii_dec "," c) as [<- | Hne].
  - destruct rest; reflexivity.
  - symmetry. apply Ascii.eqb_neq. congruence.
Qed.

Lemma split_comma_last f : forall cur,
  comma_free f = true -> split_go "," 0 cur f = [rev_string_acc cur f].
Proof.
  induction f as [| c f IH]; intros cur Hf; [reflexivity |].
  cbn [comma_free none_is] in Hf. apply andb_true_iff in Hf as [Hc Hf].
  apply negb_true_iff in Hc. cbn [split_go]. rewrite prefix_comma, Hc.
  rewrite IH by exact Hf. reflexivity.
Qed.

Lemma split_comma_first f rest : forall cur,
  comma_free f = true ->
  split_go "," 0 cur (f +:+ "," +:+ rest)
  = rev_string_acc cur f :: split_go "," 0 EmptyString rest.
Proof.
  induction f as [| c f IH]; intros cur Hf.
  - change (EmptyString +:+ "," +:+ rest) with (String "," rest).
    cbn [split_go]. rewrite prefix_comma. reflexivity.
  - cbn [comma_free none_is] in Hf. apply andb_true_iff in Hf as [Hc Hf].
    apply negb_true_iff in Hc. rewrite append_cons. cbn [split_go].
    rewrite prefix_comma, Hc, IH by exact Hf. reflexivity.
Qed.

(** Splitting at commas gives back the fields that were joined. *)
Lemma py_split_join_comma fields :
  fields <> [] ->
  Forall (fun f => comma_free f = true) fields ->
  py_split "," (join_comma fields) = fields.
Proof.
  intros Hne Hall. unfold py_split.
  induction Hall as [| f rest Hf Hrest IH]; [contradiction |].
  destruct rest as [| g rest].
  - cbn [join_comma]. apply split_comma_last, Hf.
  - change (join_comma (f :: g :: rest))
      with (f +:+ "," +:+ join_comma (g :: rest)).
    rewrite split_comma_first by exact Hf.
    rewrite IH by discriminate. reflexivity.
Qed.

(** C3, as the code has it.  For a generic-bus address whose instrument
    answers the identification query with a string, the reply is split at
    the commas; company, model and version are the first, second and fourth
    field, each stripped of surrounding whitespace, and exactly one query
    has gone to the handle.  With fewer than four fields the lookup of a
    field fails with [IndexError], the out-of-range fault itself: the code
    has no check of the number of fields and no exception of its own.  The
    fields of a reply written as comma-free texts joined by commas are
    these texts. *)
Theorem identification_fields (addr : string) (rm : resource_manager)
    (script : list reply) (answer : string) :
  rm_devices rm !! addr = Some (Reply (PStr answer) :: script) ->
  let IDN := py_split "," answer in
  let rm' := mkRM (rm_devices rm) (rm_opened rm ++ [addr]) in
  (forall f0 f1 f2 f3 more,
      IDN = f0 :: f1 :: f2 :: f3 :: more ->
      _open_visa_resource addr rm
      = (Ok (mkResource None
               (Some (mkTransport 2000 [CQuery "*IDN?"] script))
               (Some (py_strip f0)) (Some (py_strip f1)) (Some (py_strip f3))
               None None addr),
         rm'))
  /\ ((List.length IDN < 4)%nat ->
      _open_visa_resource addr rm = (Raise IndexError, rm'))
  /\ (forall fields,
        fields <> [] ->
        Forall (fun f => comma_free f = true) fields ->
        answer = join_comma fields ->
        IDN = fields).
Proof.
  intros Hdev IDN rm'. subst rm'.
  unfold _open_visa_resource, open_resource. unfold_monad. rewrite Hdev.
  unfold identify, t_query. cbn [t_script t_log t_timeout t_record app].
  fold IDN. split; [| split].
  - intros f0 f1 f2 f3 more ->. reflexivity.
  - intros Hlen.
    destruct IDN as [| f0 [| f1 [| f2 [| f3 more]]]]; cbn in Hlen |- *;
      try reflexivity; lia.
  - intros fields Hne Hall ->. apply py_split_join_comma; assumption.
Qed.

(** *** The matcher finds only what the pattern describes *)

Lemma append_empty_r (s : string) : s +:+ EmptyString = s.
Proof. induction s as [| c s IH]; [reflexivity |]. rewrite append_cons, IH. reflexivity. Qed.

Lemma is_empty_append a b : is_empty (a +:+ b) = is_empty a && is_empty b.
Proof. destruct a; reflexivity. Qed.

Lemma strip_prefix_sound p : forall s rest,
  strip_prefix p s = Some rest -> s = p +:+ rest.
Proof.
  induction p as [| a p IH]; intros s rest H.
  - cbn in H. injection H as <-. reflexivity.
  - destruct s as [| b s]; [discriminate |]. cbn in H.
    destruct (Ascii.eqb_spec a b) as [-> |]; [| discriminate].
    rewrite append_cons, <- (IH _ _ H). reflexivity.
Qed.

Lemma plus_go_sound {X} (p : ascii -> bool) (k : string -> option X) x s :
  forall any,
    plus_go p s k any = Some x ->
    exists w rest,
      s = w +:+ rest
      /\ none_is (fun c => negb (p c)) w = true
      /\ (any = true \/ w <> EmptyString)
      /\ k rest = Some x.
Proof.
  induction s as [| c s IH]; intros any H.
  - cbn in H. destruct any; [| discriminate].
    exists EmptyString, EmptyString. auto.
  - cbn [plus_go] in H.
    assert (Hstop : (if any then k (String c s) else None) = Some x ->
                    exists w rest,
                      String c s = w +:+ rest
                      /\ none_is (fun c => negb (p c)) w = true
                      /\ (any = true \/ w <> EmptyString)
                      /\ k rest = Some x).
    { intros Hk. destruct any; [| discriminate].
      exists EmptyString, (String c s). auto. }
    destruct (p c) eqn:Hpc; [| exact (Hstop H)].
    destruct (plus_go p s k true) as [x' |] eqn:Hgo; [| exact (Hstop H)].
    injection H as <-.
    destruct (IH _ Hgo) as (w & rest & -> & Hw & _ & Hk).
    exists (String c w), rest. rewrite append_cons. cbn [none_is].
    rewrite Hpc, Hw. repeat split; auto; right; discriminate.
Qed.

Lemma rmatch_sound r : forall s st m k m',
  rmatch r s st m k = Some m' ->
  exists w rest m'',
    s = w +:+ rest
    /\ matches r st w rest
    /\ k rest (st && is_empty w) m'' = Some m'.
Proof.
  induction r as [| l | p | r1 IH1 r2 IH2 | r1 IH1 r2 IH2 | n r IH | |];
    intros s st m k m' H; cbn [rmatch] in H.
  - exists EmptyString, s, m. rewrite andb_true_r. cbn. auto.
  - destruct (strip_prefix l s) as [rest |] eqn:Hl; [| discriminate].
    exists l, rest, m. split; [apply strip_prefix_sound, Hl |].
    split; [reflexivity |].
    replace (is_empty l) with (String.length l =? 0)%nat by (destruct l; reflexivity).
    exact H.
  - destruct (plus_go_sound _ _ _ _ _ H) as (w & rest & -> & Hw & [Hany | Hne] & Hk);
      [discriminate |].
    exists w, rest, m. split; [reflexivity |]. split; [split; assumption |].
    destruct w; [contradiction |]. rewrite andb_false_r. exact Hk.
  - destruct (rmatch r1 s st m k) as [m1 |] eqn:H1.
    + injection H as <-. destruct (IH1 _ _ _ _ _ H1) as (w & rest & m'' & ? & ? & ?).
      exists w, rest, m''. cbn. auto.
    + destruct (IH2 _ _ _ _ _ H) as (w & rest & m'' & ? & ? & ?).
      exists w, rest, m''. cbn. auto.
  - destruct (IH1 _ _ _ _ _ H) as (w1 & rest1 & m1 & -> & Hm1 & Hk1).
    destruct (IH2 _ _ _ _ _ Hk1) as (w2 & rest & m2 & -> & Hm2 & Hk2).
    exists (w1 +:+ w2), rest, m2. split; [symmetry; apply append_assoc_string |].
    split; [cbn; eauto |].
    rewrite is_empty_append, andb_assoc. exact Hk2.
  - destruct (IH _ _ _ _ _ H) as (w & rest & m'' & -> & Hm & Hk).
    eexists w, rest, _. split; [reflexivity |]. split; [exact Hm | exact Hk].
  - destruct st; [| discriminate].
    exists EmptyString, s, m. cbn. auto.
  - exists EmptyString, s, m. rewrite andb_true_r.
    destruct s as [| c [| c' s]]; try discriminate.
    + cbn. auto.
    + assert (c = "010"%char) as ->.
      { destruct c as [[] [] [] [] [] [] [] []]; try discriminate; reflexivity. }
      cbn. auto.
    + destruct c as [[] [] [] [] [] [] [] []]; discriminate.
Qed.

Lemma ats_addr_not_later s : search_from ats_addr s false = None.
Proof. induction s as [| c s IH]; [reflexivity |]. cbn [search_from]. exact IH. Qed.

Lemma none_is_not_digit_all s :
  none_is (fun c => negb (is_digit c)) s = true -> all_digits s = true.
Proof.
  induction s as [| c s IH]; [reflexivity |]. cbn.
  intros H. apply andb_true_iff in H as [Hc Hs].
  rewrite negb_involutive in Hc. rewrite Hc, IH by exact Hs. reflexivity.
Qed.

(** A match of [ats_addr] is only found on an address of the digitizer-board
    scheme. *)
Lemma ats_addr_sound addr m :
  search ats_addr addr = Some m -> ats_shape addr.
Proof.
  unfold search. intros H.
  assert (Hm : rmatch ats_addr addr true [] (fun _ _ m => Some m) = Some m).
  { destruct addr as [| c s]; cbn [search_from] in H.
    - destruct (rmatch _ _ _ _ _); [exact H | discriminate].
    - destruct (rmatch _ _ _ _ _); [exact H |].
      rewrite ats_addr_not_later in H. discriminate. }
  clear H. destruct (rmatch_sound _ _ _ _ _ _ Hm) as (w & rest & m'' & -> & Hw & _).
  unfold ats_addr in Hw. cbn [seq matches] in Hw.
  destruct Hw as (w0 & w1 & -> & [-> _] & Hw).
  destruct Hw as (model & w2 & -> & Hmodel & Hw).
  destruct Hw as (lit1 & w3 & -> & -> & Hw).
  destruct Hw as (system & w4 & -> & [Hsys1 Hsys2] & Hw).
  destruct Hw as (lit2 & w5 & -> & -> & Hw).
  destruct Hw as (board & w6 & -> & [Hb1 Hb2] & Hw).
  destruct Hw as (suffix & w7 & -> & Hsuffix & [-> Hrest]).
  exists model, system, board, suffix, rest.
  repeat split; auto using none_is_not_digit_all.
  rewrite !append_assoc_string. reflexivity.
Qed.

Lemma parse_resource_name_generic addr :
  search ats_addr addr = None ->
  _parse_resource_name addr
  = Ok (mkResource (Some "Visa") None None None None None None addr).
Proof. intros H. unfold _parse_resource_name. rewrite H. reflexivity. Qed.

Lemma fold_add_quant_ins qs d :
  ins (fold_left (fun d q => BaseDriver._add_quant q d) qs d) = ins d.
Proof.
  revert d. induction qs as [| q qs IH]; intros d; cbn; [reflexivity |].
  rewrite IH. reflexivity.
Qed.

Lemma BaseDriver_new_ins cls i a mdl tmo :
  ins (BaseDriver.new cls i a mdl tmo) = t_set_timeout (tmo * 1000) <$> i.
Proof. unfold BaseDriver.new. rewrite fold_add_quant_ins. reflexivity. Qed.

(** Opening a resource whose address is a digitizer-board address never
    reaches the resource manager, and the driver it constructs has no
    handle. *)
Lemma open_resource_ats_leaves_rm (E : externals) (driver_name : string)
    (kw_timeout : option Z) (m : manager) (addr : string) (r : resource) :
  _parse_resource_name addr = Ok r ->
  r_type r = Some "ATS" ->
  r_ins r = None ->
  m_rm (snd (DriverManager._open_resource E addr driver_name kw_timeout m))
  = m_rm m
  /\ forall ref m',
      DriverManager._open_resource E addr driver_name kw_timeout m = (Ok ref, m') ->
      exists d, m_objects m' = m_objects m ++ [d] /\ ins d = None.
Proof.
  intros Hr Hty Hins. unfold DriverManager._open_resource, DriverManager.note_call,
    DriverManager.allocate. unfold_monad. rewrite Hr, Hty. cbn [String.eqb Ascii.eqb Bool.eqb].
  destruct (import_Driver E driver_name) as [cls | e]; cbn.
  - split; [reflexivity |]. intros ref m' [= <- <-]. cbn.
    eexists. split; [reflexivity |].
    rewrite BaseDriver_new_ins, Hins. reflexivity.
  - split; [reflexivity | discriminate].
Qed.

(** C8.  The address [ATS9360::SYSTEM1::2] resolves to a digitizer-board
    descriptor with model ATS9360, system 1 and board 2 and without handle;
    opening that resource through the manager leaves the resource manager
    untouched (no connection opened, no query issued) and constructs a
    driver without handle.  Every address on which the digitizer-board
    pattern finds no match is classified as a generic bus resource, and the
    pattern finds no match on an address that is not of the digitizer-board
    scheme. *)
Theorem ats_address_resolution (E : externals) (driver_name : string)
    (kw_timeout : option Z) (m : manager) :
  let addr := "ATS9360::SYSTEM1::2" in
  _parse_resource_name addr
  = Ok (mkResource (Some "ATS") None (Some "AlazarTech") (Some "ATS9360") None
          (Some 1) (Some 2) addr)
  /\ m_rm (snd (DriverManager._open_resource E addr driver_name kw_timeout m))
     = m_rm m
  /\ (forall ref m',
        DriverManager._open_resource E addr driver_name kw_timeout m = (Ok ref, m') ->
        exists d, m_objects m' = m_objects m ++ [d] /\ ins d = None)
  /\ (forall other : string,
        search ats_addr other = None ->
        _parse_resource_name other
        = Ok (mkResource (Some "Visa") None None None None None None other))
  /\ (forall other : string,
        ~ ats_shape other ->
        _parse_resource_name other
        = Ok (mkResource (Some "Visa") None None None None None None other)).
Proof.
  intros addr.
  assert (Hr : _parse_resource_name addr
               = Ok (mkResource (Some "ATS") None (Some "AlazarTech")
                       (Some "ATS9360") None (Some 1) (Some 2) addr))
    by (vm_compute; reflexivity).
  split; [exact Hr |].
  destruct (open_resource_ats_leaves_rm E driver_name kw_timeout m addr _ Hr
              eq_refl eq_refl) as [Hrm Hobj].
  split; [exact Hrm |]. split; [exact Hobj |].
  split; [apply parse_resource_name_generic |].
  intros other Hshape. apply parse_resource_name_generic.
  destruct (search ats_addr other) as [m0 |] eqn:Hsearch; [| reflexivity].
  contradiction Hshape. exact (ats_addr_sound _ _ Hsearch).
Qed.

(* ===================================================================== *)
(** ** I/O after close *)
(* ===================================================================== *)

Lemma errors_loop_log cmd script : forall e log,
  exists more, fst (snd (errors_loop cmd e script log)) = log ++ more.
Proof.
  induction script as [| r script IH]; intros e log.
  - cbn. eauto.
  - cbn [errors_loop]. destruct r as [s | x]; [| cbn; eauto].
    destruct (parse_error_reply s) as [[code msg] | x]; [| cbn; eauto].
    destruct (code =? 0); [cbn; eauto |].
    destruct (IH (e ++ [(code, msg)]) (log ++ [CQuery cmd])) as [more Hmore].
    rewrite Hmore, <- app_assoc. eauto.
Qed.

Lemma errors_log_extends d t :
  ins d = Some t -> log_extends (t_log t) (snd (errors d)).
Proof.
  intros Hins. unfold errors, log_extends.
  destruct (String.eqb _ _).
  - cbn. exists t, []. rewrite app_nil_r. auto.
  - rewrite Hins.
    destruct (errors_loop_log (error_command d) (t_script t) [] (t_log t))
      as [more Hmore].
    destruct (errors_loop _ _ _ _) as [r [log script]]. cbn in Hmore |- *.
    subst log. eauto.
Qed.

(** What follows the call on the handle in every I/O method: the optional
    check of the error queue, then the return. *)
Lemma after_call_log_extends {A} (check_errors : bool) (x : A) d t :
  ins d = Some t ->
  log_extends (t_log t)
    (snd ((do _ <- when_ check_errors check_errors_and_log; ret x) d)).
Proof.
  intros Hins. unfold_monad. destruct check_errors.
  - unfold check_errors_and_log. unfold_monad.
    pose proof (errors_log_extends d t Hins) as H.
    destruct (errors d) as [[es | e] d1]; exact H.
  - cbn. exists t, []. rewrite app_nil_r. auto.
Qed.

Lemma log_extends_refl d t : ins d = Some t -> log_extends (t_log t) d.
Proof. intros H. exists t, []. rewrite app_nil_r. auto. Qed.

Lemma log_extends_trans log more d :
  log_extends (log ++ more) d -> log_extends log d.
Proof.
  intros (t' & more' & Hins & Hlog). exists t', (more ++ more').
  rewrite Hlog, app_assoc. auto.
Qed.

(** A step that may raise without touching the driver, before the rest. *)
Lemma lift_then_log_extends {A B} (o : outcome A) (k : A -> M driver B) d t :
  ins d = Some t ->
  (forall a, log_extends (t_log t) (snd (k a d))) ->
  log_extends (t_log t) (snd ((do a <- lift o; k a) d)).
Proof.
  intros Hins Hk. unfold_monad. destruct o as [a | e].
  - apply Hk.
  - cbn. apply log_extends_refl, Hins.
Qed.

Lemma t_query_log c t : t_log (snd (t_query c t)) = t_log t ++ [c].
Proof. unfold t_query. destruct (t_script t) as [| [v | e] rest]; reflexivity. Qed.

Lemma t_send_log c t : t_log (snd (t_send c t)) = t_log t ++ [c].
Proof. reflexivity. Qed.

(** A call on the handle followed by steps that only add to its log. *)
Lemma on_ins_then_log_extends {A B} (c : call) (m : M transport A)
    (k : A -> M driver B) d t :
  ins d = Some t ->
  (forall t0, t_log (snd (m t0)) = t_log t0 ++ [c]) ->
  (forall a d1 t1, ins d1 = Some t1 -> log_extends (t_log t1) (snd (k a d1))) ->
  log_extends (t_log t ++ [c]) (snd ((do a <- on_ins m; k a) d)).
Proof.
  intros Hins Hm Hk. unfold on_ins. unfold_monad. rewrite Hins.
  specialize (Hm t). destruct (m t) as [[a | e] t1]; cbn in Hm |- *.
  - rewrite <- Hm. apply Hk. reflexivity.
  - rewrite <- Hm. apply log_extends_refl. reflexivity.
Qed.

Lemma used_of_log_extends t c d' :
  log_extends ((t_log t ++ [CClose]) ++ [c]) d' -> used_after_close t c d'.
Proof.
  intros (t' & more & Hins & Hlog). exists t', more. split; [exact Hins |].
  rewrite Hlog, <- !app_assoc. reflexivity.
Qed.

Section AfterClose.

Variable E : externals.
Variables (d : driver) (t : transport).
Hypothesis Hins : ins d = Some t.

Lemma close_keeps_handle : close d = (Ok tt, (after_close t d)).
Proof.
  unfold close, performClose, on_ins, t_send, has_ins. unfold_monad.
  rewrite !Hins. reflexivity.
Qed.

Lemma query_after_close message check_errors :
  used_after_close t (CQuery message) (snd (query message check_errors (after_close t d))).
Proof.
  apply used_of_log_extends. unfold query.
  apply (on_ins_then_log_extends _ _ _ (after_close t d) (t_record CClose t));
    [reflexivity | apply t_query_log |].
  intros a d1 t1 H1. apply after_call_log_extends, H1.
Qed.

Lemma query_ascii_after_close message converter separator check_errors :
  used_after_close t (CQueryAscii message converter separator)
    (snd (query_ascii_values message converter separator check_errors (after_close t d))).
Proof.
  apply used_of_log_extends. unfold query_ascii_values.
  apply (on_ins_then_log_extends _ _ _ (after_close t d) (t_record CClose t));
    [reflexivity | apply t_query_log |].
  intros a d1 t1 H1. apply lift_then_log_extends; [exact H1 |].
  intros _. apply after_call_log_extends, H1.
Qed.

Lemma query_binary_after_close message datatype big header_fmt check_errors :
  used_after_close t (CQueryBinary message datatype big header_fmt)
    (snd (query_binary_values message datatype big header_fmt check_errors (after_close t d))).
Proof.
  apply used_of_log_extends. unfold query_binary_values.
  apply (on_ins_then_log_extends _ _ _ (after_close t d) (t_record CClose t));
    [reflexivity | apply t_query_log |].
  intros a d1 t1 H1. apply lift_then_log_extends; [exact H1 |].
  intros _. apply after_call_log_extends, H1.
Qed.

Lemma write_after_close message check_errors :
  used_after_close t (CWrite message) (snd (write message check_errors (after_close t d))).
Proof.
  apply used_of_log_extends. unfold write.
  apply (on_ins_then_log_extends _ _ _ (after_close t d) (t_record CClose t));
    [reflexivity | apply t_send_log |].
  intros a d1 t1 H1. apply after_call_log_extends, H1.
Qed.

Lemma write_ascii_after_close message values converter separator check_errors n :
  py_len values = Ok n ->
  used_after_close t (CWriteAscii message values converter separator)
    (snd (write_ascii_values message values converter separator check_errors (after_close t d))).
Proof.
  intros Hlen. apply used_of_log_extends. unfold write_ascii_values.
  rewrite Hlen.
  apply (on_ins_then_log_extends _ _ _ (after_close t d) (t_record CClose t));
    [reflexivity | apply t_send_log |].
  intros a d1 t1 H1. apply after_call_log_extends, H1.
Qed.

Lemma write_binary_after_close message values datatype big check_errors bh :
  IEEE_488_2_BinBlock E values datatype big = Ok bh ->
  used_after_close t (CWriteBinary message values datatype big)
    (snd (write_binary_values E message values datatype big check_errors (after_close t d))).
Proof.
  intros Hblock. apply used_of_log_extends. unfold write_binary_values.
  rewrite Hblock.
  apply (on_ins_then_log_extends _ _ _ (after_close t d) (t_record CClose t));
    [reflexivity | apply t_send_log |].
  intros a d1 t1 H1. apply after_call_log_extends, H1.
Qed.

End AfterClose.

Lemma query_forwarded message d t :
  ins d = Some t ->
  query message false d
  = (fst (t_query (CQuery message) t),
     set_ins (Some (snd (t_query (CQuery message) t))) d).
Proof.
  intros Hins. unfold query, on_ins, has_ins. unfold_monad. cbn beta.
  rewrite !Hins. cbn [negb]. rewrite ?Hins.
  destruct (t_query _ t) as [[v | e] t1]; reflexivity.
Qed.

Lemma query_ascii_forwarded message cv sp d t :
  ins d = Some t ->
  query_ascii_values message cv sp false d
  = (counted (fst (t_query (CQueryAscii message cv sp) t)),
     set_ins (Some (snd (t_query (CQueryAscii message cv sp) t))) d).
Proof.
  intros Hins. unfold query_ascii_values, on_ins, has_ins, counted.
  unfold_monad. cbn beta. rewrite !Hins. cbn [negb]. rewrite ?Hins.
  destruct (t_query _ t) as [[v | e] t1]; cbn; [| reflexivity].
  destruct (py_len v); reflexivity.
Qed.

Lemma query_binary_forwarded message dt be hf d t :
  ins d = Some t ->
  query_binary_values message dt be hf false d
  = (counted (fst (t_query (CQueryBinary message dt be hf) t)),
     set_ins (Some (snd (t_query (CQueryBinary message dt be hf) t))) d).
Proof.
  intros Hins. unfold query_binary_values, on_ins, has_ins, counted.
  unfold_monad. cbn beta. rewrite !Hins. cbn [negb]. rewrite ?Hins.
  destruct (t_query _ t) as [[v | e] t1]; cbn; [| reflexivity].
  destruct (py_len v); reflexivity.
Qed.

Lemma write_forwarded message d t :
  ins d = Some t ->
  write message false d
  = (Ok ReturnedSelf, set_ins (Some (t_record (CWrite message) t)) d).
Proof.
  intros Hins. unfold write, on_ins, has_ins, t_send. unfold_monad. cbn beta.
  rewrite !Hins. cbn [negb]. rewrite ?Hins. reflexivity.
Qed.

Lemma write_ascii_forwarded message vs cv sp n d t :
  ins d = Some t ->
  py_len vs = Ok n ->
  write_ascii_values message vs cv sp false d
  = (Ok ReturnedSelf,
     set_ins (Some (t_record (CWriteAscii message vs cv sp) t)) d).
Proof.
  intros Hins Hn. unfold write_ascii_values, on_ins, has_ins, t_send.
  unfold_monad. cbn beta. rewrite !Hins. cbn [negb]. rewrite Hn.
  cbn beta iota. rewrite ?Hins. reflexivity.
Qed.

Lemma write_binary_forwarded (E : externals) message vs dt be bh d t :
  ins d = Some t ->
  IEEE_488_2_BinBlock E vs dt be = Ok bh ->
  write_binary_values E message vs dt be false d
  = (Ok ReturnedSelf,
     set_ins (Some (t_record (CWriteBinary message vs dt be) t)) d).
Proof.
  intros Hins Hb. unfold write_binary_values, on_ins, has_ins, t_send.
  unfold_monad. cbn beta. rewrite !Hins. cbn [negb]. rewrite Hb.
  cbn beta iota. rewrite ?Hins. reflexivity.
Qed.

(** C4, as the code has it.  [close] releases the handle but the driver
    keeps it: after [close], [query], [write] and their ascii and binary
    variants are forwarded to that same handle, which receives the call
    right after the [close] it has seen.  Without the check of the error
    queue, each of the six calls is pinned down: [query] returns or raises
    what the handle answers; [query_ascii_values] and [query_binary_values]
    do so too, once the length of the answer has been taken for the log
    line; [write] returns the driver itself once the handle has taken the
    message, and so do [write_ascii_values] and [write_binary_values] when
    their own preparation (the length of the values, the block header)
    succeeds.  With the check, the call still reaches the handle first.  The
    calls are no-ops, returning [None], only on a driver that never had a
    handle. *)
Theorem io_after_close (E : externals) (d : driver) :
  (ins d = None ->
   close d = (Ok tt, d)
   /\ (forall message ce, query message ce d = (Ok PNone, d))
   /\ (forall message cv sp ce, query_ascii_values message cv sp ce d = (Ok PNone, d))
   /\ (forall message dt be hf ce,
         query_binary_values message dt be hf ce d = (Ok PNone, d))
   /\ (forall message ce, write message ce d = (Ok ReturnedNone, d))
   /\ (forall message vs cv sp ce,
         write_ascii_values message vs cv sp ce d = (Ok ReturnedNone, d))
   /\ (forall message vs dt be ce,
         write_binary_values E message vs dt be ce d = (Ok ReturnedNone, d)))
  /\ (forall t : transport,
        ins d = Some t ->
        let t' := t_record CClose t in
        exists closed,
          close d = (Ok tt, closed)
          /\ ins closed = Some t'
          /\ (forall message,
                let c := CQuery message in
                query message false closed
                = (fst (t_query c t'), set_ins (Some (snd (t_query c t'))) closed))
          /\ (forall message cv sp,
                let c := CQueryAscii message cv sp in
                query_ascii_values message cv sp false closed
                = (counted (fst (t_query c t')),
                   set_ins (Some (snd (t_query c t'))) closed))
          /\ (forall message dt be hf,
                let c := CQueryBinary message dt be hf in
                query_binary_values message dt be hf false closed
                = (counted (fst (t_query c t')),
                   set_ins (Some (snd (t_query c t'))) closed))
          /\ (forall message,
                write message false closed
                = (Ok ReturnedSelf,
                   set_ins (Some (t_record (CWrite message) t')) closed))
          /\ (forall message vs cv sp n,
                py_len vs = Ok n ->
                write_ascii_values message vs cv sp false closed
                = (Ok ReturnedSelf,
                   set_ins (Some (t_record (CWriteAscii message vs cv sp) t'))
                     closed))
          /\ (forall message vs dt be bh,
                IEEE_488_2_BinBlock E vs dt be = Ok bh ->
                write_binary_values E message vs dt be false closed
                = (Ok ReturnedSelf,
                   set_ins (Some (t_record (CWriteBinary message vs dt be) t'))
                     closed))
          /\ (forall message ce,
                used_after_close t (CQuery message)
                  (snd (query message ce closed)))
          /\ (forall message cv sp ce,
                used_after_close t (CQueryAscii message cv sp)
                  (snd (query_ascii_values message cv sp ce closed)))
          /\ (forall message dt be hf ce,
                used_after_close t (CQueryBinary message dt be hf)
                  (snd (query_binary_values message dt be hf ce closed)))
          /\ (forall message ce,
                used_after_close t (CWrite message)
                  (snd (write message ce closed)))
          /\ (forall message vs cv sp ce n,
                py_len vs = Ok n ->
                used_after_close t (CWriteAscii message vs cv sp)
                  (snd (write_ascii_values message vs cv sp ce closed)))
          /\ (forall message vs dt be ce bh,
                IEEE_488_2_BinBlock E vs dt be = Ok bh ->
                used_after_close t (CWriteBinary message vs dt be)
                  (snd (write_binary_values E message vs dt be ce closed)))).
Proof.
  split.
  - intros Hnone.
    unfold close, performClose, query, query_ascii_values, query_binary_values,
      write, write_ascii_values, write_binary_values, has_ins.
    unfold_monad. rewrite !Hnone. cbn. repeat split.
  - intros t Hins t'. exists (set_ins (Some t') d).
    assert (Hc : ins (set_ins (Some t') d) = Some t') by reflexivity.
    split; [apply close_keeps_handle, Hins |].
    split; [reflexivity |].
    split; [intros message c; apply query_forwarded, Hc |].
    split; [intros message cv sp c; apply query_ascii_forwarded, Hc |].
    split; [intros message dt be hf c; apply query_binary_forwarded, Hc |].
    split; [intros message; apply write_forwarded, Hc |].
    split; [intros message vs cv sp n Hn;
            apply (write_ascii_forwarded _ _ _ _ n _ _ Hc Hn) |].
    split; [intros message vs dt be bh Hb;
            apply (write_binary_forwarded E _ _ _ _ bh _ _ Hc Hb) |].
    split; [intros; apply query_after_close |].
    split; [intros; apply query_ascii_after_close |].
    split; [intros; apply query_binary_after_close |].
    split; [intros; apply write_after_close |].
    split; [intros; eapply write_ascii_after_close; eassumption |].
    intros; eapply write_binary_after_close; eassumption.
Qed.

(* ===================================================================== *)
(** ** The driver cache *)
(* ===================================================================== *)

(** A successful [_open_resource] constructs one driver, is counted once and
    leaves the dictionary of open instruments alone. *)
Lemma open_resource_effect (E : externals) addr driver_name kw_timeout m ref m' :
  DriverManager._open_resource E addr driver_name kw_timeout m = (Ok ref, m') ->
  m_instr m' = m_instr m
  /\ m_calls m' = m_calls m ++ [(addr, driver_name)]
  /\ ref = List.length (m_objects m)
  /\ exists d, m_objects m' = m_objects m ++ [d].
Proof.
  unfold DriverManager._open_resource, DriverManager.note_call,
    DriverManager.allocate, DriverManager.on_rm. unfold_monad. cbn beta.
  destruct (_parse_resource_name addr) as [info | e]; [| discriminate].
  destruct (r_type info) as [ty |]; [| discriminate].
  destruct (String.eqb ty "Visa").
  - cbn [m_rm m_instr m_objects m_calls].
    destruct (_open_visa_resource addr (m_rm m)) as [[r | e] rm'];
      [| discriminate].
    destruct (import_Driver E driver_name) as [cls | e]; [| discriminate].
    cbn. intros [= <- <-]. cbn. eauto 6.
  - destruct (import_Driver E driver_name) as [cls | e]; [| discriminate].
    cbn. intros [= <- <-]. cbn. eauto 6.
Qed.

(** C7.  [open] with a logical name.  The name is to be looked up in the
    registry, which the code reaches through the global [db]; the module
    binds no such name, so the call raises [NameError] at once, whatever the
    name and whatever the manager holds.  Nothing is resolved, opened,
    constructed or cached, and a second call with the same name raises
    again: no driver is returned the first time, and none the second. *)
Theorem open_by_name_unbound (E : externals) (name : string)
    (kw1 kw2 : option Z) (m : manager) :
  let first := DriverManager.open E (DriverManager.ByName name) kw1 m in
  first = (Raise NameError, m)
  /\ DriverManager.open E (DriverManager.ByName name) kw2 (snd first)
     = (Raise NameError, m)
  /\ DriverManager.get name (snd first) = DriverManager.get name m.
Proof. cbv zeta. repeat split. Qed.

(* ===================================================================== *)
(** ** The binary block codec *)
(* ===================================================================== *)

Section CodecFacts.

Import Codec.

(** *** Scalars and bytes *)

Lemma le_bytes_length w u : List.length (le_bytes w u) = w.
Proof. revert u. induction w as [| w IH]; intros u; cbn; [| rewrite IH]; reflexivity. Qed.

Lemma le_value_bytes w u :
  0 <= u < 256 ^ Z.of_nat w -> le_value (le_bytes w u) = u.
Proof.
  revert u. induction w as [| w IH]; intros u Hu.
  - cbn in *. lia.
  - cbn [le_bytes le_value]. rewrite IH.
    + pose proof (Z.div_mod u 256). lia.
    + rewrite Nat2Z.inj_succ, Z.pow_succ_r in Hu by lia.
      split; [apply Z.div_pos; lia |].
      apply Z.div_lt_upper_bound; lia.
Qed.

Lemma modulus_even dt : exists h, modulus dt = 2 * h /\ 0 < h.
Proof.
  unfold modulus, width.
  destruct (Pos2Nat.is_succ (dt_width dt)) as [k ->].
  rewrite Nat2Z.inj_succ, Z.pow_succ_r by lia.
  exists (128 * 256 ^ Z.of_nat k). split; [lia |].
  pose proof (Z.pow_pos_nonneg 256 (Z.of_nat k)). lia.
Qed.

Lemma pack_scalar_length dt be v :
  List.length (pack_scalar dt be v) = width dt.
Proof.
  unfold pack_scalar. destruct be; rewrite ?length_rev; apply le_bytes_length.
Qed.

Lemma unpack_pack_scalar dt be v :
  in_range dt v -> unpack_scalar dt be (pack_scalar dt be v) = v.
Proof.
  intros Hv. unfold unpack_scalar, pack_scalar.
  assert (Hbs : le_value (if be then rev (if be then rev (le_bytes (width dt) (v mod modulus dt))
                                       else le_bytes (width dt) (v mod modulus dt))
                          else (if be then rev (le_bytes (width dt) (v mod modulus dt))
                                else le_bytes (width dt) (v mod modulus dt)))
                = v mod modulus dt).
  { destruct be; rewrite ?rev_involutive; apply le_value_bytes;
      apply Z.mod_pos_bound; unfold modulus; apply Z.pow_pos_nonneg; lia. }
  rewrite Hbs. clear Hbs.
  destruct (modulus_even dt) as [h [Hm Hh]].
  unfold in_range in Hv. rewrite Hm in *.
  assert (Hdiv : 2 * h / 2 = h) by (rewrite Z.mul_comm; apply Z.div_mul; lia).
  rewrite Hdiv in *.
  destruct (dt_kind dt).
  - destruct (Z_lt_le_dec v 0) as [Hneg | Hpos].
    + assert (Hmod : v mod (2 * h) = v + 2 * h)
        by (symmetry; apply (Z.mod_unique _ _ (-1)); lia).
      rewrite Hmod. destruct (Z.ltb_spec (v + 2 * h) h); lia.
    + rewrite Z.mod_small by lia. destruct (Z.ltb_spec v h); lia.
  - apply Z.mod_small; lia.
  - apply Z.mod_small; lia.
Qed.

Lemma pack_length dt be A :
  List.length (pack dt be A) = (List.length A * width dt)%nat.
Proof.
  unfold pack. induction A as [| v A IH]; cbn; [reflexivity |].
  rewrite length_app, pack_scalar_length, IH. lia.
Qed.

Lemma unpack_items_pack dt be A :
  Forall (in_range dt) A ->
  unpack_items dt be (List.length A) (pack dt be A) = A.
Proof.
  induction 1 as [| v A Hv _ IH]; [reflexivity |].
  cbn [List.length unpack_items pack flat_map]. fold (pack dt be A).
  assert (Hhead : firstn (width dt) (pack_scalar dt be v ++ pack dt be A)
                  = pack_scalar dt be v).
  { rewrite <- (pack_scalar_length dt be v). apply take_app_length. }
  assert (Htail : skipn (width dt) (pack_scalar dt be v ++ pack dt be A)
                  = pack dt be A).
  { rewrite <- (pack_scalar_length dt be v). apply drop_app_length. }
  rewrite Hhead, Htail, IH, unpack_pack_scalar by exact Hv. reflexivity.
Qed.

Lemma width_pos dt : (0 < width dt)%nat.
Proof. unfold width. apply Pos2Nat.is_pos. Qed.

Lemma unpack_pack dt be A :
  Forall (in_range dt) A -> unpack dt be (pack dt be A) = Some A.
Proof.
  intros HA. unfold unpack. rewrite pack_length.
  pose proof (width_pos dt) as Hw.
  rewrite Nat.Div0.mod_mul, Nat.eqb_refl, Nat.div_mul by lia.
  rewrite unpack_items_pack by exact HA. reflexivity.
Qed.

End CodecFacts.

Section CodecHeader.

Import Codec.

(** *** Decimal numbers *)

Lemma number_snoc ds c : number (ds ++ [c]) = 10 * number ds + (c - 48).
Proof. unfold number. rewrite fold_left_app. reflexivity. Qed.

Lemma digits_fuel_number fuel : forall n,
  0 <= n < 10 ^ Z.of_nat fuel -> number (digits_fuel fuel n) = n.
Proof.
  induction fuel as [| f IH]; intros n Hn.
  - cbn in *. lia.
  - cbn [digits_fuel]. destruct (Z.ltb_spec n 10) as [Hlt | Hge].
    + cbn. lia.
    + rewrite number_snoc, IH.
      * pose proof (Z.div_mod n 10). lia.
      * rewrite Nat2Z.inj_succ, Z.pow_succ_r in Hn by lia.
        split; [apply Z.div_pos; lia | apply Z.div_lt_upper_bound; lia].
Qed.

Lemma digits_fuel_digits fuel : forall n,
  0 <= n -> forallb is_digit_code (digits_fuel fuel n) = true.
Proof.
  induction fuel as [| f IH]; intros n Hn; [reflexivity |].
  cbn [digits_fuel]. destruct (Z.ltb_spec n 10) as [Hlt | Hge].
  - cbn. unfold is_digit_code.
    apply andb_true_iff; split; [apply andb_true_iff; split |]; try reflexivity;
      apply Z.leb_le; lia.
  - rewrite forallb_app, IH by (apply Z.div_pos; lia). cbn.
    unfold is_digit_code. pose proof (Z.mod_pos_bound n 10).
    apply andb_true_iff; split; [apply andb_true_iff; split |]; try reflexivity;
      apply Z.leb_le; lia.
Qed.

Lemma digits_fuel_length fuel : forall n (k : nat),
  0 <= n < 10 ^ Z.of_nat k -> (List.length (digits_fuel fuel n) <= Nat.max 1 k)%nat.
Proof.
  induction fuel as [| f IH]; intros n k Hn; [cbn; lia |].
  cbn [digits_fuel]. destruct (Z.ltb_spec n 10) as [Hlt | Hge]; [cbn; lia |].
  destruct k as [| k]; [cbn in Hn; lia |].
  rewrite length_app. cbn [List.length].
  assert (Hq : 0 <= n / 10 < 10 ^ Z.of_nat k).
  { rewrite Nat2Z.inj_succ, Z.pow_succ_r in Hn by lia.
    split; [apply Z.div_pos; lia | apply Z.div_lt_upper_bound; lia]. }
  specialize (IH _ _ Hq).
  destruct k as [| k]; [cbn in Hq; lia |]. lia.
Qed.

Lemma fuel_enough n :
  0 <= n -> n < 10 ^ Z.of_nat (S (Z.to_nat (Z.log2 n))).
Proof.
  intros Hn. rewrite Nat2Z.inj_succ, Z2Nat.id by apply Z.log2_nonneg.
  destruct (Z.eq_dec n 0) as [-> | Hne]; [cbn; lia |].
  pose proof (Z.log2_spec n ltac:(lia)) as [_ Hup].
  eapply Z.lt_le_trans; [exact Hup |].
  apply Z.pow_le_mono_l. lia.
Qed.

Lemma decimal_number n : 0 <= n -> number (decimal n) = n.
Proof.
  intros Hn. apply digits_fuel_number. split; [exact Hn | apply fuel_enough, Hn].
Qed.

Lemma decimal_digits n : 0 <= n -> forallb is_digit_code (decimal n) = true.
Proof. apply digits_fuel_digits. Qed.

Lemma decimal_length n :
  0 <= n < 10 ^ 9 -> 1 <= len (decimal n) <= 9.
Proof.
  intros Hn. unfold len, decimal.
  pose proof (digits_fuel_length (S (Z.to_nat (Z.log2 n))) n 9 Hn) as Hle.
  split; [| lia].
  cbn [digits_fuel]. destruct (n <? 10); [cbn; lia |].
  rewrite length_app. cbn [List.length]. lia.
Qed.

Lemma decimal_one_digit d : 0 <= d < 10 -> decimal d = [48 + d].
Proof.
  intros Hd. unfold decimal. cbn [digits_fuel].
  destruct (Z.ltb_spec d 10); [reflexivity | lia].
Qed.

(** *** The length prefix *)

Lemma read_header_header n rest :
  0 <= n < 10 ^ 9 -> read_header (header n ++ rest) = Some (n, rest).
Proof.
  intros Hn. pose proof (decimal_length n Hn) as Hlen.
  unfold header. rewrite decimal_one_digit by lia.
  cbn [app read_header].
  assert (Hd : is_digit_code (48 + len (decimal n)) = true).
  { unfold is_digit_code. apply andb_true_iff; split; apply Z.leb_le; lia. }
  rewrite Hd.
  replace (48 + len (decimal n) - 48) with (len (decimal n)) by lia.
  unfold len. cbv zeta. rewrite !Nat2Z.id.
  rewrite take_app_length, drop_app_length, Nat.eqb_refl.
  rewrite decimal_digits, decimal_number by lia. reflexivity.
Qed.

Lemma decode_block_encode payload rest :
  len payload < 10 ^ 9 ->
  decode_block (encode_block payload ++ rest) = Some payload.
Proof.
  intros Hlen. unfold decode_block, encode_block.
  assert (Hn : 0 <= len payload < 10 ^ 9) by (unfold len in *; lia).
  rewrite <- app_assoc, read_header_header by exact Hn.
  unfold len at 2. rewrite length_app.
  destruct (Z.leb_spec (len payload) (Z.of_nat (List.length payload + List.length rest)))
    as [_ | Hbad]; [| unfold len in Hbad; lia].
  unfold len. rewrite Nat2Z.id, take_app_length. reflexivity.
Qed.

End CodecHeader.

(** C1, with the bound the format has.  For every datatype (any kind, any
    width), either byte order and every array [A] of scalars of that
    datatype whose packed payload is shorter than 10^9 bytes, decoding the
    block built from [A] gives [A] again, whatever bytes follow the block.
    Reading the header of a block gives the payload length and the payload
    from the length prefix alone: the result is the same for every content
    of the payload and of what follows it, so no byte of the payload is
    taken for a terminator. *)
Theorem block_round_trip (dt : Codec.datatype) (is_big_endian : bool)
    (A : list Z) :
  Forall (Codec.in_range dt) A ->
  Codec.len (Codec.pack dt is_big_endian A) < 10 ^ 9 ->
  (forall rest,
      Codec.decode dt is_big_endian (Codec.encode dt is_big_endian A ++ rest)
      = Some A)
  /\ Codec.decode dt is_big_endian (Codec.encode dt is_big_endian A) = Some A
  /\ (forall payload rest,
        Codec.len payload < 10 ^ 9 ->
        Codec.read_header (Codec.encode_block payload ++ rest)
        = Some (Codec.len payload, payload ++ rest)).
Proof.
  intros HA Hlen.
  assert (Hrt : forall rest,
             Codec.decode dt is_big_endian
               (Codec.encode dt is_big_endian A ++ rest) = Some A).
  { intros rest. unfold Codec.decode, Codec.encode.
    rewrite decode_block_encode by exact Hlen. apply unpack_pack, HA. }
  split; [exact Hrt |]. split.
  - rewrite <- (app_nil_r (Codec.encode dt is_big_endian A)). apply Hrt.
  - intros payload rest Hp. unfold Codec.encode_block.
    rewrite <- app_assoc. apply read_header_header.
    unfold Codec.len in *. lia.
Qed.

(* ===================================================================== *)
(** ** Instances on sample objects *)
(* ===================================================================== *)

Lemma unknown_name_is_absent_witness :
  let d := sample_driver PNone EmptyString None in
  quantities d !! "Frequency" = None
  /\ BaseDriver.getValue sample_externals "Frequency" [] d = (Ok PNone, d)
  /\ BaseDriver.setValue sample_externals "Frequency" (PInt 5) [] d
     = (Ok ReturnedSelf, d)
  /\ BaseDriver.getIndex sample_externals "Frequency" [] d = (Ok PNone, d)
  /\ BaseDriver.getCmdOption sample_externals "Frequency" [] d = (Ok PNone, d).
Proof.
  intros d.
  assert (H : quantities d !! "Frequency" = None) by (vm_compute; reflexivity).
  split; [exact H |].
  exact (unknown_name_is_absent sample_externals d "Frequency" (PInt 5) [] H).
Defined.

Lemma unregistered_label_not_sent_witness :
  let q := sample_option PNone EmptyString in
  let t := t_set_timeout 3000 (sample_handle []) in
  let d := sample_driver PNone EmptyString (Some (sample_handle [])) in
  exists r d' q',
    BaseDriver.setValue sample_externals "Output" (PStr "MAYBE") [] d = (r, d')
    /\ ins d' = Some t
    /\ quantities d' !! "Output" = Some q'
    /\ q_value q' = PStr "MAYBE"
    /\ q_options q' = sample_options.
Proof.
  intros q t d.
  pose proof (unregistered_label_not_sent sample_externals q d t "Output"
                (PStr "MAYBE") PNone []) as H.
  destruct H as (Hv & _ & H & _).
  - reflexivity.
  - vm_compute; reflexivity.
  - discriminate.
  - vm_compute; reflexivity.
  - destruct H as (r & d' & Hset & Hins & Hq & _).
    + vm_compute; reflexivity.
    + reflexivity.
    + exists r, d'. eexists. split; [exact Hset |]. split; [exact Hins |].
      split; [exact Hq |]. split; [exact Hv | reflexivity].
Defined.

Lemma unregistered_value_asymmetry_witness :
  let q := sample_option (PStr "MAYBE") EmptyString in
  QOption.getCmdOption sample_externals PNone [] (q, None)
  = (Raise KeyError, (q, None))
  /\ QOption.getIndex sample_externals PNone [] (q, None)
     = (Ok PNone, (q, None)).
Proof.
  intros q.
  refine (proj1 (unregistered_value_asymmetry sample_externals q None PNone []
                   _ _ _ _ _)).
  - reflexivity.
  - reflexivity.
  - discriminate.
  - vm_compute; reflexivity.
  - vm_compute; reflexivity.
Defined.

(** C10 fails as stated for a cached value that cannot be a dictionary key:
    with the list holding [ON] in the cache, which [setValue] stores without
    complaint and no pair carries, [getCmdOption] raises [TypeError], not
    [KeyError], while [getIndex] returns [None]. *)
Lemma unhashable_value_raises_TypeError :
  let q0 := sample_option PNone EmptyString in
  let stored := QOption.setValue sample_externals (PList [PStr "ON"]) PNone []
                  (q0, None) in
  let q := fst (snd stored) in
  fst stored = Ok tt
  /\ q_value q = PList [PStr "ON"]
  /\ registered (q_options q) (q_value q) = false
  /\ fst (QOption.getCmdOption sample_externals PNone [] (q, None))
     = Raise TypeError
  /\ fst (QOption.getCmdOption sample_externals PNone [] (q, None))
     <> Raise KeyError
  /\ fst (QOption.getIndex sample_externals PNone [] (q, None)) = Ok PNone.
Proof. cbv zeta. repeat split; vm_compute; first [reflexivity | discriminate]. Qed.

Lemma getValue_reads_cache_witness :
  let q := QReal.new "Frequency" (PInt 7) (PStr "Hz") PNone EmptyString EmptyString in
  quant_getValue sample_externals PNone [] (q, None) = (Ok (PInt 7), (q, None)).
Proof.
  intros q.
  refine (proj1 (proj2 (getValue_reads_cache sample_externals q None PNone []
                          _)) _).
  - left. reflexivity.
  - reflexivity.
Defined.

(** C2 fails as stated for the coercing classes: on an Integer quantity
    without templates and without driver, [setValue(2.5)] followed by
    [getValue()] returns the integer 2, not the value that was set. *)
Lemma integer_quantity_coerces_cache :
  let q := QInteger.new "Count" PNone PNone PNone EmptyString EmptyString in
  let after_set := snd (quant_setValue sample_externals (PFloat two_and_a_half) []
                          (q, None)) in
  q_value (fst after_set) = PFloat two_and_a_half
  /\ fst (quant_getValue sample_externals PNone [] after_set) = Ok (PInt 2)
  /\ Ok (PInt 2) <> Ok (PFloat two_and_a_half).
Proof.
  cbv zeta. split; [reflexivity |]. split; [vm_compute; reflexivity | discriminate].
Qed.

Lemma errors_drains_queue_witness :
  let t := sample_handle sample_error_replies in
  let d := sample_driver PNone EmptyString (Some t) in
  errors d
  = (Ok [(-113, "Undefined header"); (-222, "Data out of range");
         (310, "System error")],
     set_ins
       (Some (mkTransport 3000 (repeat (CQuery "SYST:ERR?") 4) [])) d).
Proof.
  intros t d.
  refine (proj2 (proj2 (errors_drains_queue d)) (t_set_timeout 3000 t)
            [(-113, "Undefined header"); (-222, "Data out of range");
             (310, "System error")] "No error" [] _ _ _ _ _).
  - discriminate.
  - vm_compute; reflexivity.
  - repeat (apply List.Forall_cons; [split; [discriminate | reflexivity] |]).
    apply List.Forall_nil.
  - reflexivity.
  - vm_compute; reflexivity.
Defined.

(** C6 fails as stated for a message that holds the separator: the entry
    with code 5 whose message is the letter a, a comma, a double quote and
    the letter b, written as code, comma and quoted message and followed by
    the zero entry, is returned with the message cut at the separator. *)
Lemma message_with_separator_cut :
  let msg := "a" +:+ comma_quote +:+ "b" in
  let t := sample_handle [entry_reply (5, msg); entry_reply (0, "No error")] in
  let d := sample_driver PNone EmptyString (Some t) in
  fst (errors d) = Ok [(5, "a")]
  /\ fst (errors d) <> Ok [(5, msg)].
Proof. cbv zeta. split; vm_compute; first [reflexivity | discriminate]. Qed.

Lemma identification_fields_witness :
  let addr := "GPIB0::12::INSTR" in
  let rm := sample_rm "ACME Instruments, Scope 9000 ,SN0042, 1.0.2" in
  _open_visa_resource addr rm
  = (Ok (mkResource None
           (Some (mkTransport 2000 [CQuery "*IDN?"] []))
           (Some "ACME Instruments") (Some "Scope 9000") (Some "1.0.2")
           None None addr),
     mkRM (rm_devices rm) [addr]).
Proof.
  intros addr rm.
  refine (proj1 (identification_fields addr rm []
                   "ACME Instruments, Scope 9000 ,SN0042, 1.0.2" _)
            "ACME Instruments" " Scope 9000 " "SN0042" " 1.0.2" [] _).
  - vm_compute; reflexivity.
  - vm_compute; reflexivity.
Defined.

(** C3 fails as stated: an identification reply with three fields makes the
    resolution fail with [IndexError], the out-of-range fault of the lookup
    of the fourth field. *)
Lemma short_identification_faults :
  fst (_open_visa_resource "GPIB0::12::INSTR" (sample_rm "ACME,Scope 9000,SN0042"))
  = Raise IndexError.
Proof. vm_compute. reflexivity. Qed.

Lemma ats_address_resolution_witness :
  ~ ats_shape "GPIB0::12::INSTR"
  /\ _parse_resource_name "GPIB0::12::INSTR"
     = Ok (mkResource (Some "Visa") None None None None None None
             "GPIB0::12::INSTR").
Proof.
  assert (H : ~ ats_shape "GPIB0::12::INSTR").
  { intros (model & system & board & suffix & newline & Hmodel & _ & _ & _ & _
            & _ & _ & Heq).
    destruct Hmodel as [-> | [-> | ->]]; discriminate Heq. }
  split; [exact H |].
  exact (proj2 (proj2 (proj2 (proj2
           (ats_address_resolution sample_externals "drivers.ats" None
              (DriverManager.new (sample_rm EmptyString))))))
           "GPIB0::12::INSTR" H).
Defined.

Lemma io_after_close_witness :
  let t := sample_handle [Reply (PList [PFloat two_and_a_half])] in
  let d := set_ins (Some t) (sample_driver PNone EmptyString None) in
  exists closed,
    close d = (Ok tt, closed)
    /\ query_ascii_values "VOLT?" "f" "," false closed
       = (Ok (PList [PFloat two_and_a_half]),
          set_ins
            (Some (mkTransport 2000 [CClose; CQueryAscii "VOLT?" "f" ","] []))
            closed)
    /\ write "OUTP ON" false closed
       = (Ok ReturnedSelf,
          set_ins (Some (mkTransport 2000 [CClose; CWrite "OUTP ON"]
                           [Reply (PList [PFloat two_and_a_half])])) closed)
    /\ used_after_close t (CWrite "OUTP ON") (snd (write "OUTP ON" true closed)).
Proof.
  intros t d.
  destruct (proj2 (io_after_close sample_externals d) t eq_refl)
    as (closed & Hclose & _ & _ & Hascii & _ & Hwrite & _ & _ & _ & _ & _
        & Hlog & _).
  exists closed. split; [exact Hclose |].
  split; [exact (Hascii "VOLT?" "f" ",") |].
  split; [exact (Hwrite "OUTP ON") | apply Hlog].
Defined.

(** C4 fails as stated: after [close], a query is neither a no-op nor a
    failure.  It goes to the handle that was closed, which receives it right
    after the [close], and returns what the handle answers. *)
Lemma query_after_close_reaches_handle :
  let t := sample_handle [Reply (PStr "1.5")] in
  let d := set_ins (Some t) (sample_driver PNone EmptyString None) in
  let closed := snd (close d) in
  fst (close d) = Ok tt
  /\ fst (query "VOLT?" false closed) = Ok (PStr "1.5")
  /\ (t_log <$> ins (snd (query "VOLT?" false closed)))
     = Some [CClose; CQuery "VOLT?"].
Proof. cbv zeta. repeat split; vm_compute; reflexivity. Qed.

Lemma block_round_trip_witness :
  Codec.encode int16 true [1; -2; 300; 10] = [35; 49; 56; 0; 1; 255; 254; 1; 44; 0; 10]
  /\ Codec.decode int16 true (Codec.encode int16 true [1; -2; 300; 10] ++ [10])
     = Some [1; -2; 300; 10].
Proof.
  split; [vm_compute; reflexivity |].
  refine (proj1 (block_round_trip int16 true [1; -2; 300; 10] _ _) [10]).
  - repeat constructor; vm_compute; intros; discriminate.
  - vm_compute; reflexivity.
Defined.

Lemma gigabyte_payload_length :
  Codec.len (Codec.pack uint8 false gigabyte_array) = 1000000000.
Proof.
  unfold Codec.len. rewrite pack_length. unfold gigabyte_array.
  rewrite repeat_length.
  change (Codec.width uint8) with 1%nat.
  rewrite Nat.mul_1_r, Z2Nat.id by lia. reflexivity.
Qed.

Lemma decode_ten_digit_header payload :
  Codec.decode uint8 false (Codec.header 1000000000 ++ payload) = Some [].
Proof.
  replace (Codec.header 1000000000)
    with [35; 49; 48; 49; 48; 48; 48; 48; 48; 48; 48; 48; 48]
    by (vm_compute; reflexivity).
  reflexivity.
Qed.

(** C1 fails as stated, for every array: a payload of 10^9 bytes has a
    length of ten digits, the count of digits takes two characters, and the
    reader, taking one, reads a length of zero.  The block built from
    [gigabyte_array] decodes to the empty array. *)
Lemma gigabyte_block_not_recovered :
  Codec.decode uint8 false (Codec.encode uint8 false gigabyte_array) = Some []
  /\ Codec.decode uint8 false (Codec.encode uint8 false gigabyte_array)
     <> Some gigabyte_array.
Proof.
  assert (H : Codec.decode uint8 false (Codec.encode uint8 false gigabyte_array)
              = Some []).
  { unfold Codec.encode, Codec.encode_block.
    rewrite gigabyte_payload_length. apply decode_ten_digit_header. }
  split; [exact H |].
  rewrite H. intros Hnil.
  assert (Hlen : Codec.len gigabyte_array = 1000000000).
  { unfold Codec.len, gigabyte_array.
    rewrite repeat_length, Z2Nat.id by discriminate. reflexivity. }
  assert (Hzero : Codec.len gigabyte_array = 0).
  { replace gigabyte_array with (@nil Z) by congruence. reflexivity. }
  rewrite Hlen in Hzero. discriminate Hzero.
Qed.

(* ===================================================================== *)
(** * Further properties of the driver layer *)
(* ===================================================================== *)

(* ===================================================================== *)
(** ** Failures of the handle and of the error queue *)
(* ===================================================================== *)

Lemma errors_loop_entries cmd es : forall e tail log,
  Forall (fun x => fst x <> 0 /\ free_of comma_quote (snd x) = true) es ->
  errors_loop cmd e (map entry_reply es ++ tail) log
  = errors_loop cmd (e ++ es) tail
      (log ++ repeat (CQuery cmd) (List.length es)).
Proof.
  induction es as [| [code msg] es IH]; intros e tail log Hes.
  - cbn [map app List.length repeat]. rewrite !app_nil_r. reflexivity.
  - apply Forall_cons in Hes as [[Hne Hfree] Hes].
    cbn [map app errors_loop entry_reply fst snd].
    rewrite (parse_entry_reply code msg Hfree).
    cbn in Hne. apply Z.eqb_neq in Hne. rewrite Hne.
    rewrite IH by exact Hes. cbn [List.length repeat].
    rewrite <- !app_assoc. reflexivity.
Qed.

(** A reply without the separator has one field only. *)
Lemma parse_reply_without_separator s :
  free_of comma_quote (drop_last s) = true ->
  parse_error_reply (PStr s)
  = match int_of_string (drop_last s) with
    | Ok _ => Raise IndexError
    | Raise x => Raise x
    end.
Proof.
  intros Hfree. unfold parse_error_reply, py_split.
  rewrite split_go_free by exact Hfree.
  change (rev_string_acc EmptyString (drop_last s)) with (drop_last s).
  destruct (int_of_string (drop_last s)); reflexivity.
Qed.

(** X1.  How [errors] fails.  After any number of well-formed entries with
    non-zero code: a reply without the separator raises [IndexError], or the
    [ValueError] of [int] when the text before is no integer; a failure of
    the handle is raised as it is; and when the replies run out the query
    times out.  In each case the entries read so far are lost with the
    exception, one query has been sent per reply asked for, and the replies
    after the failing one are still to come.  On a driver without handle
    [errors] with an error query raises [AttributeError]. *)
Theorem errors_failure_modes (d : driver) (t : transport)
    (es : list (Z * string)) :
  error_command d <> EmptyString ->
  ins d = Some t ->
  Forall (fun x => fst x <> 0 /\ free_of comma_quote (snd x) = true) es ->
  let sent := t_log t ++ repeat (CQuery (error_command d)) (S (List.length es)) in
  let left rest := set_ins (Some (mkTransport (t_timeout t) sent rest)) d in
  (forall s rest,
      t_script t = map entry_reply es ++ Reply (PStr s) :: rest ->
      free_of comma_quote (drop_last s) = true ->
      errors d
      = (match int_of_string (drop_last s) with
         | Ok _ => Raise IndexError
         | Raise x => Raise x
         end, left rest))
  /\ (forall x rest,
        t_script t = map entry_reply es ++ Fault x :: rest ->
        errors d = (Raise x, left rest))
  /\ (t_script t = map entry_reply es ->
      errors d = (Raise VisaIOError, left []))
  /\ errors (set_ins None d) = (Raise AttributeError, set_ins None d).
Proof.
  intros Hcmd Hins Hes sent left. apply String.eqb_neq in Hcmd.
  assert (Hsent : forall log,
             (log ++ repeat (CQuery (error_command d)) (List.length es))
               ++ [CQuery (error_command d)]
             = log ++ repeat (CQuery (error_command d)) (S (List.length es))).
  { intros log. rewrite <- app_assoc. f_equal.
    change [CQuery (error_command d)] with (repeat (CQuery (error_command d)) 1).
    rewrite <- repeat_app. f_equal. lia. }
  repeat split.
  - intros s rest Hscript Hfree. unfold errors.
    rewrite Hcmd, Hins, Hscript, errors_loop_entries by exact Hes.
    cbn [errors_loop]. rewrite parse_reply_without_separator by exact Hfree.
    rewrite Hsent. destruct (int_of_string (drop_last s)); reflexivity.
  - intros x rest Hscript. unfold errors.
    rewrite Hcmd, Hins, Hscript, errors_loop_entries by exact Hes.
    cbn [errors_loop]. rewrite Hsent. reflexivity.
  - intros Hscript. unfold errors.
    rewrite Hcmd, Hins, Hscript.
    rewrite <- (app_nil_r (map entry_reply es)), errors_loop_entries by exact Hes.
    cbn [errors_loop]. rewrite Hsent. reflexivity.
  - unfold errors. cbn [error_command set_ins ins]. rewrite Hcmd. reflexivity.
Qed.

Lemma errors_reads_entries d tm log es msg0 rest :
  error_command d <> EmptyString ->
  Forall (fun x => fst x <> 0 /\ free_of comma_quote (snd x) = true) es ->
  free_of comma_quote msg0 = true ->
  ins d = Some (mkTransport tm log
                  (map entry_reply es ++ entry_reply (0, msg0) :: rest)) ->
  errors d
  = (Ok es,
     set_ins (Some (mkTransport tm
                      (log ++ repeat (CQuery (error_command d))
                                (S (List.length es)))
                      rest)) d).
Proof.
  intros Hcmd Hes Hmsg0 Hins. unfold errors.
  apply String.eqb_neq in Hcmd. rewrite Hcmd, Hins.
  cbn [t_script t_log t_timeout].
  rewrite (errors_loop_drains _ (map entry_reply es) es (entry_reply (0, msg0))
             msg0 rest).
  - rewrite length_map. reflexivity.
  - apply entry_replies_read, Hes.
  - eexists. split; [reflexivity |]. apply parse_entry_reply, Hmsg0.
Qed.

Lemma set_ins_set_ins i j d : set_ins i (set_ins j d) = set_ins i d.
Proof. reflexivity. Qed.

(** X2.  A failure of the handle in [query], [query_ascii_values] or
    [query_binary_values] is raised to the caller as it is; the handle has
    received that one call and nothing else, so the check of the error
    queue, even when asked for, does not take place. *)
Theorem query_failure_propagates (d : driver) (t : transport) (x : exn)
    (rest : list reply) (check_errors : bool) :
  ins d = Some t ->
  t_script t = Fault x :: rest ->
  let after c := set_ins (Some (mkTransport (t_timeout t) (t_log t ++ [c]) rest)) d in
  (forall message,
      query message check_errors d = (Raise x, after (CQuery message)))
  /\ (forall message cv sp,
        query_ascii_values message cv sp check_errors d
        = (Raise x, after (CQueryAscii message cv sp)))
  /\ (forall message dt be hf,
        query_binary_values message dt be hf check_errors d
        = (Raise x, after (CQueryBinary message dt be hf))).
Proof.
  intros Hins Hscript after. subst after.
  unfold query, query_ascii_values, query_binary_values, on_ins, has_ins, t_query.
  unfold_monad. cbn beta. rewrite !Hins. cbn [negb]. rewrite ?Hins, !Hscript.
  repeat split.
Qed.

(** X3.  [query] and [write] with [check_errors]: after the call itself the
    error queue is drained.  With a handle that answers the query with [v]
    and then holds entries with non-zero code followed by the zero entry,
    [query] returns [v], the entries are consumed (they go to the log sink
    only) and the handle has received the message followed by one error
    query per entry and one for the zero entry.  [write] does the same
    without using up a reply for itself. *)
Theorem checked_io_drains_queue (d : driver) (t : transport) (v : pyval)
    (es : list (Z * string)) (msg0 : string) (rest : list reply)
    (message : string) :
  error_command d <> EmptyString ->
  ins d = Some t ->
  Forall (fun x => fst x <> 0 /\ free_of comma_quote (snd x) = true) es ->
  free_of comma_quote msg0 = true ->
  let queue := map entry_reply es ++ entry_reply (0, msg0) :: rest in
  let after c :=
    set_ins
      (Some (mkTransport (t_timeout t)
               ((t_log t ++ [c])
                  ++ repeat (CQuery (error_command d)) (S (List.length es)))
               rest)) d in
  (t_script t = Reply v :: queue ->
   query message true d = (Ok v, after (CQuery message)))
  /\ (t_script t = queue ->
      write message true d = (Ok ReturnedSelf, after (CWrite message))).
Proof.
  intros Hcmd Hins Hes Hmsg0 queue after. subst queue after. split.
  - intros Hscript.
    unfold query, on_ins, has_ins, t_query, check_errors_and_log.
    unfold_monad. cbn beta. rewrite !Hins. cbn [negb]. rewrite ?Hins, Hscript.
    cbn [t_record t_log t_timeout t_script].
    erewrite errors_reads_entries; [| exact Hcmd | exact Hes | exact Hmsg0 | reflexivity].
    reflexivity.
  - intros Hscript.
    unfold write, on_ins, has_ins, t_send, t_record, check_errors_and_log.
    unfold_monad. cbn beta. rewrite !Hins. cbn [negb]. rewrite ?Hins, Hscript.
    erewrite errors_reads_entries; [| exact Hcmd | exact Hes | exact Hmsg0 | reflexivity].
    reflexivity.
Qed.

(* ===================================================================== *)
(** ** Quantities that talk to the device *)
(* ===================================================================== *)

Lemma write_sent message d t :
  ins d = Some t ->
  write message false d
  = (Ok ReturnedSelf, set_ins (Some (t_record (CWrite message) t)) d).
Proof.
  intros Hins. unfold write, on_ins, has_ins, t_send. unfold_monad. cbn beta.
  rewrite !Hins. cbn [negb]. rewrite ?Hins. reflexivity.
Qed.

Lemma write_without_handle message d :
  ins d = None -> write message false d = (Ok ReturnedNone, d).
Proof.
  intros Hins. unfold write, has_ins. unfold_monad. cbn beta.
  rewrite Hins. reflexivity.
Qed.

Lemma query_answered message d t v rest :
  ins d = Some t ->
  t_script t = Reply v :: rest ->
  query message false d
  = (Ok v,
     set_ins (Some (mkTransport (t_timeout t) (t_log t ++ [CQuery message]) rest)) d).
Proof.
  intros Hins Hscript. rewrite (query_forwarded _ _ _ Hins).
  unfold t_query. rewrite Hscript. reflexivity.
Qed.

Lemma query_ascii_answered message cv sp d t v rest n :
  ins d = Some t ->
  t_script t = Reply v :: rest ->
  py_len v = Ok n ->
  query_ascii_values message cv sp false d
  = (Ok v,
     set_ins (Some (mkTransport (t_timeout t)
                      (t_log t ++ [CQueryAscii message cv sp]) rest)) d).
Proof.
  intros Hins Hscript Hlen.
  unfold query_ascii_values, on_ins, has_ins, t_query. unfold_monad. cbn beta.
  rewrite !Hins. cbn [negb]. rewrite ?Hins, Hscript, Hlen. reflexivity.
Qed.

Lemma query_binary_answered message dt be hf d t v rest n :
  ins d = Some t ->
  t_script t = Reply v :: rest ->
  py_len v = Ok n ->
  query_binary_values message dt be hf false d
  = (Ok v,
     set_ins (Some (mkTransport (t_timeout t)
                      (t_log t ++ [CQueryBinary message dt be hf]) rest)) d).
Proof.
  intros Hins Hscript Hlen.
  unfold query_binary_values, on_ins, has_ins, t_query. unfold_monad. cbn beta.
  rewrite !Hins. cbn [negb]. rewrite ?Hins, Hscript, Hlen. reflexivity.
Qed.

(** X4.  [Quantity.setValue] on a quantity attached to a driver with a
    handle and having a set template: the value is stored first; the
    template is then formatted with [value], [unit] and [ch] (each defaulting
    to the attribute of the quantity) and the extra keywords.  When the
    formatting succeeds exactly one [write] with the command reaches the
    handle; when it raises, the exception goes to the caller, nothing is
    sent, and the cache holds the new value all the same. *)
Theorem setValue_sends_formatted_command (E : externals) (q : quantity)
    (d : driver) (t : transport) (value unit' ch : pyval) (kw : kwargs) :
  ins d = Some t ->
  q_set_cmd q <> EmptyString ->
  let mapping :=
    ("value", value) :: ("unit", or_default unit' (q_unit q))
      :: ("ch", or_default ch (q_ch q)) :: kw in
  (forall cmd,
      py_format E (q_set_cmd q) mapping = Ok cmd ->
      Quantity.setValue E value unit' ch kw (q, Some d)
      = (Ok tt,
         (set_q_value value q,
          Some (set_ins (Some (t_record (CWrite cmd) t)) d))))
  /\ (forall x,
        py_format E (q_set_cmd q) mapping = Raise x ->
        Quantity.setValue E value unit' ch kw (q, Some d)
        = (Raise x, (set_q_value value q, Some d))).
Proof.
  intros Hins Hcmd mapping. subst mapping.
  unfold Quantity.setValue, Quantity._formatSetCmd, assign_value, on_driver.
  unfold_monad. cbn [fst snd].
  rewrite q_set_cmd_set_value, can_io_attached by exact Hcmd.
  split.
  - intros cmd Hfmt. cbn [q_ch q_unit q_set_cmd set_q_value fst snd] in *.
    rewrite Hfmt. cbn [fst snd]. rewrite (write_sent _ _ _ Hins). reflexivity.
  - intros x Hfmt. cbn [q_ch q_unit q_set_cmd set_q_value fst snd] in *.
    rewrite Hfmt. reflexivity.
Qed.

(** The last pair carrying the label decides what the dictionary holds. *)
Lemma dict_get_last options pre l code post value :
  options = pre ++ (l, code) :: post ->
  py_eqb l value = true ->
  registered post value = false ->
  dict_get options value = Some code.
Proof.
  intros -> Hl Hpost. induction pre as [| [k v] pre IH]; cbn.
  - rewrite (dict_get_unregistered _ _ Hpost), Hl. reflexivity.
  - rewrite IH. reflexivity.
Qed.

(** X5.  [QOption.setValue] with a registered label, on an option quantity
    attached to a driver with a handle and having a set template: the value
    is stored and exactly one [write] reaches the handle, the template
    formatted with [option] bound to the device code of the label and [ch].
    When several pairs carry the label the last one gives the code.  An
    extra keyword called [option] makes the call fail with [TypeError]
    before anything is sent. *)
Theorem option_setValue_sends_code (E : externals) (q : quantity)
    (d : driver) (t : transport) (value ch : pyval) (kw : kwargs)
    (pre post : list (pyval * pyval)) (label code : pyval) :
  ins d = Some t ->
  q_set_cmd q <> EmptyString ->
  forallb (fun p => hashable (fst p)) (q_options q) = true ->
  hashable value = true ->
  q_options q = pre ++ (label, code) :: post ->
  py_eqb label value = true ->
  registered post value = false ->
  (forall cmd,
      kw_get "option" kw = None ->
      py_format E (q_set_cmd q)
        (("option", code) :: ("ch", or_default ch (q_ch q)) :: kw) = Ok cmd ->
      QOption.setValue E value ch kw (q, Some d)
      = (Ok tt,
         (set_q_value value q,
          Some (set_ins (Some (t_record (CWrite cmd) t)) d))))
  /\ (forall v,
        kw_get "option" kw = Some v ->
        QOption.setValue E value ch kw (q, Some d)
        = (Raise TypeError, (set_q_value value q, Some d))).
Proof.
  intros Hins Hcmd Hlabels Hvalue Hopts Hl Hpost.
  pose proof (dict_get_last _ _ _ _ _ _ Hopts Hl Hpost) as Hget.
  unfold QOption.setValue, assign_value, on_driver, py_dict.
  unfold_monad. cbn [fst snd].
  rewrite q_set_cmd_set_value, can_io_attached by exact Hcmd.
  rewrite q_options_set_value, Hlabels. cbn [fst snd].
  rewrite Hvalue. cbn [negb]. rewrite Hget.
  split.
  - intros cmd Hkw Hfmt. rewrite Hkw.
    cbn [q_ch q_set_cmd set_q_value fst snd] in *.
    rewrite Hfmt. cbn [fst snd]. rewrite (write_sent _ _ _ Hins). reflexivity.
  - intros v Hkw. rewrite Hkw. reflexivity.
Qed.

Lemma or_default_idem x dflt : or_default (or_default x dflt) dflt = or_default x dflt.
Proof. destruct x; try reflexivity. destruct dflt; reflexivity. Qed.

Lemma QReal_getValue_device (E : externals) q d t ch kw cmd res rest n v :
  ins d = Some t ->
  q_get_cmd q <> EmptyString ->
  py_format E (q_get_cmd q) (("ch", or_default ch (q_ch q)) :: kw) = Ok cmd ->
  t_script t = Reply res :: rest ->
  py_len res = Ok n ->
  py_first res = Ok v ->
  QReal.getValue E ch kw (q, Some d)
  = (Ok v, (set_q_value v q, Some (answered (CQueryAscii cmd "f" ",") t rest d))).
Proof.
  intros Hins Hcmd Hfmt Hscript Hlen Hfirst.
  unfold QReal.getValue, Quantity._formatGetCmd, assign_value, on_driver, self_value.
  unfold_monad. cbn [fst snd].
  rewrite can_io_attached by exact Hcmd. cbn beta iota. cbn [fst snd]. rewrite Hfmt. cbn [fst snd].
  rewrite (query_ascii_answered _ _ _ _ _ _ _ _ Hins Hscript Hlen).
  rewrite Hfirst. reflexivity.
Qed.

(** X6.  Reading a Real, Integer or Bool quantity from the device.  With a
    handle, a get template that formats to [cmd], and a reply that is a
    sequence starting with [v]: exactly one ascii-values query with [cmd]
    reaches the handle and [v] is stored in the cache as it came.  A Real
    quantity returns [v]; an Integer quantity returns [int(v)] and a Bool
    quantity [bool(int(v))], the cache still holding [v] itself. *)
Theorem numeric_getValue_from_device (E : externals) (q : quantity)
    (d : driver) (t : transport) (ch : pyval) (kw : kwargs) (cmd : string)
    (res v : pyval) (rest : list reply) (n : Z) :
  numeric_class (q_class q) = true ->
  ins d = Some t ->
  q_get_cmd q <> EmptyString ->
  py_format E (q_get_cmd q) (("ch", or_default ch (q_ch q)) :: kw) = Ok cmd ->
  t_script t = Reply res :: rest ->
  py_len res = Ok n ->
  py_first res = Ok v ->
  quant_getValue E ch kw (q, Some d)
  = (from_cache (q_class q) v,
     (set_q_value v q, Some (answered (CQueryAscii cmd "f" ",") t rest d))).
Proof.
  intros Hcls Hins Hcmd Hfmt Hscript Hlen Hfirst.
  assert (HR : forall ch',
             or_default ch' (q_ch q) = or_default ch (q_ch q) ->
             QReal.getValue E ch' kw (q, Some d)
             = (Ok v, (set_q_value v q,
                       Some (answered (CQueryAscii cmd "f" ",") t rest d)))).
  { intros ch' Hch. eapply QReal_getValue_device; eauto. rewrite Hch. exact Hfmt. }
  unfold quant_getValue, from_cache. cbn [fst snd].
  destruct (q_class q); try discriminate.
  - apply HR. reflexivity.
  - unfold QInteger.getValue. unfold_monad. cbn [fst snd].
    rewrite HR by apply or_default_idem.
    unfold self_value. cbn [fst snd q_value set_q_value].
    destruct (py_int v); reflexivity.
  - unfold QBool.getValue, QInteger.getValue. unfold_monad. cbn [fst snd].
    rewrite HR by (rewrite !or_default_idem; reflexivity).
    unfold self_value. cbn [fst snd q_value set_q_value].
    destruct (py_int v); reflexivity.
Qed.

(** *** Stripping *)

Lemma lstrip_all p pre s :
  none_is (fun c => negb (p c)) pre = true ->
  lstrip_by p (pre +:+ s) = lstrip_by p s.
Proof.
  induction pre as [| c pre IH]; [reflexivity |]. cbn [none_is].
  intros H. apply andb_true_iff in H as [Hc Hpre].
  rewrite negb_involutive in Hc. rewrite append_cons. cbn [lstrip_by].
  rewrite Hc. apply IH, Hpre.
Qed.

Lemma rstrip_all p post :
  none_is (fun c => negb (p c)) post = true -> rstrip_by p post = EmptyString.
Proof.
  induction post as [| c post IH]; [reflexivity |]. cbn [none_is].
  intros H. apply andb_true_iff in H as [Hc Hpost].
  rewrite negb_involutive in Hc. cbn [rstrip_by]. rewrite (IH Hpost), Hc.
  reflexivity.
Qed.

Lemma rstrip_append p s post :
  rstrip_by p post = EmptyString ->
  rstrip_by p (s +:+ post) = rstrip_by p s.
Proof.
  intros Hpost. induction s as [| c s IH]; [exact Hpost |].
  rewrite append_cons. cbn [rstrip_by]. rewrite IH. reflexivity.
Qed.

Lemma rstrip_idem p s : rstrip_by p (rstrip_by p s) = rstrip_by p s.
Proof.
  induction s as [| c s IH]; [reflexivity |]. cbn [rstrip_by].
  destruct (rstrip_by p s) as [| c' r] eqn:Hr.
  - destruct (p c) eqn:Hc; [reflexivity |]. cbn [rstrip_by]. rewrite Hc. reflexivity.
  - cbn [rstrip_by] in IH |- *. rewrite IH. reflexivity.
Qed.

(** A stripped text is empty or starts with a character that stays. *)
Lemma strip_head p s :
  strip_by p s = EmptyString
  \/ exists c r, strip_by p s = String c r /\ p c = false.
Proof.
  unfold strip_by.
  assert (Hl : lstrip_by p s = EmptyString
               \/ exists c r, lstrip_by p s = String c r /\ p c = false).
  { induction s as [| c s IH]; [left; reflexivity |]. cbn [lstrip_by].
    destruct (p c) eqn:Hc; [exact IH | right; eauto]. }
  destruct Hl as [-> | (c & r & -> & Hc)]; [left; reflexivity |].
  right. cbn [rstrip_by]. destruct (rstrip_by p r).
  - rewrite Hc. eauto.
  - eauto.
Qed.

(** Wrapping an already stripped text in characters to strip, and stripping,
    gives the text back. *)
Lemma strip_wrapped p pre s post :
  none_is (fun c => negb (p c)) pre = true ->
  none_is (fun c => negb (p c)) post = true ->
  strip_by p (pre +:+ strip_by p s +:+ post) = strip_by p s.
Proof.
  intros Hpre Hpost. unfold strip_by at 1. rewrite lstrip_all by exact Hpre.
  destruct (strip_head p s) as [-> | (c & r & Heq & Hc)].
  - change (EmptyString +:+ post) with post.
    assert (Hl : lstrip_by p post = EmptyString).
    { rewrite <- (append_empty_r post), lstrip_all by exact Hpost. reflexivity. }
    rewrite Hl. reflexivity.
  - rewrite Heq, append_cons. cbn [lstrip_by]. rewrite Hc.
    rewrite <- append_cons, <- Heq.
    rewrite rstrip_append by (apply rstrip_all, Hpost).
    unfold strip_by. apply rstrip_idem.
Qed.

(** X7.  Reading a String or Option quantity from the device.  With a
    handle, a get template that formats to [cmd], and a reply that is a
    text: exactly one [query] with [cmd] reaches the handle, and the text
    without the newlines, quotes and spaces around it is stored and
    returned; for a reply made of an already stripped text wrapped in such
    characters, that is the text.  A reply that is not a text raises
    [AttributeError] after the query and leaves the cache as it was. *)
Theorem string_getValue_from_device (E : externals) (q : quantity)
    (d : driver) (t : transport) (ch : pyval) (kw : kwargs) (cmd : string)
    (res : pyval) (rest : list reply) :
  string_class (q_class q) = true ->
  ins d = Some t ->
  q_get_cmd q <> EmptyString ->
  py_format E (q_get_cmd q) (("ch", or_default ch (q_ch q)) :: kw) = Ok cmd ->
  t_script t = Reply res :: rest ->
  (forall text,
      res = PStr text ->
      let v := PStr (py_strip_chars QString.strip_chars text) in
      quant_getValue E ch kw (q, Some d)
      = (Ok v, (set_q_value v q, Some (answered (CQuery cmd) t rest d))))
  /\ ((forall text, res <> PStr text) ->
      quant_getValue E ch kw (q, Some d)
      = (Raise AttributeError, (q, Some (answered (CQuery cmd) t rest d))))
  /\ (forall pre body post,
        none_is (fun c => negb (mem_char c QString.strip_chars)) pre = true ->
        none_is (fun c => negb (mem_char c QString.strip_chars)) post = true ->
        py_strip_chars QString.strip_chars
          (pre +:+ py_strip_chars QString.strip_chars body +:+ post)
        = py_strip_chars QString.strip_chars body).
Proof.
  intros Hcls Hins Hcmd Hfmt Hscript.
  assert (Hget : quant_getValue E ch kw (q, Some d)
                 = QString.getValue E ch kw (q, Some d)).
  { unfold quant_getValue. cbn [fst]. destruct (q_class q); try discriminate; reflexivity. }
  rewrite Hget. clear Hget.
  unfold QString.getValue, Quantity._formatGetCmd, assign_value, on_driver, self_value.
  unfold_monad. cbn [fst snd].
  rewrite can_io_attached by exact Hcmd. cbn beta iota. cbn [fst snd].
  rewrite Hfmt. cbn [fst snd].
  rewrite (query_answered _ _ _ _ _ Hins Hscript).
  split; [| split].
  - intros text ->. reflexivity.
  - intros Hres. destruct res; try reflexivity. contradiction (Hres s). reflexivity.
  - intros pre body post Hpre Hpost. unfold py_strip_chars.
    apply strip_wrapped; assumption.
Qed.

(** X8.  Reading a Vector quantity from the device: the keyword [binary]
    chooses the transfer.  With a true [binary], one binary-values query
    (datatype [f], little-endian, IEEE header) reaches the handle; otherwise,
    and without the keyword, one ascii-values query.  The reply, a sequence,
    is stored whole and returned. *)
Theorem vector_getValue_from_device (E : externals) (q : quantity)
    (d : driver) (t : transport) (ch : pyval) (kw : kwargs) (cmd : string)
    (res : pyval) (rest : list reply) (n : Z) :
  q_class q = QVector ->
  ins d = Some t ->
  q_get_cmd q <> EmptyString ->
  py_format E (q_get_cmd q) (("ch", or_default ch (q_ch q)) :: kw) = Ok cmd ->
  t_script t = Reply res :: rest ->
  py_len res = Ok n ->
  let c := if py_truth (default PNone (kw_get "binary" kw))
           then CQueryBinary cmd "f" false "ieee"
           else CQueryAscii cmd "f" "," in
  quant_getValue E ch kw (q, Some d)
  = (Ok (QVector.asarray res),
     (set_q_value (QVector.asarray res) q, Some (answered c t rest d))).
Proof.
  intros Hcls Hins Hcmd Hfmt Hscript Hlen c. subst c.
  unfold quant_getValue. cbn [fst]. rewrite Hcls.
  unfold QVector.getValue, Quantity._formatGetCmd, assign_value, on_driver, self_value.
  unfold_monad. cbn [fst snd].
  rewrite can_io_attached by exact Hcmd. cbn beta iota. cbn [fst snd].
  rewrite Hfmt. cbn [fst snd].
  destruct (py_truth _); cbn beta iota; cbn [fst snd].
  - rewrite (query_binary_answered _ _ _ _ _ _ _ _ _ Hins Hscript Hlen). reflexivity.
  - rewrite (query_ascii_answered _ _ _ _ _ _ _ _ Hins Hscript Hlen). reflexivity.
Qed.

(** X9.  A quantity with templates owned by a driver that has no handle.
    [Quantity.setValue] formats the command but the driver's [write] is a
    no-op, so only the cache changes.  [getValue] formats the command, gets
    [None] from the driver and then fails on it: with [TypeError] for Real,
    Integer and Bool quantities (indexing [None]), with [AttributeError] for
    String and Option quantities ([None] has no [strip]); quantity and
    driver are left as they were. *)
Theorem templates_without_handle (E : externals) (q : quantity) (d : driver)
    (ch : pyval) (kw : kwargs) :
  ins d = None ->
  (forall value unit' cmd,
      q_set_cmd q <> EmptyString ->
      py_format E (q_set_cmd q)
        (("value", value) :: ("unit", or_default unit' (q_unit q))
           :: ("ch", or_default ch (q_ch q)) :: kw) = Ok cmd ->
      Quantity.setValue E value unit' ch kw (q, Some d)
      = (Ok tt, (set_q_value value q, Some d)))
  /\ (forall cmd,
        q_get_cmd q <> EmptyString ->
        py_format E (q_get_cmd q) (("ch", or_default ch (q_ch q)) :: kw) = Ok cmd ->
        (numeric_class (q_class q) = true ->
         quant_getValue E ch kw (q, Some d) = (Raise TypeError, (q, Some d)))
        /\ (string_class (q_class q) = true ->
            quant_getValue E ch kw (q, Some d)
            = (Raise AttributeError, (q, Some d)))).
Proof.
  intros Hins. split.
  - intros value unit' cmd Hcmd Hfmt.
    unfold Quantity.setValue, Quantity._formatSetCmd, assign_value, on_driver.
    unfold_monad. cbn [fst snd].
    rewrite q_set_cmd_set_value, can_io_attached by exact Hcmd.
    cbn beta iota. cbn [q_ch q_unit q_set_cmd set_q_value fst snd] in *.
    rewrite Hfmt. cbn [fst snd]. rewrite (write_without_handle _ _ Hins).
    destruct d; reflexivity.
  - intros cmd Hcmd Hfmt.
    assert (Hq : forall m cv sp,
               query m false d = (Ok PNone, d)
               /\ query_ascii_values m cv sp false d = (Ok PNone, d)).
    { intros m cv sp. unfold query, query_ascii_values, has_ins. unfold_monad.
      cbn beta. rewrite Hins. split; reflexivity. }
    assert (HR : forall ch',
               or_default ch' (q_ch q) = or_default ch (q_ch q) ->
               QReal.getValue E ch' kw (q, Some d) = (Raise TypeError, (q, Some d))).
    { intros ch' Hch.
      unfold QReal.getValue, Quantity._formatGetCmd, assign_value, on_driver, self_value.
      unfold_monad. cbn [fst snd].
      rewrite can_io_attached by exact Hcmd. cbn beta iota. cbn [fst snd].
      rewrite Hch, Hfmt. cbn [fst snd].
      rewrite (proj2 (Hq _ _ _)). reflexivity. }
    split.
    + intros Hcls. unfold quant_getValue. cbn [fst].
      destruct (q_class q); try discriminate.
      * apply HR. reflexivity.
      * unfold QInteger.getValue. unfold_monad. cbn [fst snd].
        rewrite HR by apply or_default_idem. reflexivity.
      * unfold QBool.getValue, QInteger.getValue. unfold_monad. cbn [fst snd].
        rewrite HR by (rewrite !or_default_idem; reflexivity). reflexivity.
    + intros Hcls.
      assert (Hget : quant_getValue E ch kw (q, Some d)
                     = QString.getValue E ch kw (q, Some d)).
      { unfold quant_getValue. cbn [fst].
        destruct (q_class q); try discriminate; reflexivity. }
      rewrite Hget.
      unfold QString.getValue, Quantity._formatGetCmd, assign_value, on_driver,
        self_value.
      unfold_monad. cbn [fst snd].
      rewrite can_io_attached by exact Hcmd. cbn beta iota. cbn [fst snd].
      rewrite Hfmt. cbn [fst snd].
      rewrite (proj1 (Hq _ EmptyString EmptyString)). reflexivity.
Qed.

(* ===================================================================== *)
(** ** The driver and its quantities *)
(* ===================================================================== *)

(** X10.  Setting and getting by name on the driver.  For a quantity the
    driver owns and that has no templates, and keywords none of which is
    called [quant]: [setValue(name, x)] stores [x] in the driver's own copy
    and returns the driver; a following [getValue(name)] returns [x]
    (coerced for Integer and Bool quantities) and changes nothing.  Neither
    reaches the handle, and every other quantity of the driver is as before.
    A keyword [quant] clashes with the parameter of [performSetValue] and
    [performGetValue]: the call raises [TypeError] and leaves the driver as
    it was. *)
Theorem driver_set_then_get (E : externals) (d : driver) (name : string)
    (q : quantity) (x : pyval) (set_kw get_kw : kwargs) :
  quantities d !! name = Some q ->
  q_set_cmd q = EmptyString ->
  q_get_cmd q = EmptyString ->
  let d1 := set_quantities (<[name := set_q_value x q]> (quantities d)) d in
  (kw_get "quant" set_kw = None ->
   BaseDriver.setValue E name x set_kw d = (Ok ReturnedSelf, d1))
  /\ (kw_get "quant" get_kw = None ->
      BaseDriver.getValue E name get_kw d1 = (from_cache (q_class q) x, d1))
  /\ ins d1 = ins d
  /\ (forall other, other <> name ->
        quantities d1 !! other = quantities d !! other)
  /\ (forall v, kw_get "quant" set_kw = Some v ->
        BaseDriver.setValue E name x set_kw d = (Raise TypeError, d))
  /\ (forall v, kw_get "quant" get_kw = Some v ->
        BaseDriver.getValue E name get_kw d = (Raise TypeError, d)).
Proof.
  intros Hq Hset Hget d1. subst d1.
  split; [| split; [| split; [| split; [| split]]]].
  - intros Hkw.
    unfold BaseDriver.setValue, BaseDriver.performSetValue, BaseDriver.on_quantity.
    rewrite Hq, Hkw, quant_setValue_cache_only by (right; exact Hset).
    reflexivity.
  - intros Hkw. unfold BaseDriver.getValue, BaseDriver.performGetValue.
    cbn [quantities set_quantities]. rewrite lookup_insert_eq, Hkw.
    apply on_quantity_unchanged.
    + cbn [quantities set_quantities]. apply lookup_insert_eq.
    + rewrite quant_getValue_cached by (left; exact Hget). reflexivity.
  - reflexivity.
  - intros other Hne. cbn [quantities set_quantities].
    apply lookup_insert_ne. congruence.
  - intros v Hkw. unfold BaseDriver.setValue, BaseDriver.performSetValue.
    rewrite Hq, Hkw. reflexivity.
  - intros v Hkw. unfold BaseDriver.getValue, BaseDriver.performGetValue.
    rewrite Hq, Hkw. reflexivity.
Qed.

Lemma fold_add_quant qs : forall d,
  fold_left (fun d q => BaseDriver._add_quant q d) qs d
  = set_quantities
      (fold_left (fun m q => <[q_name q := q]> m) qs (quantities d)) d.
Proof.
  induction qs as [| q qs IH]; intros d; cbn [fold_left].
  - symmetry. apply set_quantities_same.
  - rewrite IH. destruct d; reflexivity.
Qed.

Lemma fold_insert_absent (qs : list quantity) name : forall m : gmap string quantity,
  (forall q, In q qs -> q_name q <> name) ->
  fold_left (fun m q => <[q_name q := q]> m) qs m !! name = m !! name.
Proof.
  induction qs as [| q qs IH]; intros m Hqs; [reflexivity |].
  cbn [fold_left]. rewrite IH by (intros q' Hq'; apply Hqs; right; exact Hq').
  apply lookup_insert_ne, Hqs. left. reflexivity.
Qed.

(** X11.  What the constructor leaves in a driver.  Every template of the
    class is stored under its name, a later template replacing an earlier
    one of the same name; a name that no template carries is absent.  The
    handle, when there is one, has its timeout set to the driver's timeout
    in milliseconds and is otherwise as given. *)
Theorem constructor_registers_quantities (cls : driver_class)
    (handle : option transport) (addr model : pyval) (tmo : Z) :
  let d := BaseDriver.new cls handle addr model tmo in
  (forall name,
      (forall q, In q (dc_quants cls) -> q_name q <> name) ->
      quantities d !! name = None)
  /\ (forall pre q post,
        dc_quants cls = pre ++ q :: post ->
        (forall q', In q' post -> q_name q' <> q_name q) ->
        quantities d !! q_name q = Some q)
  /\ ins d = t_set_timeout (tmo * 1000) <$> handle
  /\ timeout d = tmo
  /\ error_command d = dc_error_command cls.
Proof.
  intros d. subst d. unfold BaseDriver.new. rewrite fold_add_quant.
  cbn [quantities set_quantities ins timeout error_command].
  repeat split.
  - intros name Hname. rewrite fold_insert_absent by exact Hname.
    apply lookup_empty.
  - intros pre q post -> Hpost. rewrite fold_left_app. cbn [fold_left].
    rewrite fold_insert_absent by exact Hpost. apply lookup_insert_eq.
Qed.

(** X12.  [set_timeout] overrides the timeout given at construction:
    setting [t] on a driver constructed with any timeout gives the driver
    constructed with [t], and a second [set_timeout] makes the first
    forgotten.  The log and the replies of the handle, and the quantities,
    are not touched. *)
Theorem set_timeout_overrides (cls : driver_class) (handle : option transport)
    (address name : pyval) (t0 t1 t2 : Z) (d : driver) :
  set_timeout t1 (BaseDriver.new cls handle address name t0)
  = (Ok ReturnedSelf, BaseDriver.new cls handle address name t1)
  /\ set_timeout t2 (snd (set_timeout t1 d)) = set_timeout t2 d
  /\ quantities (snd (set_timeout t1 d)) = quantities d
  /\ (t_log <$> ins (snd (set_timeout t1 d))) = (t_log <$> ins d)
  /\ (t_script <$> ins (snd (set_timeout t1 d))) = (t_script <$> ins d).
Proof.
  repeat split.
  - unfold BaseDriver.new, set_timeout. rewrite !fold_add_quant.
    cbn [quantities set_quantities ins timeout error_command addr model].
    destruct handle; reflexivity.
  - unfold set_timeout. cbn. destruct (ins d); reflexivity.
  - cbn. destruct (ins d); reflexivity.
  - cbn. destruct (ins d); reflexivity.
Qed.

(* ===================================================================== *)
(** ** Bulk configuration *)
(* ===================================================================== *)

Lemma alter_as_insert (f : quantity -> quantity) (qs : gmap string quantity) key :
  alter f key qs
  = match qs !! key with
    | Some q => <[key := f q]> qs
    | None => qs
    end.
Proof.
  apply map_eq. intros j. rewrite lookup_alter.
  destruct (decide (key = j)) as [-> | Hne].
  - destruct (qs !! j) eqn:Hj; cbn; [rewrite lookup_insert_eq | rewrite Hj]; reflexivity.
  - destruct (qs !! key); [rewrite lookup_insert_ne by exact Hne |]; reflexivity.
Qed.

Lemma kw_get_del_ne k k' kw :
  k <> k' -> kw_get k (kw_del k' kw) = kw_get k kw.
Proof.
  intros Hne. induction kw as [| [k0 v0] kw IH]; [reflexivity |].
  cbn [kw_del kw_get]. destruct (String.eqb_spec k' k0) as [<- | Hk'].
  - rewrite IH. apply String.eqb_neq in Hne. rewrite Hne. reflexivity.
  - cbn [kw_get]. rewrite IH. reflexivity.
Qed.

Lemma setValue_cache_only (E : externals) d key v kw :
  (forall q, quantities d !! key = Some q -> q_set_cmd q = EmptyString) ->
  kw_get "quant" kw = None ->
  BaseDriver.setValue E key v kw d
  = (Ok ReturnedSelf,
     set_quantities (alter (set_q_value v) key (quantities d)) d).
Proof.
  intros Hfree Hkw. rewrite alter_as_insert.
  unfold BaseDriver.setValue, BaseDriver.performSetValue, BaseDriver.on_quantity.
  destruct (quantities d !! key) as [q |] eqn:Hq.
  - rewrite Hkw, quant_setValue_cache_only by (right; apply Hfree; reflexivity).
    reflexivity.
  - rewrite set_quantities_same. reflexivity.
Qed.

Lemma init_step_value (E : externals) key item v :
  item_value item = Some v ->
  (match item with
   | CfgDict kw => setValue_kw E key kw
   | CfgValue value => BaseDriver.setValue E key value []
   end) = BaseDriver.setValue E key v (item_keywords item).
Proof.
  destruct item as [v' | kw]; cbn [item_value item_keywords].
  - intros [= ->]. reflexivity.
  - unfold setValue_kw. destruct (kw_get "self" kw); [discriminate |].
    destruct (kw_get "name" kw); [discriminate |].
    intros ->. reflexivity.
Qed.

Lemma init_loop_cache_only (E : externals) cfg : forall d,
  (forall name q, quantities d !! name = Some q -> q_set_cmd q = EmptyString) ->
  (forall entry, In entry cfg ->
     item_value (snd entry) <> None
     /\ kw_get "quant" (item_keywords (snd entry)) = None) ->
  init_loop E cfg d
  = (Ok tt, set_quantities (fold_left cache_item cfg (quantities d)) d).
Proof.
  induction cfg as [| [key item] cfg IH]; intros d Hfree Hwf.
  - cbn. rewrite set_quantities_same. reflexivity.
  - destruct (Hwf (key, item) (or_introl eq_refl)) as [Hitem Hquant].
    cbn [snd] in Hitem, Hquant.
    destruct (item_value item) as [v |] eqn:Hv; [| contradiction].
    cbn [init_loop fold_left]. unfold bind.
    rewrite (init_step_value E key item v Hv).
    rewrite setValue_cache_only by (first [apply Hfree | exact Hquant]).
    assert (Hc : cache_item (quantities d) (key, item)
                 = alter (set_q_value v) key (quantities d))
      by (unfold cache_item; cbn [fst snd]; rewrite Hv; reflexivity).
    rewrite IH.
    + rewrite Hc. reflexivity.
    + intros name q. cbn [quantities set_quantities]. rewrite lookup_alter.
      destruct (decide (key = name)) as [<- | _]; [| apply Hfree].
      destruct (quantities d !! key) as [q0 |] eqn:Hq0; [| discriminate].
      intros [= <-]. apply (Hfree key q0 Hq0).
    + intros entry Hentry. apply Hwf. right. exact Hentry.
Qed.

Lemma fold_cache_item_other cfg key : forall qs,
  ~ In key (map fst cfg) ->
  fold_left cache_item cfg qs !! key = qs !! key.
Proof.
  induction cfg as [| [k item] cfg IH]; intros qs Hkey; [reflexivity |].
  cbn [fold_left]. rewrite IH by (intros H; apply Hkey; right; exact H).
  unfold cache_item. cbn [fst snd].
  destruct (item_value item); [| reflexivity].
  apply lookup_alter_ne. intros ->. apply Hkey. left. reflexivity.
Qed.

Lemma fold_cache_item_key cfg : forall qs key item v,
  NoDup (map fst cfg) ->
  In (key, item) cfg ->
  item_value item = Some v ->
  fold_left cache_item cfg qs !! key = set_q_value v <$> qs !! key.
Proof.
  induction cfg as [| [k it] cfg IH]; intros qs key item v Hnd Hin Hv;
    [contradiction |].
  apply NoDup_cons in Hnd as [Hk Hnd]. cbn [fold_left].
  destruct Hin as [[= -> ->] | Hin].
  - rewrite fold_cache_item_other by (rewrite <- list_elem_of_In; exact Hk).
    unfold cache_item. cbn [fst snd]. rewrite Hv. apply lookup_alter_eq.
  - rewrite (IH _ key item v Hnd Hin Hv).
    unfold cache_item. cbn [fst snd].
    destruct (item_value it); [| reflexivity].
    rewrite lookup_alter_ne; [reflexivity |].
    intros ->. apply Hk. rewrite list_elem_of_In.
    apply (in_map fst _ _ Hin).
Qed.

(** X13.  [init] on a driver whose quantities have no set template, with a
    configuration whose items are plain values or mappings that bring
    [value], rebind neither [self] nor [name], and have no key [quant]: it
    returns the driver, nothing reaches the handle, every key that names a
    quantity has its value in that quantity's cache, keys that name no
    quantity are passed over, and quantities the configuration does not
    mention are as before.  (The keys of a configuration are distinct, as
    those of a mapping are.) *)
Theorem init_fills_caches (E : externals) (d : driver)
    (cfg : list (string * cfg_value)) :
  (forall name q, quantities d !! name = Some q -> q_set_cmd q = EmptyString) ->
  (forall entry, In entry cfg ->
     item_value (snd entry) <> None
     /\ kw_get "quant" (item_keywords (snd entry)) = None) ->
  NoDup (map fst cfg) ->
  exists d',
    init E cfg d = (Ok ReturnedSelf, d')
    /\ ins d' = ins d
    /\ (forall key item v q,
          In (key, item) cfg ->
          item_value item = Some v ->
          quantities d !! key = Some q ->
          exists q',
            quantities d' !! key = Some q'
            /\ q_value q' = v
            /\ q' = set_q_value v q)
    /\ (forall key item,
          In (key, item) cfg ->
          quantities d !! key = None ->
          quantities d' !! key = None)
    /\ (forall key,
          ~ In key (map fst cfg) ->
          quantities d' !! key = quantities d !! key).
Proof.
  intros Hfree Hwf Hnd.
  exists (set_quantities (fold_left cache_item cfg (quantities d)) d).
  split; [| split; [| split; [| split]]].
  - unfold init, bind, ret. rewrite init_loop_cache_only by assumption. reflexivity.
  - reflexivity.
  - intros key item v q Hin Hv Hq. cbn [quantities set_quantities].
    rewrite (fold_cache_item_key cfg _ key item v Hnd Hin Hv), Hq.
    eexists. split; [reflexivity |]. split; reflexivity.
  - intros key item Hin Hq. cbn [quantities set_quantities].
    destruct (item_value item) as [v |] eqn:Hv.
    + rewrite (fold_cache_item_key cfg _ key item v Hnd Hin Hv), Hq. reflexivity.
    + contradiction (proj1 (Hwf (key, item) Hin)).
  - intros key Hkey. cbn [quantities set_quantities].
    apply fold_cache_item_other, Hkey.
Qed.

Lemma init_loop_unknown (E : externals) cfg d :
  (forall entry, In entry cfg ->
     quantities d !! fst entry = None /\ item_value (snd entry) <> None) ->
  init_loop E cfg d = (Ok tt, d).
Proof.
  induction cfg as [| [key item] cfg IH]; intros H; [reflexivity |].
  destruct (H (key, item) (or_introl eq_refl)) as [Hkey Hitem].
  cbn [fst snd] in Hkey, Hitem.
  destruct (item_value item) as [v |] eqn:Hv; [| contradiction].
  cbn [init_loop]. unfold bind. rewrite (init_step_value E key item v Hv).
  unfold BaseDriver.setValue. rewrite Hkey.
  apply IH. intros entry Hentry. apply H. right. exact Hentry.
Qed.

(** X14.  [init] and keys that name no quantity.  Such keys are passed over
    whatever the templates of the driver's quantities: a configuration made
    of them only leaves the driver exactly as it was.  This needs each item
    to be a plain value or a mapping that brings [value] and rebinds
    neither [self] nor [name]: a mapping without [value], or one with a key
    [self] or [name], raises [TypeError] on the spot, for a known key as
    for an unknown one, and the items after it are not applied.  A key
    [quant] in the mapping of a key that names a quantity raises
    [TypeError] too, from [performSetValue], the cache being left as it
    was. *)
Theorem init_unknown_keys (E : externals) (d : driver)
    (cfg : list (string * cfg_value)) :
  ((forall entry, In entry cfg ->
      quantities d !! fst entry = None /\ item_value (snd entry) <> None) ->
   init E cfg d = (Ok ReturnedSelf, d))
  /\ (forall key kw,
        item_value (CfgDict kw) = None ->
        init E ((key, CfgDict kw) :: cfg) d = (Raise TypeError, d))
  /\ (forall key kw q v w,
        quantities d !! key = Some q ->
        item_value (CfgDict kw) = Some v ->
        kw_get "quant" kw = Some w ->
        init E ((key, CfgDict kw) :: cfg) d = (Raise TypeError, d)).
Proof.
  split; [| split].
  - intros H. unfold init, bind, ret. rewrite init_loop_unknown by exact H.
    reflexivity.
  - intros key kw Hkw. unfold init, bind. cbn [init_loop]. unfold bind, setValue_kw.
    cbn [item_value] in Hkw.
    destruct (kw_get "self" kw); [reflexivity |].
    destruct (kw_get "name" kw); [reflexivity |].
    rewrite Hkw. reflexivity.
  - intros key kw q v w Hq Hv Hw. unfold init, bind. cbn [init_loop]. unfold bind.
    rewrite (init_step_value E key (CfgDict kw) v Hv).
    unfold BaseDriver.setValue, BaseDriver.performSetValue.
    cbn [item_keywords]. rewrite Hq, kw_get_del_ne, Hw by discriminate.
    reflexivity.
Qed.

(* ===================================================================== *)
(** ** The driver manager *)
(* ===================================================================== *)

(** A failing [_open_resource] constructs no driver and leaves the
    dictionary of open instruments alone. *)
Lemma open_resource_failure (E : externals) addr driver_name kw_timeout m x m' :
  DriverManager._open_resource E addr driver_name kw_timeout m = (Raise x, m') ->
  m_instr m' = m_instr m /\ m_objects m' = m_objects m.
Proof.
  unfold DriverManager._open_resource, DriverManager.note_call,
    DriverManager.allocate, DriverManager.on_rm. unfold_monad. cbn beta.
  destruct (_parse_resource_name addr) as [info | e];
    [| intros [= <- <-]; split; reflexivity].
  destruct (r_type info) as [ty |]; [| intros [= <- <-]; split; reflexivity].
  destruct (String.eqb ty "Visa").
  - cbn [m_rm m_instr m_objects m_calls].
    destruct (_open_visa_resource addr (m_rm m)) as [[r | e] rm'];
      [| intros [= <- <-]; split; reflexivity].
    destruct (import_Driver E driver_name) as [cls | e];
      [discriminate | intros [= <- <-]; split; reflexivity].
  - destruct (import_Driver E driver_name) as [cls | e];
      [discriminate | intros [= <- <-]; split; reflexivity].
Qed.

(** X15.  An [open] that fails caches nothing: whatever went wrong (the
    registry, the identification of the instrument, the import of the driver
    class), the dictionary of open instruments and the driver objects are as
    before, so the name is still not open and a later [open] starts over. *)
Theorem failed_open_caches_nothing (E : externals)
    (a : DriverManager.instrument_arg) (kw : option Z) (m m1 : manager)
    (x : exn) :
  DriverManager.open E a kw m = (Raise x, m1) ->
  m_instr m1 = m_instr m
  /\ m_objects m1 = m_objects m
  /\ (forall key, DriverManager.get key m1 = DriverManager.get key m).
Proof.
  intros Hopen.
  assert (H : m_instr m1 = m_instr m /\ m_objects m1 = m_objects m).
  { revert Hopen.
    unfold DriverManager.open, DriverManager.set_instr. unfold_monad. cbn beta.
    destruct (DriverManager.resolve E a) as [i | e];
      [| intros [= <- <-]; split; reflexivity].
    destruct (m_instr m !! i_name i) as [r0 |] eqn:Hcached.
    - rewrite Hcached. discriminate.
    - destruct (DriverManager._open_resource E (i_address i) (i_driver i) kw m)
        as [[r | e] m'] eqn:Hres.
      + cbn [m_instr]. rewrite lookup_insert_eq. discriminate.
      + intros [= <- <-]. eapply open_resource_failure, Hres. }
  destruct H as [Hi Ho]. repeat split; try assumption.
  intros key. unfold DriverManager.get. rewrite Hi. reflexivity.
Qed.

(** X16.  After a successful [open], [get] (and so indexing the manager)
    with the name of the instrument gives the driver that [open] returned;
    the entries of all other names are as before, and so is every driver
    object that existed. *)
Theorem get_after_open (E : externals) (a : DriverManager.instrument_arg)
    (kw : option Z) (m m1 : manager) (ref : nat) (i : instrument) :
  DriverManager.open E a kw m = (Ok ref, m1) ->
  DriverManager.resolve E a = Ok i ->
  DriverManager.get (i_name i) m1 = Some ref
  /\ (forall other, other <> i_name i ->
        DriverManager.get other m1 = DriverManager.get other m)
  /\ (forall r d, m_objects m !! r = Some d -> m_objects m1 !! r = Some d).
Proof.
  unfold DriverManager.open, DriverManager.set_instr, DriverManager.get.
  unfold_monad. cbn beta. intros Hopen Hi. rewrite Hi in Hopen.
  destruct (m_instr m !! i_name i) as [r0 |] eqn:Hcached.
  - rewrite Hcached in Hopen. injection Hopen as <- <-. auto.
  - destruct (DriverManager._open_resource E (i_address i) (i_driver i) kw m)
      as [[r | e] m'] eqn:Hres; [| discriminate].
    cbn [m_instr] in Hopen. rewrite lookup_insert_eq in Hopen.
    injection Hopen as <- <-. cbn [m_instr m_objects].
    destruct (open_resource_effect _ _ _ _ _ _ _ Hres) as (Hinstr & _ & _ & d & Hobj).
    split; [apply lookup_insert_eq |]. split.
    + intros other Hne. rewrite lookup_insert_ne by congruence.
      rewrite Hinstr. reflexivity.
    + intros r0 d0 Hr0. rewrite Hobj. apply lookup_app_l_Some, Hr0.
Qed.

(** X23.  When [open] has returned a driver for an instrument record, a
    second [open] with the same record returns the same reference and
    leaves the manager exactly as it was: no resource is resolved or opened
    and no driver constructed.  If the name of the record was not cached
    before the first call, that call ran [_open_resource] once, with the
    address and the driver name of the record, and constructed the one
    driver the reference designates, so the path is run once over the two
    calls. *)
Theorem open_twice_same_record (E : externals) (i : instrument)
    (kw1 kw2 : option Z) (m m1 : manager) (ref : nat) :
  DriverManager.open E (DriverManager.ByRecord i) kw1 m = (Ok ref, m1) ->
  DriverManager.open E (DriverManager.ByRecord i) kw2 m1 = (Ok ref, m1)
  /\ DriverManager.get (i_name i) m1 = Some ref
  /\ (m_instr m !! i_name i = None ->
      m_calls m1 = m_calls m ++ [(i_address i, i_driver i)]
      /\ ref = List.length (m_objects m)
      /\ exists d, m_objects m1 = m_objects m ++ [d]).
Proof.
  unfold DriverManager.open, DriverManager.set_instr, DriverManager.get.
  unfold_monad. cbn beta. cbn [DriverManager.resolve].
  destruct (m_instr m !! i_name i) as [r0 |] eqn:Hcached.
  - rewrite Hcached. intros [= <- <-].
    repeat (progress (rewrite ?Hcached; cbn beta iota)).
    split; [reflexivity |]. split; [reflexivity |]. discriminate.
  - destruct (DriverManager._open_resource E (i_address i) (i_driver i) kw1 m)
      as [[r | e] m'] eqn:Hopen; [| discriminate].
    cbn [m_instr]. rewrite lookup_insert_eq. intros [= <- <-].
    repeat (progress (cbn [m_instr]; rewrite ?lookup_insert_eq; cbn beta iota)).
    split; [reflexivity |]. split; [reflexivity |].
    intros _.
    destruct (open_resource_effect _ _ _ _ _ _ _ Hopen) as (_ & Hc & Hr & Ho).
    cbn. auto.
Qed.

(** X17.  Opening a generic bus resource.  For an address outside the
    digitizer-board scheme, an instrument whose identification has at least
    four fields, and a driver class that imports: the resource manager opens
    the address once, the handle receives exactly one identification query,
    and one driver is constructed on that handle, with the address, the
    stripped second field as its model, and the timeout (3 seconds unless
    given) set on the handle in milliseconds. *)
Theorem open_generic_resource (E : externals) (addr driver_name : string)
    (kw_timeout : option Z) (m : manager) (answer : string)
    (script : list reply) (cls : driver_class)
    (f0 f1 f2 f3 : string) (more : list string) :
  search ats_addr addr = None ->
  rm_devices (m_rm m) !! addr = Some (Reply (PStr answer) :: script) ->
  py_split "," answer = f0 :: f1 :: f2 :: f3 :: more ->
  import_Driver E driver_name = Ok cls ->
  let handle := mkTransport 2000 [CQuery "*IDN?"] script in
  let d := BaseDriver.new cls (Some handle) (PStr addr) (PStr (py_strip f1))
             (default 3 kw_timeout) in
  DriverManager._open_resource E addr driver_name kw_timeout m
  = (Ok (List.length (m_objects m)),
     mkManager (m_instr m) (m_objects m ++ [d])
       (mkRM (rm_devices (m_rm m)) (rm_opened (m_rm m) ++ [addr]))
       (m_calls m ++ [(addr, driver_name)]))
  /\ ins d
     = Some (mkTransport (default 3 kw_timeout * 1000) [CQuery "*IDN?"] script).
Proof.
  intros Hats Hdev Hsplit Himport handle d. subst handle d. split.
  - unfold DriverManager._open_resource, DriverManager.note_call,
      DriverManager.allocate, DriverManager.on_rm. unfold_monad. cbn beta.
    rewrite (parse_resource_name_generic _ Hats).
    cbn [r_type String.eqb Ascii.eqb Bool.eqb m_rm m_instr m_objects m_calls].
    unfold _open_visa_resource, open_resource. unfold_monad. rewrite Hdev.
    unfold identify, t_query. cbn [t_script t_log t_timeout t_record app].
    rewrite Hsplit. cbn [field nth_error bind_out].
    rewrite Himport. reflexivity.
  - rewrite BaseDriver_new_ins. reflexivity.
Qed.

(** *** Teardown *)

Lemma close_object_lookup objs a r :
  close_object objs a !! r
  = if decide (a = r) then (fun d => snd (close d)) <$> objs !! r else objs !! r.
Proof.
  unfold close_object. destruct (decide (a = r)) as [-> | Hne].
  - destruct (objs !! r) as [d |] eqn:Hd; cbn.
    + apply list_lookup_insert_eq. apply lookup_lt_Some in Hd. exact Hd.
    + exact Hd.
  - destruct (objs !! a); [apply list_lookup_insert_ne, Hne | reflexivity].
Qed.

Lemma fold_close_object refs : forall objs r,
  fold_left close_object refs objs !! r
  = Nat.iter (count_occ Nat.eq_dec refs r) (fun d => snd (close d)) <$> objs !! r.
Proof.
  induction refs as [| a refs IH]; intros objs r.
  - cbn. destruct (objs !! r); reflexivity.
  - cbn [fold_left count_occ]. rewrite IH, close_object_lookup.
    destruct (Nat.eq_dec a r) as [-> | Hne].
    + rewrite decide_True by reflexivity.
      destruct (objs !! r); cbn [fmap option_fmap option_map]; [| reflexivity].
      rewrite Nat.iter_succ_r. reflexivity.
    + rewrite decide_False by exact Hne. reflexivity.
Qed.

Lemma iter_close k : forall d t,
  ins d = Some t ->
  Nat.iter k (fun d => snd (close d)) d = closed_times k t d.
Proof.
  induction k as [| k IH]; intros d t Hins.
  - cbn. unfold closed_times. cbn [repeat]. rewrite app_nil_r.
    destruct d as [a i tm mdl qs ec]. cbn in Hins. subst i. destruct t; reflexivity.
  - rewrite Nat.iter_succ_r, (close_keeps_handle d t Hins). cbn [snd].
    rewrite (IH (after_close t d) (t_record CClose t)) by reflexivity.
    unfold closed_times, after_close, t_record.
    cbn [t_timeout t_log t_script repeat].
    rewrite <- app_assoc. reflexivity.
Qed.

Lemma count_values_one (l : list (string * nat)) name ref :
  NoDup l ->
  In (name, ref) l ->
  (forall name', In (name', ref) l -> name' = name) ->
  count_occ Nat.eq_dec (snd <$> l) ref = 1%nat.
Proof.
  induction l as [| [k v] l IH]; intros Hnd Hin Huniq; [contradiction |].
  apply NoDup_cons in Hnd as [Hk Hnd]. cbn [fmap list_fmap snd count_occ].
  destruct (Nat.eq_dec v ref) as [-> | Hne].
  - assert (k = name) as -> by (apply Huniq; left; reflexivity).
    f_equal. apply count_occ_not_In. intros Href.
    apply in_map_iff in Href as ([k' v'] & Hv' & Hin').
    cbn in Hv'. subst v'.
    assert (k' = name) as -> by (apply Huniq; right; exact Hin').
    apply Hk. rewrite list_elem_of_In. exact Hin'.
  - destruct Hin as [[= -> ->] | Hin]; [contradiction |].
    apply IH; [exact Hnd | exact Hin |].
    intros name' H'. apply Huniq. right. exact H'.
Qed.

(** X18.  Teardown of the manager.  Every driver that a name of the
    dictionary of open instruments designates, and that has a handle, has
    [close] called on its handle, once when one name only designates it; the
    driver keeps the handle, its quantities and its other attributes.
    Driver objects that no name designates are not touched, and the
    dictionary itself is as before. *)
Theorem teardown_closes_cached (m : manager) :
  m_instr (manager_del m) = m_instr m
  /\ (forall name ref d t,
        m_instr m !! name = Some ref ->
        m_objects m !! ref = Some d ->
        ins d = Some t ->
        (exists k,
            m_objects (manager_del m) !! ref = Some (closed_times (S k) t d))
        /\ ((forall name', m_instr m !! name' = Some ref -> name' = name) ->
            m_objects (manager_del m) !! ref = Some (closed_times 1 t d)))
  /\ (forall ref,
        (forall name, m_instr m !! name <> Some ref) ->
        m_objects (manager_del m) !! ref = m_objects m !! ref).
Proof.
  split; [reflexivity |]. split.
  - intros name ref d t Hname Href Hins.
    unfold manager_del. cbn [m_objects]. rewrite fold_close_object, Href.
    cbn [fmap option_fmap option_map].
    assert (Hin : In (name, ref) (map_to_list (m_instr m))).
    { apply list_elem_of_In, elem_of_map_to_list, Hname. }
    split.
    + assert (Hpos : (count_occ Nat.eq_dec (snd <$> map_to_list (m_instr m)) ref > 0)%nat).
      { apply count_occ_In. apply in_map_iff. exists (name, ref). auto. }
      destruct (count_occ Nat.eq_dec _ ref) as [| k]; [lia |].
      exists k. rewrite (iter_close _ _ _ Hins). reflexivity.
    + intros Huniq. rewrite (count_values_one _ name ref).
      * rewrite (iter_close _ _ _ Hins). reflexivity.
      * apply NoDup_map_to_list.
      * exact Hin.
      * intros name' H'. apply Huniq.
        apply elem_of_map_to_list, list_elem_of_In, H'.
  - intros ref Hnone. unfold manager_del. cbn [m_objects].
    rewrite fold_close_object.
    rewrite (proj1 (count_occ_not_In Nat.eq_dec _ ref)).
    + cbn. destruct (m_objects m !! ref); reflexivity.
    + intros Hin. apply in_map_iff in Hin as ([name r] & Hr & Hin).
      cbn in Hr. subst r. apply (Hnone name).
      apply elem_of_map_to_list, list_elem_of_In, Hin.
Qed.

(* ===================================================================== *)
(** ** Addresses: what the patterns accept *)
(* ===================================================================== *)

Lemma length_append_string (a b : string) :
  String.length (a +:+ b) = (String.length a + String.length b)%nat.
Proof. induction a as [| c a IH]; [reflexivity |]. rewrite append_cons. cbn. rewrite IH. reflexivity. Qed.

Lemma take_append (w rest : string) :
  take (String.length (w +:+ rest) - String.length rest) (w +:+ rest) = w.
Proof.
  rewrite length_append_string.
  replace (String.length w + String.length rest - String.length rest)%nat
    with (String.length w) by lia.
  induction w as [| c w IH]; [destruct rest; reflexivity |].
  rewrite append_cons. cbn [String.length take]. rewrite IH. reflexivity.
Qed.

Lemma strip_prefix_append p rest : strip_prefix p (p +:+ rest) = Some rest.
Proof.
  induction p as [| c p IH]; [destruct rest; reflexivity |].
  rewrite append_cons. cbn [strip_prefix]. rewrite Ascii.eqb_refl. exact IH.
Qed.

(** A greedy run consumes the whole run when what follows is accepted. *)
Lemma plus_go_complete {X} (p : ascii -> bool) (k : string -> option X) x
    (w rest : string) : forall any,
  none_is (fun c => negb (p c)) w = true ->
  stops p rest ->
  (w <> EmptyString \/ any = true) ->
  k rest = Some x ->
  plus_go p (w +:+ rest) k any = Some x.
Proof.
  induction w as [| c w IH]; intros any Hw Hstop Hany Hk.
  - destruct Hany as [Hne | ->]; [contradiction |].
    change (EmptyString +:+ rest) with rest.
    destruct rest as [| c r]; cbn [plus_go]; [exact Hk |].
    cbn in Hstop. rewrite Hstop. exact Hk.
  - cbn [none_is] in Hw. apply andb_true_iff in Hw as [Hc Hw].
    rewrite negb_involutive in Hc.
    rewrite append_cons. cbn [plus_go]. rewrite Hc.
    rewrite (IH true Hw Hstop (or_intror eq_refl) Hk). reflexivity.
Qed.

Lemma all_digits_none_is_not s :
  all_digits s = true -> none_is (fun c => negb (is_digit c)) s = true.
Proof.
  induction s as [| c s IH]; [reflexivity |]. cbn.
  intros H. apply andb_true_iff in H as [Hc Hs].
  rewrite Hc, IH by exact Hs. reflexivity.
Qed.

(** [int] of a text made of digits. *)
Lemma int_of_string_digits s :
  s <> EmptyString -> all_digits s = true ->
  int_of_string s = Ok (digits_value s 0).
Proof.
  intros Hne Hall. unfold int_of_string.
  rewrite strip_none by (apply (all_digits_none_is _ _ is_digit_not_int_space Hall)).
  destruct s as [| c s]; [contradiction |]. cbv zeta.
  assert (Hc : is_digit c = true).
  { cbn in Hall. apply andb_true_iff in Hall. tauto. }
  destruct (is_digit_not_sign _ Hc) as [-> ->].
  unfold read_digits. rewrite int_digits_all_digits; [reflexivity | exact Hall |].
  left. discriminate.
Qed.

(** The part of [ats_addr] after the model name, on the text after it. *)
Lemma ats_tail_match system board suffix newline st m0 :
  system <> EmptyString -> all_digits system = true ->
  board <> EmptyString -> all_digits board = true ->
  suffix = EmptyString \/ suffix = "::INSTR" ->
  newline = EmptyString \/ newline = String "010" EmptyString ->
  rmatch
    (seq [ Lit "::SYSTEM"; Group 2 (Plus is_digit); Lit "::";
           Group 3 (Plus is_digit); Group 4 (Alt Eps (Lit "::INSTR")); Eol ])
    ("::SYSTEM" +:+ system +:+ "::" +:+ board +:+ suffix +:+ newline)
    st m0 (fun _ _ m => Some m)
  = Some ((4%nat, suffix) :: (3%nat, board) :: (2%nat, system) :: m0).
Proof.
  intros Hs1 Hs2 Hb1 Hb2 Hsuffix Hnl.
  assert (H4 : forall st' m,
             rmatch (Seq (Group 4 (Alt Eps (Lit "::INSTR"))) Eol)
               (suffix +:+ newline) st' m (fun _ _ m => Some m)
             = Some ((4%nat, suffix) :: m)).
  { intros st' m. destruct Hsuffix as [-> | ->], Hnl as [-> | ->]; reflexivity. }
  assert (Hstop3 : stops is_digit (suffix +:+ newline)).
  { destruct Hsuffix as [-> | ->]; [| reflexivity].
    destruct Hnl as [-> | ->]; reflexivity. }
  assert (H3 : forall st' m,
             rmatch (Seq (Group 3 (Plus is_digit))
                       (Seq (Group 4 (Alt Eps (Lit "::INSTR"))) Eol))
               (board +:+ suffix +:+ newline) st' m (fun _ _ m => Some m)
             = Some ((4%nat, suffix) :: (3%nat, board) :: m)).
  { intros st' m. cbn [rmatch].
    apply plus_go_complete;
      [apply all_digits_none_is_not, Hb2 | exact Hstop3 | left; exact Hb1 |].
    rewrite take_append. apply (H4 false). }
  cbn [seq rmatch]. rewrite strip_prefix_append.
  apply plus_go_complete;
    [apply all_digits_none_is_not, Hs2 | reflexivity | left; exact Hs1 |].
  rewrite take_append, strip_prefix_append.
  apply (H3 false).
Qed.

Lemma ats_addr_match model system board suffix newline :
  model = "ATS9360" \/ model = "ATS9850" \/ model = "ATS9870" ->
  system <> EmptyString -> all_digits system = true ->
  board <> EmptyString -> all_digits board = true ->
  suffix = EmptyString \/ suffix = "::INSTR" ->
  newline = EmptyString \/ newline = String "010" EmptyString ->
  search ats_addr
    (model +:+ "::SYSTEM" +:+ system +:+ "::" +:+ board +:+ suffix +:+ newline)
  = Some [(4%nat, suffix); (3%nat, board); (2%nat, system); (1%nat, model)].
Proof.
  intros Hmodel Hs1 Hs2 Hb1 Hb2 Hsuffix Hnl.
  pose proof (fun st m0 =>
                ats_tail_match system board suffix newline st m0
                  Hs1 Hs2 Hb1 Hb2 Hsuffix Hnl) as Htail.
  set (tail := "::SYSTEM" +:+ system +:+ "::" +:+ board +:+ suffix +:+ newline) in *.
  assert (Hm : rmatch ats_addr (model +:+ tail) true [] (fun _ _ m => Some m)
               = Some [(4%nat, suffix); (3%nat, board); (2%nat, system);
                       (1%nat, model)]).
  { unfold ats_addr.
    change (seq [Bol; Group 1 (Alt (Lit "ATS9360") (Alt (Lit "ATS9850") (Lit "ATS9870")));
                 Lit "::SYSTEM"; Group 2 (Plus is_digit); Lit "::";
                 Group 3 (Plus is_digit); Group 4 (Alt Eps (Lit "::INSTR")); Eol])
      with (Seq Bol
              (Seq (Group 1 (Alt (Lit "ATS9360") (Alt (Lit "ATS9850") (Lit "ATS9870"))))
                 (seq [Lit "::SYSTEM"; Group 2 (Plus is_digit); Lit "::";
                       Group 3 (Plus is_digit); Group 4 (Alt Eps (Lit "::INSTR"));
                       Eol]))).
    remember (seq [Lit "::SYSTEM"; Group 2 (Plus is_digit); Lit "::";
                   Group 3 (Plus is_digit); Group 4 (Alt Eps (Lit "::INSTR")); Eol])
      as rest_pattern eqn:Hrest.
    cbn [rmatch].
    destruct Hmodel as [-> | [-> | ->]].
    - rewrite (strip_prefix_append "ATS9360" tail).
      rewrite take_append, Htail. reflexivity.
    - assert (H1 : strip_prefix "ATS9360" ("ATS9850" +:+ tail) = None) by reflexivity.
      rewrite H1, (strip_prefix_append "ATS9850" tail).
      rewrite take_append, Htail. reflexivity.
    - assert (H1 : strip_prefix "ATS9360" ("ATS9870" +:+ tail) = None) by reflexivity.
      assert (H2 : strip_prefix "ATS9850" ("ATS9870" +:+ tail) = None) by reflexivity.
      rewrite H1, H2, (strip_prefix_append "ATS9870" tail).
      rewrite take_append, Htail. reflexivity. }
  unfold search. destruct (model +:+ tail); cbn [search_from]; rewrite Hm; reflexivity.
Qed.

(** X19.  Every address of the digitizer-board scheme resolves to a
    digitizer descriptor: a model name among ATS9360, ATS9850 and ATS9870,
    [::SYSTEM] and digits, [::] and digits, optionally [::INSTR] and a final
    newline.  The descriptor holds the model name as written, the two
    numbers the digits denote, the company AlazarTech, no handle, and the
    address as it was given. *)
Theorem ats_addresses_resolve (model system board suffix newline : string) :
  model = "ATS9360" \/ model = "ATS9850" \/ model = "ATS9870" ->
  system <> EmptyString -> all_digits system = true ->
  board <> EmptyString -> all_digits board = true ->
  suffix = EmptyString \/ suffix = "::INSTR" ->
  newline = EmptyString \/ newline = String "010" EmptyString ->
  let addr :=
    model +:+ "::SYSTEM" +:+ system +:+ "::" +:+ board +:+ suffix +:+ newline in
  _parse_resource_name addr
  = Ok (mkResource (Some "ATS") None (Some "AlazarTech") (Some model) None
          (Some (digits_value system 0)) (Some (digits_value board 0)) addr).
Proof.
  intros Hmodel Hs1 Hs2 Hb1 Hb2 Hsuffix Hnl addr. subst addr.
  unfold _parse_resource_name.
  rewrite ats_addr_match by assumption.
  unfold _parse_ats_resource_name, group_str.
  cbn [group Nat.eqb bind_out].
  rewrite (int_of_string_digits system Hs1 Hs2).
  rewrite (int_of_string_digits board Hb1 Hb2). reflexivity.
Qed.

(** *** The protocol of an address *)

Lemma is_digit_not_alpha c : is_digit c = true -> is_alpha c = false.
Proof.
  unfold is_digit, is_alpha. intros H.
  apply andb_true_iff in H as [H1 H2]. apply Z.leb_le in H1, H2.
  apply orb_false_iff; split; apply andb_false_iff; left; apply Z.leb_gt; lia.
Qed.

Lemma p_addr_match letters digits body newline :
  letters <> EmptyString ->
  none_is (fun c => negb (is_alpha c)) letters = true ->
  all_digits digits = true ->
  body <> EmptyString ->
  none_is (fun c => negb (not_newline c)) body = true ->
  newline = EmptyString \/ newline = String "010" EmptyString ->
  search p_addr (letters +:+ digits +:+ "::" +:+ body +:+ newline)
  = Some [(1%nat, letters)].
Proof.
  intros Hl1 Hl2 Hd Hb1 Hb2 Hnl.
  assert (H5 : forall st m,
             rmatch (Seq (Plus not_newline) Eol) (body +:+ newline) st m
               (fun _ _ m => Some m) = Some m).
  { intros st m. cbn [rmatch]. apply plus_go_complete;
      [exact Hb2 | | left; exact Hb1 |];
      destruct Hnl as [-> | ->]; reflexivity. }
  assert (H4 : forall st m,
             rmatch (Seq (Lit "::") (Seq (Plus not_newline) Eol))
               ("::" +:+ body +:+ newline) st m (fun _ _ m => Some m) = Some m).
  { intros st m. cbn [rmatch]. rewrite (strip_prefix_append "::").
    exact (H5 false m). }
  assert (H3 : forall st m,
             rmatch (Seq (Alt (Plus is_digit) Eps)
                       (Seq (Lit "::") (Seq (Plus not_newline) Eol)))
               (digits +:+ "::" +:+ body +:+ newline) st m (fun _ _ m => Some m)
             = Some m).
  { intros st m. cbn [rmatch]. destruct digits as [| c ds].
    - change (EmptyString +:+ "::" +:+ body +:+ newline)
        with ("::" +:+ body +:+ newline).
      assert (Hno : forall X (k : string -> option X),
                 plus_go is_digit ("::" +:+ body +:+ newline) k false = None)
        by reflexivity.
      rewrite Hno, (strip_prefix_append "::"). exact (H5 false m).
    - rewrite (plus_go_complete is_digit _ m (String c ds));
        [reflexivity | apply all_digits_none_is_not, Hd | reflexivity
        | left; discriminate |].
      rewrite (strip_prefix_append "::"). exact (H5 false m). }
  assert (Hstop : stops is_alpha (digits +:+ "::" +:+ body +:+ newline)).
  { destruct digits as [| c ds]; [reflexivity |].
    rewrite append_cons. cbn [stops]. apply is_digit_not_alpha.
    cbn in Hd. apply andb_true_iff in Hd. tauto. }
  set (tail := digits +:+ "::" +:+ body +:+ newline) in *.
  assert (Hm : rmatch p_addr (letters +:+ tail) true [] (fun _ _ m => Some m)
               = Some [(1%nat, letters)]).
  { unfold p_addr. cbn [seq rmatch].
    apply plus_go_complete; [exact Hl2 | exact Hstop | left; exact Hl1 |].
    rewrite take_append. apply (H3 false). }
  unfold search. destruct (letters +:+ tail); cbn [search_from]; rewrite Hm; reflexivity.
Qed.

Lemma p_addr_not_later s : search_from p_addr s false = None.
Proof. induction s as [| c s IH]; [reflexivity |]. cbn [search_from]. exact IH. Qed.

Lemma p_addr_sound addr m :
  search p_addr addr = Some m -> exists letters, p_shape addr letters.
Proof.
  unfold search. intros H.
  assert (Hm : rmatch p_addr addr true [] (fun _ _ m => Some m) = Some m).
  { destruct addr as [| c s]; cbn [search_from] in H.
    - destruct (rmatch _ _ _ _ _); [exact H | discriminate].
    - destruct (rmatch _ _ _ _ _); [exact H |].
      rewrite p_addr_not_later in H. discriminate. }
  clear H. destruct (rmatch_sound _ _ _ _ _ _ Hm) as (w & rest & m'' & -> & Hw & _).
  unfold p_addr in Hw. cbn [seq matches] in Hw.
  destruct Hw as (w0 & w1 & -> & [-> _] & Hw).
  destruct Hw as (letters & w2 & -> & [Hl1 Hl2] & Hw).
  destruct Hw as (digits & w3 & -> & Hdigits & Hw).
  destruct Hw as (lit & w4 & -> & -> & Hw).
  destruct Hw as (body & w5 & -> & [Hb1 Hb2] & [-> Hrest]).
  exists letters, digits, body, rest. repeat split; auto.
  - destruct Hdigits as [[_ Hd] | ->]; [apply none_is_not_digit_all, Hd | reflexivity].
  - rewrite !append_assoc_string. reflexivity.
Qed.

Lemma upper_char_capital c : is_alpha c = true -> is_capital (upper_char c) = true.
Proof.
  destruct c as [[] [] [] [] [] [] [] []]; vm_compute; intros H;
    first [reflexivity | discriminate H].
Qed.

(** X20.  [parse_resource_name] on an address made of letters, digits if
    any, [::] and a text without newline (a final newline allowed) returns
    the letters in capitals as the protocol, together with the address as it
    was given; the protocol consists of the letters A to Z only.  On every
    other address the pattern finds nothing and the call raises
    [AttributeError]. *)
Theorem protocol_of_address (addr : string) :
  (forall letters,
      p_shape addr letters ->
      parse_resource_name addr = Ok (upper letters, addr)
      /\ none_is (fun c => negb (is_capital c)) (upper letters) = true)
  /\ ((forall letters, ~ p_shape addr letters) ->
      parse_resource_name addr = Raise AttributeError).
Proof.
  split.
  - intros letters (digits & body & newline & Hl1 & Hl2 & Hd & Hb1 & Hb2 & Hnl & ->).
    split.
    + unfold parse_resource_name. rewrite p_addr_match by assumption. reflexivity.
    + clear Hl1. induction letters as [| c letters IH]; [reflexivity |].
      cbn [none_is] in Hl2. apply andb_true_iff in Hl2 as [Hc Hl2].
      rewrite negb_involutive in Hc.
      cbn [upper none_is]. rewrite (upper_char_capital c Hc), IH by exact Hl2.
      reflexivity.
  - intros Hnone. unfold parse_resource_name.
    destruct (search p_addr addr) as [m |] eqn:Hsearch; [| reflexivity].
    destruct (p_addr_sound _ _ Hsearch) as [letters Hshape].
    contradiction (Hnone letters).
Qed.

(** *** Index and device code of an option *)

Lemma index_of_first value pre l code post : forall i,
  registered pre value = false ->
  py_eqb l value = true ->
  QOption.index_of value (pre ++ (l, code) :: post) i
  = PInt (i + Z.of_nat (List.length pre)).
Proof.
  induction pre as [| p pre IH]; intros i Hpre Hl.
  - cbn [app QOption.index_of fst List.length]. rewrite Hl. f_equal. cbn. lia.
  - cbn [registered existsb] in Hpre. apply orb_false_iff in Hpre as [Hp Hpre].
    cbn [app QOption.index_of]. rewrite Hp.
    rewrite IH by assumption. f_equal. cbn [List.length]. lia.
Qed.

(** X21.  [getIndex] and [getCmdOption] of an option quantity that answers
    from its cache (no get template, or no driver), the cached value being a
    label of the option list.  [getIndex] returns the position of the first
    pair carrying the label.  [getCmdOption] returns the code of the last
    pair carrying it: the code at that very position when the label occurs
    once, the code of the later pair when the label occurs again.  Neither
    call changes the quantity. *)
Theorem option_index_and_code (E : externals) (q : quantity)
    (od : option driver) (ch : pyval) (kw : kwargs)
    (pre post : list (pyval * pyval)) (label code : pyval) :
  q_get_cmd q = EmptyString \/ od = None ->
  q_value q <> PNone ->
  hashable (q_value q) = true ->
  forallb (fun p => hashable (fst p)) (q_options q) = true ->
  q_options q = pre ++ (label, code) :: post ->
  py_eqb label (q_value q) = true ->
  registered pre (q_value q) = false ->
  QOption.getIndex E ch kw (q, od)
  = (Ok (PInt (Z.of_nat (List.length pre))), (q, od))
  /\ (registered post (q_value q) = false ->
      QOption.getCmdOption E ch kw (q, od) = (Ok code, (q, od)))
  /\ (forall mid label' code' post',
         post = mid ++ (label', code') :: post' ->
         py_eqb label' (q_value q) = true ->
         registered post' (q_value q) = false ->
         QOption.getCmdOption E ch kw (q, od) = (Ok code', (q, od))).
Proof.
  intros Hcache Hv Hh Hl Hopts Hlabel Hpre.
  assert (Hcode : forall c,
             dict_get (q_options q) (q_value q) = Some c ->
             QOption.getCmdOption E ch kw (q, od) = (Ok c, (q, od))).
  { intros c Hc. unfold QOption.getCmdOption. unfold_monad. cbn [fst snd].
    rewrite QString_getValue_cached by exact Hcache.
    destruct (q_value q) eqn:Hval; try congruence;
      cbn [fst snd]; unfold py_dict; rewrite Hl; cbn [fst snd];
      rewrite Hh; cbn [negb]; unfold QOption.lookup_code;
      rewrite Hc; reflexivity. }
  split; [| split].
  - unfold QOption.getIndex. unfold_monad. cbn [fst snd].
    rewrite QString_getValue_cached by exact Hcache.
    assert (Hi : QOption.index_of (q_value q) (q_options q) 0
                 = PInt (Z.of_nat (List.length pre))).
    { rewrite Hopts, (index_of_first _ _ _ _ _ 0 Hpre Hlabel). reflexivity. }
    destruct (q_value q) eqn:Hval; try congruence;
      cbn [fst snd]; rewrite Hi; reflexivity.
  - intros Hpost. apply Hcode.
    exact (dict_get_last _ _ _ _ _ _ Hopts Hlabel Hpost).
  - intros mid label' code' post' Hpost Hlabel' Hpost'. apply Hcode.
    apply (dict_get_last _ (pre ++ (label, code) :: mid) label' code' post');
      [| exact Hlabel' | exact Hpost'].
    rewrite Hopts, Hpost, <- app_assoc. reflexivity.
Qed.

(** *** Writing lists of values *)

(** X22.  [write_ascii_values] and [write_binary_values] look at the values
    before the handle is reached.  On a driver with a handle: values that
    have no length make [write_ascii_values] raise, a block builder that
    rejects the values makes [write_binary_values] raise, in both cases
    nothing is sent and the driver is as before; otherwise exactly one call
    of the same name reaches the handle, carrying the message and the values
    as given (not the logged text), and the driver itself is returned.  On a
    driver without handle both return [None] whatever the values are. *)
Theorem write_values_checked_first (E : externals) (d : driver)
    (message converter separator datatype : string) (values : pyval)
    (is_big_endian check_errors : bool) :
  (forall t, ins d = Some t ->
     (forall x, py_len values = Raise x ->
        write_ascii_values message values converter separator check_errors d
        = (Raise x, d))
     /\ (forall n, py_len values = Ok n ->
        write_ascii_values message values converter separator false d
        = (Ok ReturnedSelf,
           set_ins (Some (t_record
                            (CWriteAscii message values converter separator) t)) d))
     /\ (forall x, IEEE_488_2_BinBlock E values datatype is_big_endian = Raise x ->
        write_binary_values E message values datatype is_big_endian check_errors d
        = (Raise x, d))
     /\ (forall b, IEEE_488_2_BinBlock E values datatype is_big_endian = Ok b ->
        write_binary_values E message values datatype is_big_endian false d
        = (Ok ReturnedSelf,
           set_ins (Some (t_record
                            (CWriteBinary message values datatype is_big_endian)
                            t)) d)))
  /\ (ins d = None ->
      write_ascii_values message values converter separator check_errors d
      = (Ok ReturnedNone, d)
      /\ write_binary_values E message values datatype is_big_endian check_errors d
         = (Ok ReturnedNone, d)).
Proof.
  split.
  - intros t Hins. repeat split.
    + intros x Hx. unfold write_ascii_values, has_ins. unfold_monad. cbn beta.
      rewrite Hins. cbn [negb]. rewrite Hx. reflexivity.
    + intros n Hn. unfold write_ascii_values, on_ins, has_ins, t_send.
      unfold_monad. cbn beta. rewrite !Hins. cbn [negb]. rewrite Hn.
      cbn beta iota. rewrite ?Hins. reflexivity.
    + intros x Hx. unfold write_binary_values, has_ins. unfold_monad. cbn beta.
      rewrite Hins. cbn [negb]. rewrite Hx. reflexivity.
    + intros b Hb. unfold write_binary_values, on_ins, has_ins, t_send.
      unfold_monad. cbn beta. rewrite !Hins. cbn [negb]. rewrite Hb.
      cbn beta iota. rewrite ?Hins. reflexivity.
  - intros Hins. split.
    + unfold write_ascii_values, has_ins. unfold_monad. cbn beta.
      rewrite Hins. reflexivity.
    + unfold write_binary_values, has_ins. unfold_monad. cbn beta.
      rewrite Hins. reflexivity.
Qed.

(* ===================================================================== *)
(** ** Further instances on sample objects *)
(* ===================================================================== *)

Lemma errors_failure_modes_witness :
  let es := [(-113, "Undefined header")] in
  let script := map entry_reply es ++ [Reply (PStr "garbage")] in
  let d := sample_driver PNone EmptyString (Some (sample_handle script)) in
  errors d
  = (Raise ValueError,
     set_ins (Some (mkTransport 3000
                      [CQuery "SYST:ERR?"; CQuery "SYST:ERR?"] [])) d).
Proof.
  intros es script d.
  refine (proj1 (errors_failure_modes d (t_set_timeout 3000 (sample_handle script))
                   es _ _ _) "garbage" [] _ _).
  - vm_compute; discriminate.
  - vm_compute; reflexivity.
  - apply List.Forall_cons; [| apply List.Forall_nil].
    split; [vm_compute; discriminate | vm_compute; reflexivity].
  - vm_compute; reflexivity.
  - vm_compute; reflexivity.
Defined.

Lemma query_failure_propagates_witness :
  let d := sample_driver PNone EmptyString
             (Some (sample_handle [Fault VisaIOError])) in
  query "*OPC?" true d
  = (Raise VisaIOError,
     set_ins (Some (mkTransport 3000 [CQuery "*OPC?"] [])) d).
Proof.
  intros d.
  refine (proj1 (query_failure_propagates d
                   (t_set_timeout 3000 (sample_handle [Fault VisaIOError]))
                   VisaIOError [] true _ _) "*OPC?").
  - vm_compute; reflexivity.
  - reflexivity.
Defined.

Lemma checked_io_drains_queue_witness :
  let es := [(-113, "Undefined header")] in
  let script := map entry_reply es ++ [entry_reply (0, "No error")] in
  let d := sample_driver PNone EmptyString (Some (sample_handle script)) in
  write "OUTP ON" true d
  = (Ok ReturnedSelf,
     set_ins (Some (mkTransport 3000
                      [CWrite "OUTP ON"; CQuery "SYST:ERR?"; CQuery "SYST:ERR?"]
                      [])) d).
Proof.
  intros es script d.
  refine (proj2 (checked_io_drains_queue d
                   (t_set_timeout 3000 (sample_handle script)) PNone es
                   "No error" [] "OUTP ON" _ _ _ _) _).
  - vm_compute; discriminate.
  - vm_compute; reflexivity.
  - apply List.Forall_cons; [| apply List.Forall_nil].
    split; [vm_compute; discriminate | vm_compute; reflexivity].
  - vm_compute; reflexivity.
  - vm_compute; reflexivity.
Defined.

Lemma setValue_sends_formatted_command_witness :
  let d := sample_driver PNone EmptyString (Some (sample_handle [])) in
  let value := PFloat two_and_a_half in
  Quantity.setValue sample_externals value PNone PNone [] (sample_real, Some d)
  = (Ok tt,
     (set_q_value value sample_real,
      Some (set_ins (Some (mkTransport 3000 [CWrite "VOLT %(value)f"] [])) d))).
Proof.
  intros d value.
  refine (proj1 (setValue_sends_formatted_command sample_externals sample_real d
                   (t_set_timeout 3000 (sample_handle [])) value PNone PNone []
                   _ _) "VOLT %(value)f" _).
  - vm_compute; reflexivity.
  - discriminate.
  - reflexivity.
Defined.

Lemma option_setValue_sends_code_witness :
  let d := sample_driver PNone EmptyString (Some (sample_handle [])) in
  let q := sample_option PNone EmptyString in
  QOption.setValue sample_externals (PStr "OFF") PNone [] (q, Some d)
  = (Ok tt,
     (set_q_value (PStr "OFF") q,
      Some (set_ins (Some (mkTransport 3000 [CWrite "OUTP %(option)s"] [])) d))).
Proof.
  intros d q.
  refine (proj1 (option_setValue_sends_code sample_externals q d
                   (t_set_timeout 3000 (sample_handle [])) (PStr "OFF") PNone []
                   [(PStr "ON", PInt 1)] [] (PStr "OFF") (PInt 0)
                   _ _ _ _ _ _ _) "OUTP %(option)s" _ _).
  - vm_compute; reflexivity.
  - discriminate.
  - vm_compute; reflexivity.
  - reflexivity.
  - reflexivity.
  - vm_compute; reflexivity.
  - reflexivity.
  - reflexivity.
  - reflexivity.
Defined.

Lemma numeric_getValue_from_device_witness :
  let res := PList [PFloat two_and_a_half] in
  let d := sample_driver PNone EmptyString (Some (sample_handle [Reply res])) in
  let q := sample_counter "COUN?" in
  quant_getValue sample_externals PNone [] (q, Some d)
  = (Ok (PInt 2),
     (set_q_value (PFloat two_and_a_half) q,
      Some (set_ins (Some (mkTransport 3000 [CQueryAscii "COUN?" "f" ","] []))
              d))).
Proof.
  intros res d q.
  refine (numeric_getValue_from_device sample_externals q d
            (t_set_timeout 3000 (sample_handle [Reply res])) PNone [] "COUN?"
            res (PFloat two_and_a_half) [] 1 _ _ _ _ _ _ _).
  - reflexivity.
  - vm_compute; reflexivity.
  - discriminate.
  - reflexivity.
  - reflexivity.
  - reflexivity.
  - reflexivity.
Defined.

Lemma string_getValue_from_device_witness :
  let text := "ON" +:+ String "010" EmptyString in
  let d := sample_driver PNone "OUTP?" (Some (sample_handle [Reply (PStr text)])) in
  let q := sample_option PNone "OUTP?" in
  quant_getValue sample_externals PNone [] (q, Some d)
  = (Ok (PStr "ON"),
     (set_q_value (PStr "ON") q,
      Some (set_ins (Some (mkTransport 3000 [CQuery "OUTP?"] [])) d))).
Proof.
  intros text d q.
  refine (proj1 (string_getValue_from_device sample_externals q d
                   (t_set_timeout 3000 (sample_handle [Reply (PStr text)]))
                   PNone [] "OUTP?" (PStr text) [] _ _ _ _ _) text _).
  - reflexivity.
  - vm_compute; reflexivity.
  - discriminate.
  - reflexivity.
  - reflexivity.
  - reflexivity.
Defined.

Lemma vector_getValue_from_device_witness :
  let res := PList [PInt 1; PInt 2] in
  let d := sample_driver PNone EmptyString (Some (sample_handle [Reply res])) in
  quant_getValue sample_externals PNone [("binary", PBool true)]
    (sample_trace, Some d)
  = (Ok res,
     (set_q_value res sample_trace,
      Some (set_ins
              (Some (mkTransport 3000 [CQueryBinary "TRAC?" "f" false "ieee"] []))
              d))).
Proof.
  intros res d.
  refine (vector_getValue_from_device sample_externals sample_trace d
            (t_set_timeout 3000 (sample_handle [Reply res])) PNone
            [("binary", PBool true)] "TRAC?" res [] 2 _ _ _ _ _ _).
  - reflexivity.
  - vm_compute; reflexivity.
  - discriminate.
  - reflexivity.
  - reflexivity.
  - reflexivity.
Defined.

Lemma templates_without_handle_witness :
  let d := sample_driver PNone EmptyString None in
  Quantity.setValue sample_externals (PInt 5) PNone PNone [] (sample_real, Some d)
  = (Ok tt, (set_q_value (PInt 5) sample_real, Some d)).
Proof.
  intros d.
  refine (proj1 (templates_without_handle sample_externals sample_real d PNone []
                   _) (PInt 5) PNone "VOLT %(value)f" _ _).
  - vm_compute; reflexivity.
  - discriminate.
  - reflexivity.
Defined.

Lemma driver_set_then_get_witness :
  let d := sample_cache_driver in
  let d1 :=
    set_quantities
      (<["Count" := set_q_value (PFloat two_and_a_half) (sample_counter EmptyString)]>
         (quantities d)) d in
  BaseDriver.setValue sample_externals "Count" (PFloat two_and_a_half) [] d
  = (Ok ReturnedSelf, d1)
  /\ BaseDriver.getValue sample_externals "Count" [] d1 = (Ok (PInt 2), d1).
Proof.
  intros d d1.
  pose proof (driver_set_then_get sample_externals d "Count"
                (sample_counter EmptyString) (PFloat two_and_a_half) [] []) as H.
  destruct H as (H1 & H2 & _).
  - vm_compute; reflexivity.
  - reflexivity.
  - reflexivity.
  - split; [exact (H1 eq_refl) | exact (H2 eq_refl)].
Defined.

Lemma constructor_registers_quantities_witness :
  let q := sample_option PNone EmptyString in
  quantities (sample_driver PNone EmptyString None) !! "Output" = Some q.
Proof.
  intros q.
  refine (proj1 (proj2 (constructor_registers_quantities
                          (mkDriverClass [q] "SYST:ERR?") None
                          (PStr "GPIB0::12::INSTR") (PStr "Scope 9000") 3))
            [] q [] _ _).
  - reflexivity.
  - intros q' [].
Defined.

Lemma init_fills_caches_witness :
  let d := sample_cache_driver in
  let cfg := [("Count", CfgDict [("value", PInt 4); ("unit", PStr "Hz")]);
              ("Gain", CfgValue (PInt 1))] in
  exists d' q',
    init sample_externals cfg d = (Ok ReturnedSelf, d')
    /\ ins d' = ins d
    /\ quantities d' !! "Count" = Some q'
    /\ q_value q' = PInt 4
    /\ quantities d' !! "Gain" = None.
Proof.
  intros d cfg.
  destruct (init_fills_caches sample_externals d cfg)
    as (d' & Hinit & Hins & Hknown & Hunknown & _).
  - intros name q.
    change (quantities d) with (<["Count" := sample_counter EmptyString]>
                                  (∅ : gmap string quantity)).
    destruct (decide ("Count" = name)) as [<- | Hne].
    + rewrite lookup_insert_eq. intros [= <-]. reflexivity.
    + rewrite lookup_insert_ne, lookup_empty by exact Hne. discriminate.
  - intros entry [<- | [<- | []]]; (split; [discriminate | reflexivity]).
  - apply NoDup_cons_2; [| apply NoDup_cons_2;
      [apply not_elem_of_nil | apply NoDup_nil_2]].
    intros Hin. apply list_elem_of_In in Hin.
    destruct Hin as [Heq | []]. discriminate Heq.
  - destruct (Hknown "Count" (CfgDict [("value", PInt 4); ("unit", PStr "Hz")])
                (PInt 4) (sample_counter EmptyString))
      as (q' & Hq' & Hv & _).
    + left; reflexivity.
    + reflexivity.
    + vm_compute; reflexivity.
    + exists d', q'. split; [exact Hinit |]. split; [exact Hins |].
      split; [exact Hq' |]. split; [exact Hv |].
      apply (Hunknown "Gain" (CfgValue (PInt 1))).
      * right; left; reflexivity.
      * vm_compute; reflexivity.
Defined.

Lemma init_unknown_keys_witness :
  let d := sample_cache_driver in
  init sample_externals
    [("Gain", CfgDict [("value", PInt 1); ("quant", PInt 2)])] d
  = (Ok ReturnedSelf, d).
Proof.
  intros d.
  refine (proj1 (init_unknown_keys sample_externals d
                   [("Gain", CfgDict [("value", PInt 1); ("quant", PInt 2)])]) _).
  intros entry [<- | []]. split; [vm_compute; reflexivity | discriminate].
Defined.

Lemma failed_open_caches_nothing_witness :
  let m := DriverManager.new (mkRM ∅ []) in
  let m1 := snd (DriverManager.open sample_externals
                   (DriverManager.ByName "scope") None m) in
  m_instr m1 = m_instr m
  /\ m_objects m1 = m_objects m
  /\ (forall key, DriverManager.get key m1 = DriverManager.get key m).
Proof.
  intros m m1.
  refine (failed_open_caches_nothing sample_externals
            (DriverManager.ByName "scope") None m m1 NameError _).
  vm_compute; reflexivity.
Defined.

Lemma get_after_open_witness :
  let m := DriverManager.new (sample_rm sample_answer) in
  let a := DriverManager.ByRecord (sample_instrument "scope") in
  let m1 := snd (DriverManager.open sample_externals a None m) in
  DriverManager.open sample_externals a None m = (Ok 0%nat, m1)
  /\ DriverManager.get "scope" m1 = Some 0%nat.
Proof.
  intros m a m1.
  assert (H : DriverManager.open sample_externals a None m = (Ok 0%nat, m1))
    by (vm_compute; reflexivity).
  split; [exact H |].
  exact (proj1 (get_after_open sample_externals a None m m1 0%nat
                  (sample_instrument "scope") H eq_refl)).
Defined.

Lemma open_twice_same_record_witness :
  let rm := sample_rm "ACME, Scope 9000, SN0042, 1.0.2" in
  let m := DriverManager.new rm in
  let a := DriverManager.ByRecord (sample_instrument "scope1") in
  let m1 := snd (DriverManager.open sample_externals a None m) in
  DriverManager.open sample_externals a None m = (Ok 0%nat, m1)
  /\ DriverManager.open sample_externals a None m1 = (Ok 0%nat, m1)
  /\ m_calls m1 = [("GPIB0::12::INSTR", "drivers.scope")]
  /\ rm_opened (m_rm m1) = ["GPIB0::12::INSTR"].
Proof.
  intros rm m a m1.
  assert (H : DriverManager.open sample_externals a None m = (Ok 0%nat, m1))
    by (vm_compute; reflexivity).
  split; [exact H |].
  split; [exact (proj1 (open_twice_same_record sample_externals
                          (sample_instrument "scope1") None None m m1 0 H)) |].
  split; vm_compute; reflexivity.
Defined.

Lemma open_generic_resource_witness :
  let m := DriverManager.new (sample_rm sample_answer) in
  let d := BaseDriver.new (mkDriverClass [] "SYST:ERR?")
             (Some (mkTransport 2000 [CQuery "*IDN?"] []))
             (PStr "GPIB0::12::INSTR") (PStr "Scope 9000") 3 in
  DriverManager._open_resource sample_externals "GPIB0::12::INSTR"
    "drivers.scope" None m
  = (Ok 0%nat,
     mkManager (m_instr m) [d]
       (mkRM (rm_devices (m_rm m)) ["GPIB0::12::INSTR"])
       [("GPIB0::12::INSTR", "drivers.scope")]).
Proof.
  intros m d.
  refine (proj1 (open_generic_resource sample_externals "GPIB0::12::INSTR"
                   "drivers.scope" None m sample_answer []
                   (mkDriverClass [] "SYST:ERR?")
                   "ACME" "Scope 9000" "123" "1.0" [] _ _ _ _)).
  - vm_compute; reflexivity.
  - vm_compute; reflexivity.
  - vm_compute; reflexivity.
  - reflexivity.
Defined.

Lemma teardown_closes_cached_witness :
  let t := t_set_timeout 3000 (sample_handle []) in
  let d := sample_driver PNone EmptyString (Some (sample_handle [])) in
  let m := sample_manager d in
  m_objects (manager_del m) !! 0%nat = Some (closed_times 1 t d).
Proof.
  intros t d m.
  refine (proj2 (proj1 (proj2 (teardown_closes_cached m)) "scope" 0%nat d t
                   _ _ _) _).
  - vm_compute; reflexivity.
  - reflexivity.
  - vm_compute; reflexivity.
  - intros name'.
    change (m_instr m) with (<["scope" := 0%nat]> (∅ : gmap string nat)).
    destruct (decide ("scope" = name')) as [<- | Hne]; [reflexivity |].
    rewrite lookup_insert_ne, lookup_empty by exact Hne. discriminate.
Defined.

Lemma ats_addresses_resolve_witness :
  _parse_resource_name "ATS9870::SYSTEM1::2::INSTR"
  = Ok (mkResource (Some "ATS") None (Some "AlazarTech") (Some "ATS9870") None
          (Some 1) (Some 2) "ATS9870::SYSTEM1::2::INSTR").
Proof.
  refine (ats_addresses_resolve "ATS9870" "1" "2" "::INSTR" EmptyString
            _ _ _ _ _ _ _).
  - right; right; reflexivity.
  - discriminate.
  - reflexivity.
  - discriminate.
  - reflexivity.
  - right; reflexivity.
  - left; reflexivity.
Defined.

Lemma protocol_of_address_witness :
  parse_resource_name "usb0::0x1234::INSTR" = Ok ("USB", "usb0::0x1234::INSTR").
Proof.
  refine (proj1 (proj1 (protocol_of_address "usb0::0x1234::INSTR") "usb" _)).
  exists "0", "0x1234::INSTR", EmptyString.
  repeat split; try discriminate; try reflexivity.
  left; reflexivity.
Defined.

Lemma option_index_and_code_witness :
  let q := sample_option (PStr "OFF") EmptyString in
  QOption.getIndex sample_externals PNone [] (q, None) = (Ok (PInt 1), (q, None))
  /\ QOption.getCmdOption sample_externals PNone [] (q, None)
     = (Ok (PInt 0), (q, None)).
Proof.
  intros q.
  pose proof (option_index_and_code sample_externals q None PNone []
                [(PStr "ON", PInt 1)] [] (PStr "OFF") (PInt 0)) as H.
  destruct H as (H1 & H2 & _).
  - left; reflexivity.
  - discriminate.
  - reflexivity.
  - vm_compute; reflexivity.
  - reflexivity.
  - vm_compute; reflexivity.
  - vm_compute; reflexivity.
  - split; [exact H1 | apply H2; reflexivity].
Defined.

Lemma write_values_checked_first_witness :
  let d := sample_driver PNone EmptyString (Some (sample_handle [])) in
  write_ascii_values "DATA" (PInt 5) "f" "," true d = (Raise TypeError, d).
Proof.
  intros d.
  refine (proj1 (proj1 (write_values_checked_first sample_externals d "DATA" "f"
                          "," "f" (PInt 5) false true)
                   (t_set_timeout 3000 (sample_handle [])) _) TypeError _).
  - vm_compute; reflexivity.
  - reflexivity.
Defined.
